(** * ForgeAI: a shallow embedding of the executors, the plugin manager,
    the registry client and local installation, the CLI executor resolution
    and commands, the HTTP job manager and its handlers, the security
    harness with its launcher, and the performance metrics.

    Go values are embedded as follows.
    - [string] is Go's byte string (a list of 8-bit characters).
    - [int], [int64] and [time.Duration] are [Z]; where the source does
      arithmetic on them the 64-bit wrap-around is written out ([wrap64]).
    - a pair [(v, error)] returned by a Go function is a [result]: [Ok v]
      for a nil error, [Err msg] for an error whose [Error()] text is [msg].
    - calls into the operating system (temporary directories, files, child
      processes) go through a [World] of oracles and are recorded in a
      trace, threaded by the [IO] monad below.
    - a struct is a record, a method a function that takes the receiver.
      Each Go package is a module; a type with methods of its own is a
      nested module whose record is [t]. *)

From Stdlib Require Import ZArith Lia List Ascii String Bool Floats.
From Stdlib Require Import DecimalString.
From Stdlib Require DecimalZ.
From stdpp Require Import base option list gmap strings fin_maps.

Local Open Scope Z_scope.

(** ** Go values *)

Inductive result (A : Type) : Type :=
| Ok (a : A)
| Err (msg : string).
Arguments Ok {A} a.
Arguments Err {A} msg.

Definition max_int64 : Z := 2 ^ 63 - 1.
Definition min_int64 : Z := - 2 ^ 63.

(** Two's-complement reduction of an integer to the range of [int64]. *)
Definition wrap64 (z : Z) : Z := (z + 2 ^ 63) mod 2 ^ 64 - 2 ^ 63.

(** [fmt.Sprintf("%d", z)]. *)
Definition itoa (z : Z) : string := NilZero.string_of_int (Z.to_int z).

Definition Second : Z := 1000000000.
Definition Millisecond : Z := 1000000.
Definition Hour : Z := 3600 * Second.

Definition newline : ascii := ascii_of_nat 10.

(** ** Package [strings] and [path/filepath] of the Go library *)
Module gostrings.

Fixpoint HasPrefix (s prefix : string) {struct prefix} : bool :=
  match prefix with
  | EmptyString => true
  | String c p =>
      match s with
      | EmptyString => false
      | String d s' => if Ascii.eqb c d then HasPrefix s' p else false
      end
  end.

(** [strings.Contains(s, substr)]: some suffix of [s] starts with [substr]. *)
Fixpoint Contains (s substr : string) : bool :=
  HasPrefix s substr ||
  match s with
  | EmptyString => false
  | String _ s' => Contains s' substr
  end.

(** [filepath.Ext(path)] on a Unix host: the suffix that starts at the last
    dot of the last path element, empty when that element has no dot.
    [ext_scan] walks the path from the left and keeps the candidate found
    so far; a separator discards it. *)
Fixpoint ext_scan (path : string) (found : option string) : string :=
  match path with
  | EmptyString => default "" found
  | String c rest =>
      if Ascii.eqb c "/" then ext_scan rest None
      else if Ascii.eqb c "." then
        (* a later dot or separator inside [rest] overrides this one *)
        ext_scan rest (Some path)
      else ext_scan rest found
  end.

Definition Ext (path : string) : string := ext_scan path None.

(** The path cut at its last separator: [None] when it has none. *)
Fixpoint split_last_sep (path : string) : option (string * string) :=
  match path with
  | EmptyString => None
  | String c rest =>
      match split_last_sep rest with
      | Some (d, b) => Some (String c d, b)
      | None => if Ascii.eqb c "/" then Some ("", rest) else None
      end
  end.

(** [strings.Split(path, "/")]: the elements between the separators;
    there is always at least one. *)
Fixpoint elements (path : string) : list string :=
  match path with
  | EmptyString => [""]
  | String c rest =>
      if Ascii.eqb c "/" then "" :: elements rest
      else match elements rest with
           | e :: es => String c e :: es
           | [] => [String c ""]
           end
  end.

(** [strings.Join(es, "/")] *)
Fixpoint join_sep (es : list string) : string :=
  match es with
  | [] => ""
  | [e] => e
  | e :: rest => e +:+ "/" +:+ join_sep rest
  end.

(** The loop of [filepath.Clean] over the elements still [todo], with the
    elements [kept] so far, last first: an empty element and a dot are
    dropped; a double dot takes back the element kept last, unless there is
    none or it is a double dot itself, and then it is kept on a path that
    is not rooted and dropped on one that is. *)
Fixpoint clean_elements (rooted : bool) (kept todo : list string) : list string :=
  match todo with
  | [] => kept
  | e :: todo =>
      if String.eqb e "" || String.eqb e "." then clean_elements rooted kept todo
      else if String.eqb e ".." then
        match kept with
        | top :: below =>
            if String.eqb top ".." then clean_elements rooted (e :: kept) todo
            else clean_elements rooted below todo
        | [] =>
            if rooted then clean_elements rooted [] todo
            else clean_elements rooted [e] todo
        end
      else clean_elements rooted (e :: kept) todo
  end.

(** [filepath.Clean] on a Unix host. *)
Definition Clean (path : string) : string :=
  let rooted := HasPrefix path "/" in
  let out := join_sep (rev (clean_elements rooted [] (elements path))) in
  if rooted then "/" +:+ out
  else if String.eqb out "" then "." else out.

(** [filepath.Dir]: the path up to its last separator, cleaned. *)
Definition Dir (path : string) : string :=
  match split_last_sep path with
  | None => Clean ""
  | Some (d, _) => Clean (d +:+ "/")
  end.

(** [path] without the separators it ends in. *)
Fixpoint strip_seps (path : string) : string :=
  match path with
  | EmptyString => ""
  | String c rest =>
      match strip_seps rest with
      | EmptyString => if Ascii.eqb c "/" then "" else String c ""
      | r => String c r
      end
  end.

(** [filepath.Base]: the last element of the path; a dot for the empty
    path, and a separator for a path of separators. *)
Definition Base (path : string) : string :=
  if String.eqb path "" then "."
  else
    let path := strip_seps path in
    let last := match split_last_sep path with
                | Some (_, b) => b
                | None => path
                end in
    if String.eqb last "" then "/" else last.

(** [filepath.Join] of two elements: the elements from the first one that
    is not empty on, joined by separators and cleaned; the empty string when
    both are empty. *)
Definition Join (dir name : string) : string :=
  if String.eqb dir "" then
    if String.eqb name "" then "" else Clean name
  else Clean (dir +:+ "/" +:+ name).

End gostrings.

(** ** The operating system as the executors see it *)
Module os.

(** How long the processes that a child has started, and that have
    inherited its stdout and stderr, keep them open. *)
Inductive Hold :=
| Released
| HeldUntil (u : Z)
| HeldForEver.

(** A child process, described by what it would do if left alone: whether
    it can be started at all, the instant (in nanoseconds after its start)
    and status with which it exits by itself, if ever, and the bytes that
    have been written to its combined stdout and stderr up to any instant.
    The child does not end the processes it has started when it is killed
    or exits: [lingering] tells until which instant after the child's start
    they hold its stdout and stderr, when the child was killed at the given
    instant ([Some d]) and when it was not ([None]). A holder that is gone
    before the child ends makes no difference. *)
Record Process := {
  start_err : option string;
  exit_at : option (Z * Z);
  written : Z -> string;
  lingering : option Z -> Hold
}.

Record DirEntry := { Name : string; IsDir : bool }.

(** The oracles that answer the system calls of one run. *)
Record World := {
  MkdirTemp : string -> result string;
  WriteFile : string -> string -> option string;
  ReadFile : string -> result string;
  (** [os.Stat(path)] does not report [os.IsNotExist] *)
  Exists : string -> bool;
  ReadDir : string -> result (list DirEntry);
  (** the child that [exec.Command(argv...)] with [cmd.Dir = dir] starts *)
  Command : list string -> string -> Process
}.

(** What a run leaves behind. [EvSpawn argv] stands for a call of
    [cmd.CombinedOutput()] or [cmd.Run()] on the command [argv], that is for
    every attempt to start a child, successful or not. *)
Inductive Event :=
| EvMkdirTemp (pattern : string)
| EvWriteFile (path : string)
| EvRemoveAll (path : string)
| EvSpawn (argv : list string)
| EvPrint (line : string).

(** What has happened so far, oldest event first, and the clock, which only
    the waiting for child processes advances. *)
Record St := { trace : list Event; clock : Z }.

(** A computation either returns a value or blocks for ever ([None]). *)
Definition IO (A : Type) : Type := St -> option A * St.

Definition ret {A} (a : A) : IO A := fun s => (Some a, s).

Definition bind {A B} (m : IO A) (k : A -> IO B) : IO B :=
  fun s => match m s with
           | (Some a, s') => k a s'
           | (None, s') => (None, s')
           end.

Definition emit (e : Event) : IO unit :=
  fun s => (Some tt, {| trace := trace s ++ [e]; clock := clock s |}).

Definition now : IO Z := fun s => (Some (clock s), s).

Definition sleep (d : Z) : IO unit :=
  fun s => (Some tt, {| trace := trace s; clock := clock s + d |}).

Definition hang {A} : IO A := fun s => (None, s).

Definition spawned (s : St) : list (list string) :=
  omap (fun e => match e with EvSpawn argv => Some argv | _ => None end) (trace s).

Definition st0 : St := {| trace := []; clock := 0 |}.

End os.

Notation "'let*' x ':=' m 'in' k" := (os.bind m (fun x => k))
  (at level 10, x name, m at level 100, k at level 200).
Notation "m ';;;' k" := (os.bind m (fun _ => k))
  (at level 100, k at level 200, right associativity).

(** ** Package [context] and [os/exec] of the Go library *)
Module context.

Inductive CtxErr := NoErr | DeadlineExceeded | Canceled.

(** A context is its deadline, an instant of the clock, if it has one. *)
Record Context := { deadline : option Z }.

Definition Background : Context := {| deadline := None |}.

(** [context.WithTimeout(parent, timeout)]: the earlier of the parent's
    deadline and [timeout] from now. *)
Definition WithTimeout (parent : Context) (timeout : Z) : os.IO Context :=
  os.bind os.now (fun t =>
  os.ret {| deadline := Some (match deadline parent with
                              | None => t + timeout
                              | Some d => Z.min d (t + timeout)
                              end) |}).

(** The time left, at instant [t], until the deadline. *)
Definition remaining (ctx : Context) (t : Z) : option Z :=
  match deadline ctx with
  | None => None
  | Some d => Some (d - t)
  end.

End context.

Module exec.
Import os context.

(** The error of [cmd.CombinedOutput] and [cmd.Run]: an [*exec.ExitError]
    with the child's status (-1 when a signal killed it), or anything else
    (the binary was not found, the context was already done, ...). *)
Inductive CmdErr :=
| ExitError (code : Z)
| OtherError (msg : string).

Definition Error (e : CmdErr) : string :=
  match e with
  | ExitError code =>
      if code =? -1 then "signal: killed" else "exit status " +:+ itoa code
  | OtherError msg => msg
  end.

Record Finished := {
  output : string;
  err : option CmdErr;
  elapsed : Z;
  (** [ctx.Err()] read when the call has returned *)
  ctx_err : CtxErr
}.

(** The child runs to its own exit; [ctx_err] is [ctx.Err()] at that
    instant. *)
Definition exits (p : Process) (t status : Z) : Finished :=
  {| output := written p t;
     err := if status =? 0 then None else Some (ExitError status);
     elapsed := t;
     ctx_err := NoErr |}.

(** The context's deadline passes first: the child is killed. *)
Definition killed (p : Process) (d : Z) : Finished :=
  {| output := written p d;
     err := Some (ExitError (-1));
     elapsed := d;
     ctx_err := DeadlineExceeded |}.

(** [exec.CommandContext(ctx, argv...)] followed by [cmd.Start] and by
    [cmd.Wait] for the child itself: how that ends for a given child when
    [left] is the time left until the context's deadline; [None] when the
    child is never reaped (no deadline and a child that does not exit).
    A context that is already done starts no child. *)
Definition wait (left : option Z) (p : Process) : option Finished :=
  match left with
  | Some d =>
      if d <=? 0 then
        Some {| output := ""; err := Some (OtherError "context deadline exceeded");
                elapsed := 0; ctx_err := DeadlineExceeded |}
      else
        match start_err p with
        | Some msg => Some {| output := ""; err := Some (OtherError msg);
                              elapsed := 0; ctx_err := NoErr |}
        | None =>
            match exit_at p with
            | Some (t, status) =>
                if t <? d then Some (exits p t status) else Some (killed p d)
            | None => Some (killed p d)
            end
        end
  | None =>
      match start_err p with
      | Some msg => Some {| output := ""; err := Some (OtherError msg);
                            elapsed := 0; ctx_err := NoErr |}
      | None =>
          match exit_at p with
          | Some (t, status) => Some (exits p t status)
          | None => None
          end
      end
  end.

(** [cmd.Run()] with [cmd.Stdout] and [cmd.Stderr] left nil: the child
    writes to the null device, and the call returns when the child has been
    reaped. Only the error is looked at. *)
Definition Run (w : World) (ctx : Context) (argv : list string) : IO (option CmdErr) :=
  let* t := now in
  emit (EvSpawn argv) ;;;
  match wait (remaining ctx t) (Command w argv "") with
  | Some f => sleep (elapsed f) ;;; ret (err f)
  | None => hang
  end.

(** The instant at which the last holder has closed the stdout and stderr
    of a child that ended at [e], killed at [kill] if it was killed. *)
Definition pipe_closed (p : Process) (kill : option Z) (e : Z) : option Z :=
  match lingering p kill with
  | Released => Some e
  | HeldUntil u => Some (Z.max e u)
  | HeldForEver => None
  end.

(** [ctx.Err()] at the instant [t] after the start. *)
Definition overdue (left : option Z) (t : Z) : CtxErr :=
  match left with
  | Some d => if d <=? t then DeadlineExceeded else NoErr
  | None => NoErr
  end.

(** [cmd.CombinedOutput()] makes stdout and stderr of the child one pipe,
    which a goroutine of the caller copies into a buffer until every
    process that holds the write end has closed it; [cmd.Wait] reaps the
    child and then waits for that goroutine. The context kills the child
    only, so that the call returns at the later of the child's end and the
    closing of the pipe, with everything written until then, and not at all
    while some process holds the pipe. When no child was started there is
    nothing to wait for. *)
Definition collect (left : option Z) (p : Process) : option Finished :=
  match wait left p with
  | None => None
  | Some f =>
      match err f with
      | Some (OtherError _) => Some f
      | _ =>
          let kill := match ctx_err f with
                      | DeadlineExceeded => Some (elapsed f)
                      | _ => None
                      end in
          match pipe_closed p kill (elapsed f) with
          | Some t => Some {| output := written p t; err := err f; elapsed := t;
                              ctx_err := overdue left t |}
          | None => None
          end
      end
  end.

Definition CombinedOutput (w : World) (ctx : Context) (argv : list string)
    (dir : string) : IO Finished :=
  let* t := now in
  emit (EvSpawn argv) ;;;
  match collect (remaining ctx t) (Command w argv dir) with
  | Some f => sleep (elapsed f) ;;; ret f
  | None => hang
  end.

End exec.

(** ** Package [sandbox] *)
Module sandbox.

Record ExecutionResult := {
  Stdout : string;
  Stderr : string;
  ExitCode : Z;
  Duration : Z
}.

End sandbox.

(** The block that every executor runs once [cmd.CombinedOutput()] has
    returned, the same text in [LocalExecutor.ExecuteFile],
    [SecureExecutor.ExecuteFile], [ContainerizedExecutor.executeWithDocker],
    [ContainerizedExecutor.executeLocally] and [DockerExecutor.runContainer]:
    the captured bytes become [Stdout] and the elapsed time [Duration]; if
    [ctx.Err()] is [context.DeadlineExceeded] the result is the timeout
    result; otherwise an [*exec.ExitError] gives its exit code, any other
    error gives -1 with the error text in [Stderr], and no error gives 0. *)
Definition resultOf (f : exec.Finished) : sandbox.ExecutionResult :=
  match exec.ctx_err f with
  | context.DeadlineExceeded =>
      {| sandbox.Stdout := exec.output f; sandbox.Stderr := "Execution timed out";
         sandbox.ExitCode := -1; sandbox.Duration := exec.elapsed f |}
  | _ =>
      match exec.err f with
      | Some (exec.ExitError code) =>
          {| sandbox.Stdout := exec.output f; sandbox.Stderr := "";
             sandbox.ExitCode := code; sandbox.Duration := exec.elapsed f |}
      | Some e =>
          {| sandbox.Stdout := exec.output f; sandbox.Stderr := exec.Error e;
             sandbox.ExitCode := -1; sandbox.Duration := exec.elapsed f |}
      | None =>
          {| sandbox.Stdout := exec.output f; sandbox.Stderr := "";
             sandbox.ExitCode := 0; sandbox.Duration := exec.elapsed f |}
      end
  end.

(** ** Package [executor]: the local executor *)
Module executor.
Import os context exec sandbox gostrings.

Record LocalExecutor := { Timeout : Z; MemoryLimit : Z }.

Definition NewLocalExecutor : LocalExecutor :=
  {| Timeout := 30 * Second; MemoryLimit := 128 |}.

Definition SupportedLanguages : list string := ["python"; "go"; "javascript"].

Definition writeCodeToFile (w : World) (tempDir language code : string)
    : IO (result string) :=
  let write (fileName : string) : IO (result string) :=
    let filePath := Join tempDir fileName in
    emit (EvWriteFile filePath) ;;;
    match WriteFile w filePath code with
    | Some msg => ret (Err msg)
    | None => ret (Ok filePath)
    end in
  if String.eqb language "python" then write "main.py"
  else if String.eqb language "go" then write "main.go"
  else if String.eqb language "javascript" then write "main.js"
  else ret (Err ("unsupported language: " +:+ language)).

Definition getLanguageFromFile (filePath : string) : string :=
  if String.eqb (Ext filePath) ".py" then "python"
  else if String.eqb (Ext filePath) ".go" then "go"
  else if String.eqb (Ext filePath) ".js" then "javascript"
  else "unknown".

Definition getCommandForLanguage (language filePath : string)
    : result (list string) :=
  if String.eqb language "python" then Ok ["python"; filePath]
  else if String.eqb language "go" then Ok ["go"; "run"; filePath]
  else if String.eqb language "javascript" then Ok ["node"; filePath]
  else Err ("unsupported language: " +:+ language).

Definition ExecuteFile (w : World) (e : LocalExecutor) (ctx : Context)
    (filePath : string) : IO (result ExecutionResult) :=
  let language := getLanguageFromFile filePath in
  match getCommandForLanguage language filePath with
  | Err _ => ret (Err ("unsupported language: " +:+ language))
  | Ok cmdArgs =>
      let* ctx := (if 0 <? Timeout e then WithTimeout ctx (Timeout e) else ret ctx) in
      let* f := CombinedOutput w ctx cmdArgs "" in
      ret (Ok (resultOf f))
  end.

Definition Execute (w : World) (e : LocalExecutor) (ctx : Context)
    (language code : string) : IO (result ExecutionResult) :=
  emit (EvMkdirTemp "forgeai-*") ;;;
  match MkdirTemp w "forgeai-*" with
  | Err msg => ret (Err ("failed to create temp directory: " +:+ msg))
  | Ok tempDir =>
      let* r :=
        (let* written := writeCodeToFile w tempDir language code in
         match written with
         | Err msg => ret (Err ("failed to write code to file: " +:+ msg))
         | Ok filePath => ExecuteFile w e ctx filePath
         end) in
      (* defer os.RemoveAll(tempDir) *)
      emit (EvRemoveAll tempDir) ;;;
      ret r
  end.

End executor.

(** ** Package [container]: the generic shell and the Docker executor *)
Module container.
Import os context exec sandbox gostrings.

(** *** The engine-pluggable shell, whose internals are placeholders *)
Module ContainerExecutor.

Record t := {
  Engine : string;
  Timeout : Z;
  MemoryLimit : Z;
  CPUShares : Z;
  NetworkAccess : bool;
  ReadOnlyRoot : bool
}.

Record ContainerConfig := {
  cfg_Image : string;
  cfg_Timeout : Z;
  cfg_MemoryLimit : Z;
  cfg_CPUShares : Z;
  cfg_NetworkAccess : bool;
  cfg_ReadOnlyRoot : bool;
  cfg_FilePath : string;
  cfg_Language : string
}.


Definition SupportedLanguages : list string := ["python"; "go"; "javascript"].

Definition createTempDir : result string := Ok "/tmp/forgeai-container".

Definition getFileExtension (language : string) : string :=
  if String.eqb language "python" then "py"
  else if String.eqb language "go" then "go"
  else if String.eqb language "javascript" then "js"
  else "txt".

Definition writeCodeToFile (tempDir language code : string) : result string :=
  Ok (tempDir +:+ "/main." +:+ getFileExtension language).

Definition getLanguageFromFile (filePath : string) : string := "python".

Definition isLanguageSupported (language : string) : bool := true.

Definition getImageForLanguage (language : string) : string :=
  if String.eqb language "python" then "python:3.9-alpine"
  else if String.eqb language "go" then "golang:1.19-alpine"
  else if String.eqb language "javascript" then "node:16-alpine"
  else "alpine:latest".

Definition runContainer (ctx : Context) (config : ContainerConfig)
    : result ExecutionResult :=
  Ok {| Stdout := "Container execution would run " +:+ cfg_Language config
                  +:+ " code in " +:+ cfg_Image config +:+ " container";
        Stderr := "";
        ExitCode := 0;
        Duration := 100 * Millisecond |}.

Definition ExecuteFile (c : t) (ctx : Context) (filePath : string)
    : IO (result ExecutionResult) :=
  let language := getLanguageFromFile filePath in
  if negb (isLanguageSupported language)
  then ret (Err ("unsupported language: " +:+ language))
  else
    let image := getImageForLanguage language in
    let* ctx := (if 0 <? Timeout c then WithTimeout ctx (Timeout c) else ret ctx) in
    let config :=
      {| cfg_Image := image; cfg_Timeout := Timeout c;
         cfg_MemoryLimit := MemoryLimit c; cfg_CPUShares := CPUShares c;
         cfg_NetworkAccess := NetworkAccess c; cfg_ReadOnlyRoot := ReadOnlyRoot c;
         cfg_FilePath := filePath; cfg_Language := language |} in
    match runContainer ctx config with
    | Err msg => ret (Err ("container execution failed: " +:+ msg))
    | Ok r => ret (Ok r)
    end.

Definition Execute (c : t) (ctx : Context) (language code : string)
    : IO (result ExecutionResult) :=
  match createTempDir with
  | Err msg => ret (Err ("failed to create temp directory: " +:+ msg))
  | Ok tempDir =>
      (* defer c.cleanupTempDir(tempDir) does nothing *)
      match writeCodeToFile tempDir language code with
      | Err msg => ret (Err ("failed to write code to file: " +:+ msg))
      | Ok filePath => ExecuteFile c ctx filePath
      end
  end.

End ContainerExecutor.

(** *** The Docker executor *)
Module DockerExecutor.

Record DockerConfig := {
  cfg_Image : string;
  cfg_Timeout : Z;
  cfg_MemoryLimit : Z;
  cfg_CPUShares : Z;
  cfg_NetworkAccess : bool;
  cfg_ReadOnlyRoot : bool;
  cfg_FilePath : string;
  cfg_Language : string
}.

Record t := {
  Timeout : Z;
  MemoryLimit : Z;
  CPUShares : Z;
  NetworkAccess : bool;
  ReadOnlyRoot : bool
}.

Definition NewDockerExecutor : t :=
  {| Timeout := 30 * Second; MemoryLimit := 128; CPUShares := 100;
     NetworkAccess := false; ReadOnlyRoot := true |}.

Definition SupportedLanguages : list string := ["python"; "go"; "javascript"].

Definition writeCodeToFile (w : World) (tempDir language code : string)
    : IO (result string) :=
  let write (fileName : string) : IO (result string) :=
    let filePath := Join tempDir fileName in
    emit (EvWriteFile filePath) ;;;
    match WriteFile w filePath code with
    | Some msg => ret (Err msg)
    | None => ret (Ok filePath)
    end in
  if String.eqb language "python" then write "main.py"
  else if String.eqb language "go" then write "main.go"
  else if String.eqb language "javascript" then write "main.js"
  else ret (Err ("unsupported language: " +:+ language)).

Definition getLanguageFromFile (filePath : string) : string :=
  if String.eqb (Ext filePath) ".py" then "python"
  else if String.eqb (Ext filePath) ".go" then "go"
  else if String.eqb (Ext filePath) ".js" then "javascript"
  else "unknown".

(** The loop over [d.SupportedLanguages()]. *)
Definition isLanguageSupported (language : string) : bool :=
  existsb (fun lang => String.eqb lang language) SupportedLanguages.

Definition getImageForLanguage (language : string) : string :=
  if String.eqb language "python" then "python:3.9-alpine"
  else if String.eqb language "go" then "golang:1.19-alpine"
  else if String.eqb language "javascript" then "node:16-alpine"
  else "alpine:latest".

Definition isDockerAvailable (w : World) : IO bool :=
  let* e := Run w Background ["docker"; "--version"] in
  ret (match e with None => true | Some _ => false end).

Definition pullImage (w : World) (ctx : Context) (image : string)
    : IO (option CmdErr) :=
  let* e := Run w ctx ["docker"; "image"; "inspect"; image] in
  match e with
  | None => ret None
  | Some _ => Run w ctx ["docker"; "pull"; image]
  end.

Definition runContainer (w : World) (ctx : Context) (config : DockerConfig)
    : IO (result ExecutionResult) :=
  let* available := isDockerAvailable w in
  if negb available then ret (Err "docker is not available")
  else
    let* pulled := pullImage w ctx (cfg_Image config) in
    match pulled with
    | Some e => ret (Err ("failed to pull image " +:+ cfg_Image config
                            +:+ ": " +:+ Error e))
    | None =>
        let dir := Dir (cfg_FilePath config) in
        let filename := Base (cfg_FilePath config) in
        let cmdArgs := ["docker"; "run"; "--rm";
                        "-v"; dir +:+ ":/workspace";
                        "-w"; "/workspace"] in
        let cmdArgs :=
          if 0 <? cfg_MemoryLimit config
          then cmdArgs ++ ["--memory"; itoa (cfg_MemoryLimit config) +:+ "m"]
          else cmdArgs in
        let cmdArgs :=
          if 0 <? cfg_CPUShares config
          then cmdArgs ++ ["--cpu-shares"; itoa (cfg_CPUShares config)]
          else cmdArgs in
        let cmdArgs :=
          if cfg_ReadOnlyRoot config then cmdArgs ++ ["--read-only"] else cmdArgs in
        let cmdArgs :=
          if negb (cfg_NetworkAccess config)
          then cmdArgs ++ ["--network"; "none"] else cmdArgs in
        let cmdArgs := cmdArgs ++ [cfg_Image config] in
        let run (cmdArgs : list string) : IO (result ExecutionResult) :=
          let* f := CombinedOutput w ctx cmdArgs "" in
          ret (Ok (resultOf f)) in
        if String.eqb (cfg_Language config) "python"
        then run (cmdArgs ++ ["python"; filename])
        else if String.eqb (cfg_Language config) "go"
        then run (cmdArgs ++ ["go"; "run"; filename])
        else if String.eqb (cfg_Language config) "javascript"
        then run (cmdArgs ++ ["node"; filename])
        else ret (Err ("unsupported language: " +:+ cfg_Language config))
    end.

Definition ExecuteFile (w : World) (d : t) (ctx : Context)
    (filePath : string) : IO (result ExecutionResult) :=
  let language := getLanguageFromFile filePath in
  if negb (isLanguageSupported language)
  then ret (Err ("unsupported language: " +:+ language))
  else
    let image := getImageForLanguage language in
    let* ctx := (if 0 <? Timeout d then WithTimeout ctx (Timeout d) else ret ctx) in
    let config :=
      {| cfg_Image := image; cfg_Timeout := Timeout d;
         cfg_MemoryLimit := MemoryLimit d; cfg_CPUShares := CPUShares d;
         cfg_NetworkAccess := NetworkAccess d; cfg_ReadOnlyRoot := ReadOnlyRoot d;
         cfg_FilePath := filePath; cfg_Language := language |} in
    let* r := runContainer w ctx config in
    match r with
    | Err msg => ret (Err ("container execution failed: " +:+ msg))
    | Ok r => ret (Ok r)
    end.

Definition Execute (w : World) (d : t) (ctx : Context)
    (language code : string) : IO (result ExecutionResult) :=
  emit (EvMkdirTemp "forgeai-docker-*") ;;;
  match MkdirTemp w "forgeai-docker-*" with
  | Err msg => ret (Err ("failed to create temp directory: " +:+ msg))
  | Ok tempDir =>
      let* r :=
        (let* written := writeCodeToFile w tempDir language code in
         match written with
         | Err msg => ret (Err ("failed to write code to file: " +:+ msg))
         | Ok filePath => ExecuteFile w d ctx filePath
         end) in
      emit (EvRemoveAll tempDir) ;;;
      ret r
  end.

End DockerExecutor.

End container.

(** ** Package [security]: the hardened executors and the test harness *)
Module security.
Import os context exec sandbox gostrings.

(** The [Executor] interface, as a record of methods. *)
Record Executor := {
  Execute : Context -> string -> string -> IO (result ExecutionResult);
  ExecuteFile : Context -> string -> IO (result ExecutionResult);
  SupportedLanguages : list string
}.

(** [writeCodeToFile], [getLanguageFromFile] and [getCommandForLanguage] are
    methods of [SecureExecutor] and of [ContainerizedExecutor], with the same
    text in both, and use no field of the receiver. *)
Definition writeCodeToFile (w : World) (tempDir language code : string)
    : IO (result string) :=
  let write (fileName : string) : IO (result string) :=
    let filePath := Join tempDir fileName in
    emit (EvWriteFile filePath) ;;;
    match WriteFile w filePath code with
    | Some msg => ret (Err msg)
    | None => ret (Ok filePath)
    end in
  if String.eqb language "python" then write "main.py"
  else if String.eqb language "go" then write "main.go"
  else if String.eqb language "javascript" then write "main.js"
  else ret (Err ("unsupported language: " +:+ language)).

Definition getLanguageFromFile (filePath : string) : string :=
  if String.eqb (Ext filePath) ".py" then "python"
  else if String.eqb (Ext filePath) ".go" then "go"
  else if String.eqb (Ext filePath) ".js" then "javascript"
  else "unknown".

Definition getCommandForLanguage (language filePath : string)
    : result (list string) :=
  if String.eqb language "python" then Ok ["python"; filePath]
  else if String.eqb language "go" then Ok ["go"; "run"; filePath]
  else if String.eqb language "javascript" then Ok ["node"; filePath]
  else Err ("unsupported language: " +:+ language).

(** *** [SecureExecutor] *)
Module SecureExecutor.

Record t := { Timeout : Z; MemoryLimit : Z }.

Definition NewSecureExecutor : t :=
  {| Timeout := 10 * Second; MemoryLimit := 128 |}.

Definition ExecuteFile (w : World) (se : t) (ctx : Context) (filePath : string)
    : IO (result ExecutionResult) :=
  let language := getLanguageFromFile filePath in
  match getCommandForLanguage language filePath with
  | Err _ => ret (Err ("unsupported language: " +:+ language))
  | Ok cmdArgs =>
      let* ctx := (if 0 <? Timeout se then WithTimeout ctx (Timeout se) else ret ctx) in
      (* cmd.Dir = filepath.Dir(filePath) on every operating system *)
      let* f := CombinedOutput w ctx cmdArgs (Dir filePath) in
      ret (Ok (resultOf f))
  end.

Definition Execute (w : World) (se : t) (ctx : Context) (language code : string)
    : IO (result ExecutionResult) :=
  emit (EvMkdirTemp "forgeai-secure-*") ;;;
  match MkdirTemp w "forgeai-secure-*" with
  | Err msg => ret (Err ("failed to create temp directory: " +:+ msg))
  | Ok tempDir =>
      let* r :=
        (let* written := writeCodeToFile w tempDir language code in
         match written with
         | Err msg => ret (Err ("failed to write code to file: " +:+ msg))
         | Ok filePath => ExecuteFile w se ctx filePath
         end) in
      emit (EvRemoveAll tempDir) ;;;
      ret r
  end.

Definition SupportedLanguages : list string := ["python"; "go"; "javascript"].

Definition asExecutor (w : World) (se : t) : Executor :=
  {| security.Execute := Execute w se;
     security.ExecuteFile := ExecuteFile w se;
     security.SupportedLanguages := SupportedLanguages |}.

End SecureExecutor.

(** *** [ContainerizedExecutor] *)
Module ContainerizedExecutor.

Record t := {
  Timeout : Z;
  MemoryLimit : Z;
  EnableNetwork : bool;
  ReadOnlyRoot : bool
}.

Definition NewContainerizedExecutor : t :=
  {| Timeout := 10 * Second; MemoryLimit := 128;
     EnableNetwork := false; ReadOnlyRoot := true |}.

Definition getImageForLanguage (language : string) : string :=
  if String.eqb language "python" then "python:3.9-alpine"
  else if String.eqb language "go" then "golang:1.19-alpine"
  else if String.eqb language "javascript" then "node:16-alpine"
  else "alpine:latest".

Definition isDockerAvailable (w : World) : IO bool :=
  let* e := Run w Background ["docker"; "--version"] in
  ret (match e with None => true | Some _ => false end).

(** The command line that [executeWithDocker] builds, up to and including
    the [switch] on the language. *)
Definition dockerCommand (ce : t) (language filePath : string)
    : result (list string) :=
  let image := getImageForLanguage language in
  let dir := Dir filePath in
  let filename := Base filePath in
  let cmdArgs := ["docker"; "run"; "--rm";
                  "-v"; dir +:+ ":/workspace:ro";
                  "-w"; "/workspace"] in
  let cmdArgs :=
    if 0 <? MemoryLimit ce
    then cmdArgs ++ ["--memory"; itoa (MemoryLimit ce) +:+ "m"]
    else cmdArgs in
  let cmdArgs := cmdArgs ++ ["--cpu-shares"; "100"] in
  let cmdArgs :=
    if ReadOnlyRoot ce
    then (cmdArgs ++ ["--read-only"]) ++ ["--tmpfs"; "/tmp:rw,noexec,nosuid,size=10m"]
    else cmdArgs in
  let cmdArgs :=
    if negb (EnableNetwork ce) then cmdArgs ++ ["--network"; "none"] else cmdArgs in
  let cmdArgs := cmdArgs ++ ["--user"; "65534:65534"] in
  let cmdArgs := cmdArgs ++ [image] in
  if String.eqb language "python" then Ok (cmdArgs ++ ["python"; filename])
  else if String.eqb language "go" then Ok (cmdArgs ++ ["go"; "run"; filename])
  else if String.eqb language "javascript" then Ok (cmdArgs ++ ["node"; filename])
  else Err ("unsupported language: " +:+ language).

Definition executeWithDocker (w : World) (ce : t) (ctx : Context)
    (language filePath : string) : IO (result ExecutionResult) :=
  match dockerCommand ce language filePath with
  | Err msg => ret (Err msg)
  | Ok cmdArgs =>
      let* ctx := (if 0 <? Timeout ce then WithTimeout ctx (Timeout ce) else ret ctx) in
      let* f := CombinedOutput w ctx cmdArgs "" in
      ret (Ok (resultOf f))
  end.

Definition executeLocally (w : World) (ce : t) (ctx : Context)
    (language filePath : string) : IO (result ExecutionResult) :=
  match getCommandForLanguage language filePath with
  | Err _ => ret (Err ("unsupported language: " +:+ language))
  | Ok cmdArgs =>
      let* ctx := (if 0 <? Timeout ce then WithTimeout ctx (Timeout ce) else ret ctx) in
      let* f := CombinedOutput w ctx cmdArgs (Dir filePath) in
      ret (Ok (resultOf f))
  end.

Definition ExecuteFile (w : World) (ce : t) (ctx : Context) (filePath : string)
    : IO (result ExecutionResult) :=
  let language := getLanguageFromFile filePath in
  let* available := isDockerAvailable w in
  if negb available
  then executeLocally w ce ctx language filePath
  else executeWithDocker w ce ctx language filePath.

Definition Execute (w : World) (ce : t) (ctx : Context) (language code : string)
    : IO (result ExecutionResult) :=
  emit (EvMkdirTemp "forgeai-container-*") ;;;
  match MkdirTemp w "forgeai-container-*" with
  | Err msg => ret (Err ("failed to create temp directory: " +:+ msg))
  | Ok tempDir =>
      let* r :=
        (let* written := writeCodeToFile w tempDir language code in
         match written with
         | Err msg => ret (Err ("failed to write code to file: " +:+ msg))
         | Ok filePath => ExecuteFile w ce ctx filePath
         end) in
      emit (EvRemoveAll tempDir) ;;;
      ret r
  end.

Definition SupportedLanguages : list string := ["python"; "go"; "javascript"].

Definition asExecutor (w : World) (ce : t) : Executor :=
  {| security.Execute := Execute w ce;
     security.ExecuteFile := ExecuteFile w ce;
     security.SupportedLanguages := SupportedLanguages |}.

End ContainerizedExecutor.

(** *** The test framework *)

Record TestResult := {
  ShouldBeContained : bool;
  ExpectedExitCode : Z;
  ExpectedOutput : string
}.

Record TestCase := {
  Name : string;
  Code : string;
  Language : string;
  Description : string;
  Category : string;
  ExpectedResult : TestResult
}.

Record TestReport := {
  rTestCase : TestCase;
  ActualResult : option ExecutionResult;
  rExitCode : Z;
  rDuration : Z;
  Passed : bool;
  Error : option string
}.

Record TestFramework := {
  executor : Executor;
  tests : list TestCase
}.

Definition lf : string := String newline EmptyString.

Definition NewTestFramework (w : World) : TestFramework :=
  {| executor := ContainerizedExecutor.asExecutor w
                   ContainerizedExecutor.NewContainerizedExecutor;
     tests := [
       {| Name := "CPU Exhaustion - Infinite Loop";
          Code := "while True: pass";
          Language := "python";
          Description := "Tests CPU exhaustion through infinite loop";
          Category := "Resource Exhaustion";
          ExpectedResult := {| ShouldBeContained := true; ExpectedExitCode := -1;
                               ExpectedOutput := "" |} |};
       {| Name := "Memory Exhaustion - Large List";
          Code := "a = []; while True: a.append('x' * 1000000)";
          Language := "python";
          Description := "Tests memory exhaustion through large list allocation";
          Category := "Resource Exhaustion";
          ExpectedResult := {| ShouldBeContained := true; ExpectedExitCode := 1;
                               ExpectedOutput := "" |} |};
       {| Name := "File System Access - Sensitive File";
          Code := "try:" +:+ lf +:+ "    with open('/etc/passwd', 'r') as f:" +:+ lf
                  +:+ "        print(f.read())" +:+ lf +:+ "except:" +:+ lf
                  +:+ "    print('Access denied')";
          Language := "python";
          Description := "Tests file system access to sensitive files";
          Category := "File System Attacks";
          ExpectedResult := {| ShouldBeContained := true; ExpectedExitCode := 0;
                               ExpectedOutput := "Access denied" |} |};
       {| Name := "Network Access - External Connection";
          Code := "import socket" +:+ lf +:+ "try:" +:+ lf
                  +:+ "    s = socket.socket(socket.AF_INET, socket.SOCK_STREAM)" +:+ lf
                  +:+ "    s.connect(('google.com', 80))" +:+ lf
                  +:+ "    print('Connection successful')" +:+ lf
                  +:+ "    s.close()" +:+ lf +:+ "except:" +:+ lf
                  +:+ "    print('Network access denied')";
          Language := "python";
          Description := "Tests network access to external sites";
          Category := "Network Attacks";
          ExpectedResult := {| ShouldBeContained := true; ExpectedExitCode := 0;
                               ExpectedOutput := "Network access denied" |} |};
       {| Name := "Valid Code Execution";
          Code := "print('Hello, World!')";
          Language := "python";
          Description := "Tests valid code execution";
          Category := "Valid Execution";
          ExpectedResult := {| ShouldBeContained := false; ExpectedExitCode := 0;
                               ExpectedOutput := "Hello, World!" |} |}
     ] |}.

(** [stdout[:len(stdout)-1]] when the last byte is a line feed. *)
Fixpoint trimLastNewline (stdout : string) : string :=
  match stdout with
  | EmptyString => EmptyString
  | String c EmptyString => if Ascii.eqb c newline then EmptyString else stdout
  | String c rest => String c (trimLastNewline rest)
  end.

Definition validateTestResult (test : TestCase) (result : ExecutionResult) : bool :=
  let expected := ExpectedResult test in
  if ShouldBeContained expected then
    if ExitCode result =? -1 then true
    else if negb (ExitCode result =? 0) then true
    else if negb (String.eqb (ExpectedOutput expected) "")
            && negb (String.eqb (Stdout result) "")
            && (let stdout := trimLastNewline (Stdout result) in
                Contains stdout (ExpectedOutput expected)
                || String.eqb stdout (ExpectedOutput expected))
         then true
    else if negb (String.eqb (Stderr result) "") then true
    else false
  else
    if ExitCode result =? ExpectedExitCode expected then
      if negb (String.eqb (ExpectedOutput expected) "") then
        if Contains (Stdout result) (ExpectedOutput expected)
           || String.eqb (Stdout result) (ExpectedOutput expected)
        then true else false
      else true
    else false.

Definition RunTest (tf : TestFramework) (test : TestCase) : IO TestReport :=
  let* start := now in
  let* r := Execute (executor tf) Background (Language test) (Code test) in
  let* finish := now in
  let duration := finish - start in
  match r with
  | Err err =>
      ret {| rTestCase := test; ActualResult := None; rExitCode := 0;
             rDuration := duration;
             Passed := ShouldBeContained (ExpectedResult test);
             Error := Some err |}
  | Ok result =>
      ret {| rTestCase := test; ActualResult := Some result;
             rExitCode := ExitCode result;
             rDuration := duration;
             Passed := validateTestResult test result;
             Error := None |}
  end.



End security.

(** ** Package [plugin]: external executors and their manager *)
Module plugin.
Import os context exec sandbox gostrings.

Record Manifest := { Name : string; Languages : list string }.

(** [json.Unmarshal] at the two types the package decodes. *)
Record Json := {
  UnmarshalExecutionResult : string -> result ExecutionResult;
  UnmarshalManifest : string -> result Manifest
}.

Record ExternalExecutor := { binaryPath : string; languages : list string }.

Definition NewExternalExecutor (binaryPath : string) (languages : list string)
    : ExternalExecutor :=
  {| binaryPath := binaryPath; languages := languages |}.

Definition Execute (w : World) (j : Json) (e : ExternalExecutor) (ctx : Context)
    (language code : string) : IO (result ExecutionResult) :=
  let* f := CombinedOutput w ctx [binaryPath e; "execute"; language; code] "" in
  match err f with
  | Some er => ret (Err ("failed to execute code: " +:+ Error er))
  | None =>
      match UnmarshalExecutionResult j (output f) with
      | Err msg => ret (Err ("failed to parse result: " +:+ msg))
      | Ok r => ret (Ok r)
      end
  end.

Definition ExecuteFile (w : World) (j : Json) (e : ExternalExecutor) (ctx : Context)
    (filePath : string) : IO (result ExecutionResult) :=
  let* f := CombinedOutput w ctx [binaryPath e; "execute-file"; filePath] "" in
  match err f with
  | Some er => ret (Err ("failed to execute file: " +:+ Error er))
  | None =>
      match UnmarshalExecutionResult j (output f) with
      | Err msg => ret (Err ("failed to parse result: " +:+ msg))
      | Ok r => ret (Ok r)
      end
  end.

Definition SupportedLanguages (e : ExternalExecutor) : list string := languages e.

Record Manager := { plugins : gmap string ExternalExecutor }.

Definition NewManager : Manager := {| plugins := ∅ |}.

(** [for _, lang := range manifest.Languages { m.plugins[lang] = executor }] *)
Definition register (executor : ExternalExecutor) (langs : list string)
    (m : Manager) : Manager :=
  {| plugins := foldl (fun acc lang => <[lang := executor]> acc) (plugins m) langs |}.

(** An error leaves the manager as it was. *)
Definition LoadPlugin (w : World) (j : Json) (m : Manager) (pluginDir : string)
    : result Manager :=
  let manifestPath := Join pluginDir "manifest.json" in
  match ReadFile w manifestPath with
  | Err msg => Err ("failed to read manifest: " +:+ msg)
  | Ok manifestData =>
      match UnmarshalManifest j manifestData with
      | Err msg => Err ("failed to parse manifest: " +:+ msg)
      | Ok manifest =>
          let found (binaryPath : string) : result Manager :=
            Ok (register (NewExternalExecutor binaryPath (Languages manifest))
                         (Languages manifest) m) in
          let binaryPath := Join pluginDir (Name manifest) in
          if Exists w binaryPath then found binaryPath
          else
            let binaryPath := Join pluginDir (Name manifest +:+ ".exe") in
            if Exists w binaryPath then found binaryPath
            else Err ("plugin executable not found: " +:+ Name manifest
                        +:+ " or " +:+ Name manifest +:+ ".exe")
      end
  end.

Fixpoint loadEntries (w : World) (j : Json) (dir : string)
    (entries : list DirEntry) (m : Manager) : IO Manager :=
  match entries with
  | [] => ret m
  | entry :: rest =>
      if os.IsDir entry then
        let pluginDir := Join dir (os.Name entry) in
        match LoadPlugin w j m pluginDir with
        | Err msg =>
            emit (EvPrint ("Warning: failed to load plugin " +:+ os.Name entry
                             +:+ ": " +:+ msg)) ;;;
            loadEntries w j dir rest m
        | Ok m' => loadEntries w j dir rest m'
        end
      else loadEntries w j dir rest m
  end.

Definition LoadPluginsFromDir (w : World) (j : Json) (m : Manager) (dir : string)
    : IO (result Manager) :=
  if negb (Exists w dir) then ret (Ok m)
  else
    match ReadDir w dir with
    | Err msg => ret (Err ("failed to read plugin directory: " +:+ msg))
    | Ok entries =>
        let* m' := loadEntries w j dir entries m in
        ret (Ok m')
    end.

Definition GetExecutor (m : Manager) (language : string) : option ExternalExecutor :=
  plugins m !! language.

(** The keys of the map, in one of the orders the iteration may take. *)
Definition Manager_SupportedLanguages (m : Manager) : list string :=
  (map_to_list (plugins m)).*1.

End plugin.

(** ** Package [cli]: executor resolution *)
Module cli.
Import os context exec sandbox gostrings.

(** The package-level flag variables. *)
Record Flags := {
  jsonOutput : bool;
  containerized : bool;
  pluginDir : string;
  timeout : Z;
  memoryLimit : Z
}.

Definition defaultFlags : Flags :=
  {| jsonOutput := false; containerized := false; pluginDir := "";
     timeout := 30 * Second; memoryLimit := 128 |}.

Record CompositeExecutor := {
  PluginManager : plugin.Manager;
  LocalExecutor : executor.LocalExecutor;
  DockerExecutor : container.DockerExecutor.t;
  UseContainer : bool
}.

(** The values [getExecutor] returns behind the [sandbox.Executor] interface. *)
Inductive Executor :=
| Local (e : executor.LocalExecutor)
| Docker (d : container.DockerExecutor.t)
| Composite (c : CompositeExecutor).

Definition getExecutor (w : World) (j : plugin.Json) (flags : Flags)
    : IO (result Executor) :=
  if negb (String.eqb (pluginDir flags) "") then
    let* loaded := plugin.LoadPluginsFromDir w j plugin.NewManager (pluginDir flags) in
    match loaded with
    | Err msg => ret (Err ("failed to load plugins: " +:+ msg))
    | Ok manager =>
        (if containerized flags
         then emit (EvPrint
           "Warning: Both --plugin-dir and --container flags are set. Using plugins.")
         else ret tt) ;;;
        ret (Ok (Composite
                   {| PluginManager := manager;
                      LocalExecutor := executor.NewLocalExecutor;
                      DockerExecutor := container.DockerExecutor.NewDockerExecutor;
                      UseContainer := containerized flags |}))
    end
  else if containerized flags then
    let dockerExec := container.DockerExecutor.NewDockerExecutor in
    ret (Ok (Docker
               {| container.DockerExecutor.Timeout := timeout flags;
                  container.DockerExecutor.MemoryLimit := memoryLimit flags;
                  container.DockerExecutor.CPUShares :=
                    container.DockerExecutor.CPUShares dockerExec;
                  container.DockerExecutor.NetworkAccess :=
                    container.DockerExecutor.NetworkAccess dockerExec;
                  container.DockerExecutor.ReadOnlyRoot :=
                    container.DockerExecutor.ReadOnlyRoot dockerExec |}))
  else
    ret (Ok (Local {| executor.Timeout := timeout flags;
                      executor.MemoryLimit := memoryLimit flags |})).

(** The Docker executor of the composite once the two assignments
    [c.DockerExecutor.Timeout = c.LocalExecutor.Timeout] and
    [c.DockerExecutor.MemoryLimit = c.LocalExecutor.MemoryLimit] are done. *)
Definition dockerWithLocalLimits (c : CompositeExecutor) : container.DockerExecutor.t :=
  let d := DockerExecutor c in
  {| container.DockerExecutor.Timeout := executor.Timeout (LocalExecutor c);
     container.DockerExecutor.MemoryLimit := executor.MemoryLimit (LocalExecutor c);
     container.DockerExecutor.CPUShares := container.DockerExecutor.CPUShares d;
     container.DockerExecutor.NetworkAccess := container.DockerExecutor.NetworkAccess d;
     container.DockerExecutor.ReadOnlyRoot := container.DockerExecutor.ReadOnlyRoot d |}.

Definition getLanguageFromFile (filePath : string) : string :=
  if String.eqb (Ext filePath) ".py" then "python"
  else if String.eqb (Ext filePath) ".go" then "go"
  else if String.eqb (Ext filePath) ".js" then "javascript"
  else if String.eqb (Ext filePath) ".rs" then "rust"
  else "unknown".

Definition Composite_Execute (w : World) (j : plugin.Json) (c : CompositeExecutor)
    (ctx : Context) (language code : string) : IO (result ExecutionResult) :=
  match plugin.GetExecutor (PluginManager c) language with
  | Some executor => plugin.Execute w j executor ctx language code
  | None =>
      if UseContainer c
      then container.DockerExecutor.Execute w (dockerWithLocalLimits c) ctx language code
      else executor.Execute w (LocalExecutor c) ctx language code
  end.

Definition Composite_ExecuteFile (w : World) (j : plugin.Json) (c : CompositeExecutor)
    (ctx : Context) (filePath : string) : IO (result ExecutionResult) :=
  let language := getLanguageFromFile filePath in
  match plugin.GetExecutor (PluginManager c) language with
  | Some executor => plugin.ExecuteFile w j executor ctx filePath
  | None =>
      if UseContainer c
      then container.DockerExecutor.ExecuteFile w (dockerWithLocalLimits c) ctx filePath
      else executor.ExecuteFile w (LocalExecutor c) ctx filePath
  end.

Definition Composite_SupportedLanguages (c : CompositeExecutor) : list string :=
  let pluginLanguages := plugin.Manager_SupportedLanguages (PluginManager c) in
  let defaultLanguages :=
    if UseContainer c then container.DockerExecutor.SupportedLanguages
    else executor.SupportedLanguages in
  pluginLanguages ++ defaultLanguages.

(** Dynamic dispatch of [exec.Execute] on the resolved executor. *)
Definition Execute (w : World) (j : plugin.Json) (ex : Executor) (ctx : Context)
    (language code : string) : IO (result ExecutionResult) :=
  match ex with
  | Local e => executor.Execute w e ctx language code
  | Docker d => container.DockerExecutor.Execute w d ctx language code
  | Composite c => Composite_Execute w j c ctx language code
  end.

Definition ExecuteFile (w : World) (j : plugin.Json) (ex : Executor) (ctx : Context)
    (filePath : string) : IO (result ExecutionResult) :=
  match ex with
  | Local e => executor.ExecuteFile w e ctx filePath
  | Docker d => container.DockerExecutor.ExecuteFile w d ctx filePath
  | Composite c => Composite_ExecuteFile w j c ctx filePath
  end.

(** *** The commands *)

(** How values are rendered as text: [%v] of a [time.Duration] and the JSON
    encoder at the two types the commands print. *)
Record Render := {
  DurationString : Z -> string;
  EncodeResult : ExecutionResult -> result string;
  EncodeLanguages : list string -> result string
}.

Definition SupportedLanguages (ex : Executor) : list string :=
  match ex with
  | Local e => executor.SupportedLanguages
  | Docker d => container.DockerExecutor.SupportedLanguages
  | Composite c => Composite_SupportedLanguages c
  end.

(** Each [EvPrint] is one call of [fmt.Printf] or of the encoder, with the
    line feed that ends its output left out. The value returned is the
    error, if any. *)
Definition printResult (rd : Render) (flags : Flags) (result : ExecutionResult)
    : IO (option string) :=
  if jsonOutput flags then
    match EncodeResult rd result with
    | Err msg => ret (Some msg)
    | Ok text => emit (EvPrint text) ;;; ret None
    end
  else
    emit (EvPrint ("Execution completed in " +:+ DurationString rd (Duration result))) ;;;
    emit (EvPrint ("Exit code: " +:+ itoa (ExitCode result))) ;;;
    (if negb (String.eqb (Stdout result) "")
     then emit (EvPrint ("Stdout:" +:+ String newline (Stdout result)))
     else ret tt) ;;;
    (if negb (String.eqb (Stderr result) "")
     then emit (EvPrint ("Stderr:" +:+ String newline (Stderr result)))
     else ret tt) ;;;
    ret None.

(** [forgeai run language code] *)
Definition runCmd (w : World) (j : plugin.Json) (rd : Render) (flags : Flags)
    (language code : string) : IO (option string) :=
  let* got := getExecutor w j flags in
  match got with
  | Err msg => ret (Some ("failed to get executor: " +:+ msg))
  | Ok exec =>
      let* r := Execute w j exec Background language code in
      match r with
      | Err msg => ret (Some ("failed to execute code: " +:+ msg))
      | Ok result => printResult rd flags result
      end
  end.

(** [forgeai exec file] *)
Definition execCmd (w : World) (j : plugin.Json) (rd : Render) (flags : Flags)
    (file : string) : IO (option string) :=
  let* got := getExecutor w j flags in
  match got with
  | Err msg => ret (Some ("failed to get executor: " +:+ msg))
  | Ok exec =>
      let* r := ExecuteFile w j exec Background file in
      match r with
      | Err msg => ret (Some ("failed to execute file: " +:+ msg))
      | Ok result => printResult rd flags result
      end
  end.

(** [forgeai lang list] *)
Definition langListCmd (w : World) (j : plugin.Json) (rd : Render) (flags : Flags)
    : IO (option string) :=
  let* got := getExecutor w j flags in
  match got with
  | Err msg => ret (Some ("failed to get executor: " +:+ msg))
  | Ok exec =>
      let languages := SupportedLanguages exec in
      if jsonOutput flags then
        match EncodeLanguages rd languages with
        | Err msg => ret (Some msg)
        | Ok text => emit (EvPrint text) ;;; ret None
        end
      else
        emit (EvPrint "Supported languages:") ;;;
        foldr (fun lang rest => emit (EvPrint ("  - " +:+ lang)) ;;; rest)
              (ret None) languages
  end.

End cli.

(** ** Package [api]: the job manager and the execute handlers *)
Module api.
Import os context sandbox.

Record Job := {
  ID : string;
  Status : string;
  Language : string;
  Code : string;
  FilePath : string;
  Timeout : Z;
  MemoryLimit : Z;
  NetworkAccess : bool;
  Result : option ExecutionResult;
  Error : string;
  CreatedAt : Z;
  StartedAt : Z;
  CompletedAt : Z
}.

Definition set_Status (v : string) (j : Job) : Job :=
  {| ID := ID j; Status := v; Language := Language j; Code := Code j;
     FilePath := FilePath j; Timeout := Timeout j; MemoryLimit := MemoryLimit j;
     NetworkAccess := NetworkAccess j; Result := Result j; Error := Error j;
     CreatedAt := CreatedAt j; StartedAt := StartedAt j; CompletedAt := CompletedAt j |}.

Definition set_StartedAt (v : Z) (j : Job) : Job :=
  {| ID := ID j; Status := Status j; Language := Language j; Code := Code j;
     FilePath := FilePath j; Timeout := Timeout j; MemoryLimit := MemoryLimit j;
     NetworkAccess := NetworkAccess j; Result := Result j; Error := Error j;
     CreatedAt := CreatedAt j; StartedAt := v; CompletedAt := CompletedAt j |}.

Definition set_CompletedAt (v : Z) (j : Job) : Job :=
  {| ID := ID j; Status := Status j; Language := Language j; Code := Code j;
     FilePath := FilePath j; Timeout := Timeout j; MemoryLimit := MemoryLimit j;
     NetworkAccess := NetworkAccess j; Result := Result j; Error := Error j;
     CreatedAt := CreatedAt j; StartedAt := StartedAt j; CompletedAt := v |}.

Definition set_Result (v : option ExecutionResult) (j : Job) : Job :=
  {| ID := ID j; Status := Status j; Language := Language j; Code := Code j;
     FilePath := FilePath j; Timeout := Timeout j; MemoryLimit := MemoryLimit j;
     NetworkAccess := NetworkAccess j; Result := v; Error := Error j;
     CreatedAt := CreatedAt j; StartedAt := StartedAt j; CompletedAt := CompletedAt j |}.

Definition set_Error (v : string) (j : Job) : Job :=
  {| ID := ID j; Status := Status j; Language := Language j; Code := Code j;
     FilePath := FilePath j; Timeout := Timeout j; MemoryLimit := MemoryLimit j;
     NetworkAccess := NetworkAccess j; Result := Result j; Error := v;
     CreatedAt := CreatedAt j; StartedAt := StartedAt j; CompletedAt := CompletedAt j |}.

(** The three assignments [job.Timeout = ...], [job.MemoryLimit = ...] and
    [job.NetworkAccess = ...] of the handlers. *)
Definition set_limits (timeout memoryLimit : Z) (networkAccess : bool) (j : Job) : Job :=
  {| ID := ID j; Status := Status j; Language := Language j; Code := Code j;
     FilePath := FilePath j; Timeout := timeout; MemoryLimit := memoryLimit;
     NetworkAccess := networkAccess; Result := Result j; Error := Error j;
     CreatedAt := CreatedAt j; StartedAt := StartedAt j; CompletedAt := CompletedAt j |}.

(** [jobs] is [map[string]*Job]: the [Job] objects live in [heap], a job
    pointer is an index into it, and the map holds pointers. The worker of
    a job keeps the pointer it was started with. *)
Record JobManager := {
  heap : list Job;
  jobs : gmap string nat
}.

Definition NewJobManager : JobManager := {| heap := []; jobs := ∅ |}.

Definition update (ptr : nat) (f : Job -> Job) (jm : JobManager) : JobManager :=
  {| heap := alter f ptr (heap jm); jobs := jobs jm |}.

(** [fmt.Sprintf("job-%d", time.Now().UnixNano())] *)
Definition generateJobID (nanos : Z) : string := "job-" +:+ itoa nanos.

Definition allocate (job : Job) (jm : JobManager) : JobManager * nat :=
  ({| heap := heap jm ++ [job]; jobs := <[ID job := length (heap jm)]> (jobs jm) |},
   length (heap jm)).

Definition CreateJob (jm : JobManager) (language code : string) (nanos now : Z)
    : JobManager * nat :=
  allocate {| ID := generateJobID nanos; Status := "pending"; Language := language;
              Code := code; FilePath := ""; Timeout := 30; MemoryLimit := 128;
              NetworkAccess := false; Result := None; Error := "";
              CreatedAt := now; StartedAt := 0; CompletedAt := 0 |} jm.

Definition CreateFileJob (jm : JobManager) (filePath : string) (nanos now : Z)
    : JobManager * nat :=
  allocate {| ID := generateJobID nanos; Status := "pending"; Language := "";
              Code := ""; FilePath := filePath; Timeout := 30; MemoryLimit := 128;
              NetworkAccess := false; Result := None; Error := "";
              CreatedAt := now; StartedAt := 0; CompletedAt := 0 |} jm.

Definition GetJob (jm : JobManager) (id : string) : option nat := jobs jm !! id.

(** The body of the loop of [ListJobs] over the map entries in the order
    [entries]; Go leaves the iteration order of a map unspecified. *)
Fixpoint ListJobs_over (hp : list Job) (entries : list (string * nat))
    (status language : string) : list nat :=
  match entries with
  | [] => []
  | (_, ptr) :: rest =>
      match hp !! ptr with
      | Some job =>
          if (String.eqb status "" || String.eqb (Status job) status)
             && (String.eqb language "" || String.eqb (Language job) language)
          then ptr :: ListJobs_over hp rest status language
          else ListJobs_over hp rest status language
      | None => ListJobs_over hp rest status language
      end
  end.

Definition ListJobs (jm : JobManager) (status language : string) : list nat :=
  ListJobs_over (heap jm) (map_to_list (jobs jm)) status language.

Definition CancelJob (jm : JobManager) (id : string) (now : Z) : JobManager * bool :=
  match jobs jm !! id with
  | None => (jm, false)
  | Some ptr =>
      match heap jm !! ptr with
      | None => (jm, false)
      | Some job =>
          if String.eqb (Status job) "pending" || String.eqb (Status job) "running"
          then (update ptr (fun j => set_CompletedAt now (set_Status "cancelled" j)) jm,
                true)
          else (jm, false)
      end
  end.

(** [ExecuteJob] holds the lock twice; between the two critical sections
    the executor runs and other requests may be served. *)
Definition ExecuteJob_begin (jm : JobManager) (job : nat) (now : Z) : JobManager :=
  update job (fun j => set_StartedAt now (set_Status "running" j)) jm.

Definition ExecuteJob_run (w : World) (job : Job) : IO (result ExecutionResult) :=
  let exec := {| executor.Timeout := wrap64 (Timeout job * Second);
                 executor.MemoryLimit := MemoryLimit job |} in
  if negb (String.eqb (Code job) "")
  then executor.Execute w exec Background (Language job) (Code job)
  else if negb (String.eqb (FilePath job) "")
  then executor.ExecuteFile w exec Background (FilePath job)
  else ret (Err "invalid job: no code or file path").

Definition ExecuteJob_end (jm : JobManager) (job : nat)
    (outcome : result ExecutionResult) (now : Z) : JobManager :=
  update job
    (fun j =>
       let j := set_CompletedAt now j in
       match outcome with
       | Err msg => set_Error msg (set_Status "failed" j)
       | Ok r => set_Result (Some r) (set_Status "completed" j)
       end) jm.

(** *** The execute handlers *)

(** A request body that is well-formed JSON with fields of the right JSON
    types; an absent field is [None]. *)
Record ExecuteBody := {
  b_language : option string;
  b_code : option string;
  b_file_path : option string;
  b_timeout : option Z;
  b_memory_limit : option Z;
  b_network_access : option bool
}.

Record ExecuteRequest := {
  req_Language : string;
  req_Code : string;
  req_FilePath : string;
  req_Timeout : Z;
  req_MemoryLimit : Z;
  req_NetworkAccess : bool
}.

Definition fits_int (z : Z) : bool := (min_int64 <=? z) && (z <=? max_int64).

(** [c.ShouldBindJSON(&req)]: absent fields keep the zero value, a number
    that does not fit [int] is an error, and a field bound as required must
    not be left at its zero value. *)
Definition ShouldBindJSON (need_code need_file : bool) (b : ExecuteBody)
    : result ExecuteRequest :=
  if negb (fits_int (default 0 (b_timeout b)))
  then Err "json: cannot unmarshal number into Go struct field .timeout of type int"
  else if negb (fits_int (default 0 (b_memory_limit b)))
  then Err "json: cannot unmarshal number into Go struct field .memory_limit of type int"
  else
    let req := {| req_Language := default "" (b_language b);
                  req_Code := default "" (b_code b);
                  req_FilePath := default "" (b_file_path b);
                  req_Timeout := default 0 (b_timeout b);
                  req_MemoryLimit := default 0 (b_memory_limit b);
                  req_NetworkAccess := default false (b_network_access b) |} in
    if need_code && String.eqb (req_Language req) ""
    then Err "Field validation for 'Language' failed on the 'required' tag"
    else if need_code && String.eqb (req_Code req) ""
    then Err "Field validation for 'Code' failed on the 'required' tag"
    else if need_file && String.eqb (req_FilePath req) ""
    then Err "Field validation for 'FilePath' failed on the 'required' tag"
    else Ok req.

(** The 201 answer of the execute handlers carries the id of the job and
    the status that its record [job] holds when the answer is written. *)
Inductive Response :=
| Created (job_id : string) (job : nat)
| BadRequest (error : string)
| OK (job_id status message : string)
| NotFound (job_id status message : string).

(** What a handler leaves behind: the response, the job manager, and the
    job handed to [go s.jobManager.ExecuteJob(job)], if any. *)
Record Handled := {
  response : Response;
  manager : JobManager;
  dispatched : option nat
}.

(** [nanos] is the clock reading that names the job and [now] the one that
    stamps it. The handler writes its answer after it has started the
    worker, and reads the status for it from the record without the lock:
    see [answered]. *)
Definition handleExecuteCode (jm : JobManager) (body : ExecuteBody) (nanos now : Z)
    : Handled :=
  match ShouldBindJSON true false body with
  | Err msg => {| response := BadRequest msg; manager := jm; dispatched := None |}
  | Ok req =>
      let timeout := if req_Timeout req =? 0 then 30 else req_Timeout req in
      let memoryLimit := if req_MemoryLimit req =? 0 then 128 else req_MemoryLimit req in
      let '(jm, job) := CreateJob jm (req_Language req) (req_Code req) nanos now in
      let jm := update job (set_limits timeout memoryLimit (req_NetworkAccess req)) jm in
      {| response := Created (generateJobID nanos) job;
         manager := jm;
         dispatched := Some job |}
  end.

Definition handleExecuteFile (jm : JobManager) (body : ExecuteBody) (nanos now : Z)
    : Handled :=
  match ShouldBindJSON false true body with
  | Err msg => {| response := BadRequest msg; manager := jm; dispatched := None |}
  | Ok req =>
      let timeout := if req_Timeout req =? 0 then 30 else req_Timeout req in
      let memoryLimit := if req_MemoryLimit req =? 0 then 128 else req_MemoryLimit req in
      let '(jm, job) := CreateFileJob jm (req_FilePath req) nanos now in
      let jm := update job (set_limits timeout memoryLimit (req_NetworkAccess req)) jm in
      {| response := Created (generateJobID nanos) job;
         manager := jm;
         dispatched := Some job |}
  end.


Definition handleCancelJob (jm : JobManager) (jobID : string) (now : Z)
    : Response * JobManager :=
  let '(jm', cancelled) := CancelJob jm jobID now in
  if cancelled
  then (OK jobID "cancelled" "Job cancelled successfully", jm')
  else (NotFound jobID "error" "Job not found or cannot be cancelled", jm').

(** *** Interleavings: the atomic actions that touch a job record once it
    has been created. *)
Inductive Action :=
| Cancel (id : string) (now : Z)
| WorkerBegin (job : nat) (now : Z)
| WorkerEnd (job : nat) (outcome : result ExecutionResult) (now : Z).

Definition step (jm : JobManager) (a : Action) : JobManager :=
  match a with
  | Cancel id now => fst (CancelJob jm id now)
  | WorkerBegin job now => ExecuteJob_begin jm job now
  | WorkerEnd job outcome now => ExecuteJob_end jm job outcome now
  end.

Definition status_of (jm : JobManager) (job : nat) : string :=
  default "" (Status <$> heap jm !! job).

(** The status of [job] at the start and after each action of a schedule. *)
Fixpoint statuses (jm : JobManager) (job : nat) (schedule : list Action)
    : list string :=
  status_of jm job ::
  match schedule with
  | [] => []
  | a :: rest => statuses (step jm a) job rest
  end.

End api.

(** ** Package [performance]: the metrics of one measurement *)
Module performance.

Record PerformanceMetrics := {
  ExecutorName : string;
  TestCaseName : string;
  TotalExecutions : Z;
  SuccessfulExecutions : Z;
  FailedExecutions : Z;
  TotalTime : Z;
  AverageTime : Z;
  MinTime : Z;
  MaxTime : Z;
  SuccessRate : float
}.

Record PerformanceTest := { Name : string; Code : string; Language : string }.

(** What one call of [executor.Execute] contributes: the time it took and
    whether it returned an error. *)
Record Run := { execDuration : Z; failed : bool }.

Definition numTests : Z := 10.

(** The conversion [float64(n)] of an [int], exact below 2^53. *)
Definition float64 (n : Z) : float :=
  if n <? 0 then PrimFloat.opp (PrimFloat.of_uint63 (Uint63.of_Z (- n)))
  else PrimFloat.of_uint63 (Uint63.of_Z n).

Definition count (r : Run) (m : PerformanceMetrics) : PerformanceMetrics :=
  {| ExecutorName := ExecutorName m; TestCaseName := TestCaseName m;
     TotalExecutions := TotalExecutions m;
     SuccessfulExecutions :=
       if failed r then SuccessfulExecutions m else wrap64 (SuccessfulExecutions m + 1);
     FailedExecutions :=
       if failed r then wrap64 (FailedExecutions m + 1) else FailedExecutions m;
     TotalTime := TotalTime m; AverageTime := AverageTime m;
     MinTime := MinTime m; MaxTime := MaxTime m; SuccessRate := SuccessRate m |}.

(** The critical section of one timed goroutine. *)
Definition record (m : PerformanceMetrics) (r : Run) : PerformanceMetrics :=
  let m := count r m in
  {| ExecutorName := ExecutorName m; TestCaseName := TestCaseName m;
     TotalExecutions := TotalExecutions m;
     SuccessfulExecutions := SuccessfulExecutions m;
     FailedExecutions := FailedExecutions m;
     TotalTime := wrap64 (TotalTime m + execDuration r);
     AverageTime := AverageTime m;
     MinTime := if execDuration r <? MinTime m then execDuration r else MinTime m;
     MaxTime := if MaxTime m <? execDuration r then execDuration r else MaxTime m;
     SuccessRate := SuccessRate m |}.

(** [warmup] are the warm-up calls and [timed] the timed calls in the order
    in which their goroutines took the mutex; the source makes three of
    the former and [numTests] of the latter. *)
Definition runPerformanceTest (executorName : string) (test : PerformanceTest)
    (warmup timed : list Run) : PerformanceMetrics :=
  let metrics :=
    {| ExecutorName := executorName; TestCaseName := Name test;
       TotalExecutions := 0; SuccessfulExecutions := 0; FailedExecutions := 0;
       TotalTime := 0; AverageTime := 0;
       MinTime := Hour; MaxTime := 0; SuccessRate := PrimFloat.zero |} in
  let metrics := foldl (fun m r => count r m) metrics warmup in
  (* reset counters for the actual test *)
  let metrics :=
    {| ExecutorName := ExecutorName metrics; TestCaseName := TestCaseName metrics;
       TotalExecutions := TotalExecutions metrics;
       SuccessfulExecutions := 0; FailedExecutions := 0; TotalTime := 0;
       AverageTime := AverageTime metrics;
       MinTime := MinTime metrics; MaxTime := MaxTime metrics;
       SuccessRate := SuccessRate metrics |} in
  let metrics := foldl record metrics timed in
  {| ExecutorName := ExecutorName metrics; TestCaseName := TestCaseName metrics;
     TotalExecutions := numTests;
     SuccessfulExecutions := SuccessfulExecutions metrics;
     FailedExecutions := FailedExecutions metrics;
     TotalTime := TotalTime metrics;
     AverageTime := Z.quot (TotalTime metrics) numTests;
     MinTime := MinTime metrics; MaxTime := MaxTime metrics;
     SuccessRate :=
       PrimFloat.mul
         (PrimFloat.div (float64 (SuccessfulExecutions metrics)) (float64 numTests))
         (float64 100) |}.

End performance.

(** ** Package [registry]: the registry client and local installation *)
Module registry.
Import gostrings.

Record PluginInfo := {
  Name : string;
  Version : string;
  Description : string;
  Author : string;
  License : string;
  Homepage : string;
  Repository : string;
  Languages : list string;
  DownloadURL : string;
  FileHash : string;
  Signature : string
}.

(** An HTTP response: the status, the bytes of the body that could be read,
    and the error that ended the reading, if it did not get to the end. *)
Record Response := {
  StatusCode : Z;
  Body : string;
  ReadErr : option string
}.

(** A regular file: its bytes and its permission bits. *)
Record File := { data : string; perm : Z }.

(** The part of the file system that installation touches: the regular
    files and the directories, each under its absolute, cleaned path.
    Symbolic and hard links are not modelled. *)
Record Disk := {
  files : gmap string File;
  dirs : gset string
}.

Inductive DiskOp :=
| OpMkdirAll (path : string)
| OpCreate (path : string)
| OpWrite (path : string)
| OpChmod (path : string)
| OpWriteFile (path : string)
| OpRemoveAll (path : string).

(** What answers the calls of one run: the registry behind [HTTPClient.Get]
    ([Err] when no response arrives, the 30 s timeout of the client
    included), the file-system calls that fail, for whatever reason (a
    missing parent, a directory in the way, permissions, a full disk), and
    with what error, what a failed call has done to the disk before it
    failed, the process umask, the working directory of the process, an
    absolute path, and [encoding/json] at the types the package uses. *)
Record Env := {
  Get : string -> result Response;
  fault : DiskOp -> option string;
  residue : DiskOp -> Disk -> Disk;
  umask : Z;
  cwd : string;
  UnmarshalPluginInfo : string -> result PluginInfo;
  UnmarshalPluginInfos : string -> result (list PluginInfo);
  MarshalManifest : plugin.Manifest -> result string
}.

Record RegistryClient := { BaseURL : string }.

Definition NewRegistryClient (baseURL : string) : RegistryClient :=
  {| BaseURL := baseURL |}.

Definition ListPlugins (env : Env) (rc : RegistryClient) : result (list PluginInfo) :=
  let url := BaseURL rc +:+ "/v1/plugins" in
  match Get env url with
  | Err msg => Err ("failed to fetch plugins: " +:+ msg)
  | Ok resp =>
      if negb (StatusCode resp =? 200)
      then Err ("registry returned status " +:+ itoa (StatusCode resp))
      else
        match ReadErr resp with
        | Some msg => Err ("failed to read response: " +:+ msg)
        | None =>
            match UnmarshalPluginInfos env (Body resp) with
            | Err msg => Err ("failed to parse response: " +:+ msg)
            | Ok plugins => Ok plugins
            end
        end
  end.

Definition GetPlugin (env : Env) (rc : RegistryClient) (name : string)
    : result PluginInfo :=
  let url := BaseURL rc +:+ "/v1/plugins/" +:+ name in
  match Get env url with
  | Err msg => Err ("failed to fetch plugin: " +:+ msg)
  | Ok resp =>
      if negb (StatusCode resp =? 200)
      then Err ("registry returned status " +:+ itoa (StatusCode resp))
      else
        match ReadErr resp with
        | Some msg => Err ("failed to read response: " +:+ msg)
        | None =>
            match UnmarshalPluginInfo env (Body resp) with
            | Err msg => Err ("failed to parse response: " +:+ msg)
            | Ok plugin => Ok plugin
            end
        end
  end.

(** *** The file-system calls *)

(** The absolute path under which the operating system looks up [path]: a
    relative path starts at the working directory. *)
Definition resolve (env : Env) (path : string) : string :=
  if HasPrefix path "/" then Clean path else Clean (cwd env +:+ "/" +:+ path).

(** The directories that [os.MkdirAll] makes sure of on the way to the
    absolute path [rest]: every prefix that ends before a separator.
    [seen] is the part of the path already walked. *)
Fixpoint parents (seen rest : string) : list string :=
  match rest with
  | EmptyString => []
  | String c rest' =>
      if Ascii.eqb c "/"
      then (if String.eqb seen "" then [] else [seen])
             ++ parents (seen +:+ "/") rest'
      else parents (seen +:+ String c "") rest'
  end.

Definition MkdirAll (env : Env) (path : string) (disk : Disk) : Disk :=
  {| files := files disk;
     dirs := dirs disk ∪ list_to_set (parents "" (resolve env path)
                                        ++ [resolve env path]) |}.

(** The permission bits of a file that is created with [requested]. *)
Definition masked (env : Env) (requested : Z) : Z :=
  Z.land requested (Z.lnot (umask env)).

(** [os.Create] and [os.WriteFile] truncate a file that exists and keep its
    permission bits. *)
Definition store (env : Env) (path content : string) (requested : Z) (disk : Disk)
    : Disk :=
  {| files := <[resolve env path :=
                  {| data := content;
                     perm := match files disk !! resolve env path with
                             | Some f => perm f
                             | None => masked env requested
                             end |}]> (files disk);
     dirs := dirs disk |}.

Definition Chmod (env : Env) (path : string) (mode : Z) (disk : Disk) : Disk :=
  {| files := alter (fun f => {| data := data f; perm := mode |})
                    (resolve env path) (files disk);
     dirs := dirs disk |}.

(** The absolute path [path] is the directory [dir] or lies below it. *)
Definition under (dir path : string) : bool :=
  String.eqb path dir
  || HasPrefix path (if String.eqb dir "/" then "/" else dir +:+ "/").

(** [os.RemoveAll]: the empty path is left alone without an error. *)
Definition RemoveAll (env : Env) (path : string) (disk : Disk) : Disk :=
  if String.eqb path "" then disk
  else
    {| files := filter (fun '(p, _) => under (resolve env path) p = false)
                       (files disk);
       dirs := filter (fun p => under (resolve env path) p = false) (dirs disk) |}.

(** The final element of the path is a dot. *)
Definition endsWithDot (path : string) : bool :=
  bool_decide (last (elements path) = Some ".").

(** The calls that fail whatever the disk holds: the empty path names
    nothing, and [os.RemoveAll] refuses a path that ends in a dot. *)
Definition refused (op : DiskOp) : option string :=
  match op with
  | OpMkdirAll path =>
      if String.eqb path "" then Some "mkdir : no such file or directory" else None
  | OpCreate path | OpWriteFile path =>
      if String.eqb path "" then Some "open : no such file or directory" else None
  | OpChmod path =>
      if String.eqb path "" then Some "chmod : no such file or directory" else None
  | OpWrite _ => None
  | OpRemoveAll path =>
      if endsWithDot path then Some ("RemoveAll " +:+ path +:+ ": invalid argument")
      else None
  end.

(** A file-system call: the error it returns, if any, and the disk after. *)
Definition attempt (env : Env) (op : DiskOp) (effect : Disk -> Disk) (disk : Disk)
    : option string * Disk :=
  match refused op with
  | Some msg => (Some msg, disk)
  | None =>
      match fault env op with
      | Some msg => (Some msg, residue env op disk)
      | None => (None, effect disk)
      end
  end.

(** *** Downloading *)

(** [DownloadPlugin] on a Unix host, where the name of the binary is the
    name in the metadata. It returns the error, if any, and the disk. *)
Definition DownloadPlugin (env : Env) (rc : RegistryClient)
    (name version destDir : string) (disk : Disk) : option string * Disk :=
  match GetPlugin env rc name with
  | Err msg => (Some ("failed to get plugin info: " +:+ msg), disk)
  | Ok pluginInfo =>
  let pluginDir := Join destDir name in
  match attempt env (OpMkdirAll pluginDir) (MkdirAll env pluginDir) disk with
  | (Some msg, disk) => (Some ("failed to create plugin directory: " +:+ msg), disk)
  | (None, disk) =>
  let binaryURL :=
    if String.eqb (DownloadURL pluginInfo) ""
    then BaseURL rc +:+ "/v1/plugins/" +:+ name +:+ "/versions/" +:+ version
           +:+ "/download"
    else DownloadURL pluginInfo in
  match Get env binaryURL with
  | Err msg => (Some ("failed to download plugin binary: " +:+ msg), disk)
  | Ok resp =>
  if negb (StatusCode resp =? 200)
  then (Some ("download failed with status " +:+ itoa (StatusCode resp)), disk)
  else
  let binaryName := Name pluginInfo in
  let binaryPath := Join pluginDir binaryName in
  match attempt env (OpCreate binaryPath) (store env binaryPath "" 438) disk with
  | (Some msg, disk) => (Some ("failed to create binary file: " +:+ msg), disk)
  | (None, disk) =>
  match attempt env (OpWrite binaryPath) (store env binaryPath (Body resp) 438) disk with
  | (Some msg, disk) => (Some ("failed to save binary: " +:+ msg), disk)
  | (None, disk) =>
  match ReadErr resp with
  | Some msg => (Some ("failed to save binary: " +:+ msg), disk)
  | None =>
  match attempt env (OpChmod binaryPath) (Chmod env binaryPath 493) disk with
  | (Some msg, disk) =>
      (Some ("failed to set executable permissions: " +:+ msg), disk)
  | (None, disk) =>
  let manifest := {| plugin.Name := Name pluginInfo;
                     plugin.Languages := Languages pluginInfo |} in
  match MarshalManifest env manifest with
  | Err msg => (Some ("failed to create manifest: " +:+ msg), disk)
  | Ok manifestData =>
  let manifestPath := Join pluginDir "manifest.json" in
  match attempt env (OpWriteFile manifestPath)
          (store env manifestPath manifestData 420) disk with
  | (Some msg, disk) => (Some ("failed to write manifest: " +:+ msg), disk)
  | (None, disk) => (None, disk)
  end end end end end end end end end.

(** *** The local plugin manager *)

Record PluginManager := {
  LocalDir : string;
  Registry : RegistryClient;
  Manager : plugin.Manager
}.

Definition NewPluginManager (localDir registryURL : string) : PluginManager :=
  {| LocalDir := localDir; Registry := NewRegistryClient registryURL;
     Manager := plugin.NewManager |}.

Definition InstallPlugin (env : Env) (pm : PluginManager) (name version : string)
    (disk : Disk) : option string * Disk :=
  DownloadPlugin env (Registry pm) name version (LocalDir pm) disk.

Definition ListRegistryPlugins (env : Env) (pm : PluginManager)
    : result (list PluginInfo) :=
  ListPlugins env (Registry pm).

Definition UpdatePlugin (env : Env) (pm : PluginManager) (name : string)
    (disk : Disk) : option string * Disk :=
  InstallPlugin env pm name "latest" disk.

Definition RemovePlugin (env : Env) (pm : PluginManager) (name : string)
    (disk : Disk) : option string * Disk :=
  let pluginDir := Join (LocalDir pm) name in
  attempt env (OpRemoveAll pluginDir) (RemoveAll env pluginDir) disk.

End registry.

(** ** The launcher of the security harness *)
Module security_main.
Import os security.



End security_main.

(** * Example worlds and inputs *)
Module examples.
Import os sandbox.

(** A child that prints [out] at once and exits with [status] after [t] ns. *)
Definition quick (out : string) (status t : Z) : Process :=
  {| start_err := None; exit_at := Some (t, status);
     written := fun now => if now <? t then "" else out;
     lingering := fun _ => Released |}.

(** A child that never exits and never prints. *)
Definition spinning : Process :=
  {| start_err := None; exit_at := None; written := fun _ => "";
     lingering := fun _ => Released |}.

Definition missing (msg : string) : Process :=
  {| start_err := Some msg; exit_at := None; written := fun _ => "";
     lingering := fun _ => Released |}.

(** [go run] on a program that loops: it never exits, and when it is killed
    the program that it has compiled and started goes on, holding the
    stdout and stderr it has inherited. *)
Definition orphaning : Process :=
  {| start_err := None; exit_at := None; written := fun _ => "";
     lingering := fun kill => match kill with
                              | Some _ => HeldForEver
                              | None => Released
                              end |}.

(** A plugin that prints [out], starts a process that keeps its stdout, and
    exits with [status] after [t] ns. *)
Definition daemonizing (out : string) (status t : Z) : Process :=
  {| start_err := None; exit_at := Some (t, status);
     written := fun now => if now <? t then "" else out;
     lingering := fun _ => HeldForEver |}.

(** A host without Docker where every interpreter spins for ever. *)
Definition busy_world : World :=
  {| MkdirTemp := fun pattern => Ok "/tmp/forgeai-1";
     WriteFile := fun _ _ => None;
     ReadFile := fun _ => Err "no such file or directory";
     Exists := fun _ => false;
     ReadDir := fun _ => Err "no such file or directory";
     Command := fun argv _ =>
       match argv with
       | "docker" :: _ => missing "exec: docker: executable file not found in $PATH"
       | _ => spinning
       end |}.

(** A host where every command spins for ever. *)
Definition spin_world : World :=
  {| MkdirTemp := fun pattern => Ok "/tmp/forgeai-2";
     WriteFile := fun _ _ => None;
     ReadFile := fun _ => Err "no such file or directory";
     Exists := fun _ => false;
     ReadDir := fun _ => Err "no such file or directory";
     Command := fun _ _ => spinning |}.

(** A host on which [go run] orphans the program it runs and every other
    command spins for ever. *)
Definition go_world : World :=
  {| MkdirTemp := fun pattern => Ok "/tmp/forgeai-7";
     WriteFile := fun _ _ => None;
     ReadFile := fun _ => Err "no such file or directory";
     Exists := fun _ => false;
     ReadDir := fun _ => Err "no such file or directory";
     Command := fun argv _ =>
       match argv with
       | "go" :: _ => orphaning
       | _ => spinning
       end |}.

(** A Go program that loops. *)
Definition go_loop : string := "package main; func main() { for {} }".

(** A host on which no temporary directory can be created. *)
Definition full_disk_world : World :=
  {| MkdirTemp := fun pattern => Err "no space left on device";
     WriteFile := fun _ _ => Some "no space left on device";
     ReadFile := fun _ => Err "no such file or directory";
     Exists := fun _ => false;
     ReadDir := fun _ => Err "no such file or directory";
     Command := fun _ _ => missing "fork/exec: resource temporarily unavailable" |}.

(** A containment case whose expected output ends with the line feed that
    Python's [print] appends, and the result of a run that printed it. *)
Definition newline_case : security.TestCase :=
  {| security.Name := "File System Access - Sensitive File";
     security.Code := "print('Access denied')";
     security.Language := "python";
     security.Description := "";
     security.Category := "File System Attacks";
     security.ExpectedResult :=
       {| security.ShouldBeContained := true; security.ExpectedExitCode := 0;
          security.ExpectedOutput := "Access denied" +:+ security.lf |} |}.

Definition valid_case : security.TestCase :=
  {| security.Name := "Valid Code Execution";
     security.Code := "print('Hello, World!')";
     security.Language := "python";
     security.Description := "Tests valid code execution";
     security.Category := "Valid Execution";
     security.ExpectedResult :=
       {| security.ShouldBeContained := false; security.ExpectedExitCode := 0;
          security.ExpectedOutput := "Hello, World!" |} |}.

Definition newline_result : ExecutionResult :=
  {| Stdout := "Access denied" +:+ security.lf; Stderr := "";
     ExitCode := 0; Duration := 20 * Millisecond |}.

(** The double-quote character. *)
Definition dq : string := String (ascii_of_nat 34) EmptyString.

Definition field (name value : string) : string :=
  dq +:+ name +:+ dq +:+ ":" +:+ value.

Definition hello_json : string :=
  "{" +:+ field "Stdout" (dq +:+ "Hello, World!" +:+ dq) +:+ ","
      +:+ field "Stderr" (dq +:+ dq) +:+ ","
      +:+ field "ExitCode" "0" +:+ ","
      +:+ field "Duration" "1000" +:+ "}".

Definition hello_result : ExecutionResult :=
  {| Stdout := "Hello, World!"; Stderr := ""; ExitCode := 0; Duration := 1000 |}.

Definition hello_manifest_json : string :=
  "{" +:+ field "name" (dq +:+ "hello-plugin" +:+ dq) +:+ ","
      +:+ field "languages" ("[" +:+ dq +:+ "hello" +:+ dq +:+ ","
                              +:+ dq +:+ "python" +:+ dq +:+ "]") +:+ "}".

(** A decoder that knows the two documents above and rejects the rest. *)
Definition toy_json : plugin.Json :=
  {| plugin.UnmarshalExecutionResult := fun out =>
       if String.eqb out hello_json then Ok hello_result
       else Err "invalid character 'x' looking for beginning of value";
     plugin.UnmarshalManifest := fun data =>
       if String.eqb data hello_manifest_json
       then Ok {| plugin.Name := "hello-plugin";
                  plugin.Languages := ["hello"; "python"] |}
       else Err "unexpected end of JSON input" |}.

Definition hello_binary : string := "/plugins/hello-plugin/hello-plugin".

Definition hello_executor : plugin.ExternalExecutor :=
  plugin.NewExternalExecutor hello_binary ["hello"; "python"].

(** A host with one plugin directory, [/plugins/hello-plugin], whose binary
    prints [hello_json] and exits with [status] after 5 ms. It claims the
    languages hello and python. Any other command spins. *)
Definition plugin_world (status : Z) : World :=
  {| MkdirTemp := fun pattern => Ok "/tmp/forgeai-3";
     WriteFile := fun _ _ => None;
     ReadFile := fun path =>
       if String.eqb path "/plugins/hello-plugin/manifest.json"
       then Ok hello_manifest_json
       else Err "no such file or directory";
     Exists := fun path =>
       String.eqb path "/plugins" || String.eqb path hello_binary;
     ReadDir := fun path =>
       if String.eqb path "/plugins"
       then Ok [ {| os.Name := "README.md"; os.IsDir := false |};
                 {| os.Name := "broken-plugin"; os.IsDir := true |};
                 {| os.Name := "hello-plugin"; os.IsDir := true |} ]
       else Err "no such file or directory";
     Command := fun argv _ =>
       match argv with
       | bin :: _ =>
           if String.eqb bin hello_binary
           then quick hello_json status (5 * Millisecond)
           else spinning
       | [] => missing "exec: no command"
       end |}.

(** The host of [plugin_world 3], but the plugin's binary leaves a process
    behind that keeps its stdout. *)
Definition daemon_world : World :=
  {| MkdirTemp := MkdirTemp (plugin_world 3);
     WriteFile := WriteFile (plugin_world 3);
     ReadFile := ReadFile (plugin_world 3);
     Exists := Exists (plugin_world 3);
     ReadDir := ReadDir (plugin_world 3);
     Command := fun argv _ =>
       match argv with
       | bin :: _ =>
           if String.eqb bin hello_binary
           then daemonizing hello_json 3 (5 * Millisecond)
           else spinning
       | [] => missing "exec: no command"
       end |}.

(** [forgeai --plugin-dir /plugins --container ...] *)
Definition plugin_flags : cli.Flags :=
  {| cli.jsonOutput := false; cli.containerized := true; cli.pluginDir := "/plugins";
     cli.timeout := 30 * Second; cli.memoryLimit := 128 |}.


(** Request bodies of [POST /v1/execute]. *)
Definition body (language code : string) (timeout memory_limit : option Z)
    : api.ExecuteBody :=
  {| api.b_language := Some language; api.b_code := Some code;
     api.b_file_path := None; api.b_timeout := timeout;
     api.b_memory_limit := memory_limit; api.b_network_access := None |}.

Definition print_result : ExecutionResult :=
  {| Stdout := "1" +:+ security.lf; Stderr := ""; ExitCode := 0;
     Duration := 20 * Millisecond |}.

(** A server that has taken three requests: a python job that completed,
    a go job that failed, and a python job still pending. *)
Definition three_jobs : api.JobManager :=
  let h1 := api.handleExecuteCode api.NewJobManager
              (body "python" "print(1)" None None) 1000 1000 in
  let jm := api.step (api.manager h1) (api.WorkerBegin 0 1001) in
  let jm := api.step jm (api.WorkerEnd 0 (Ok print_result) 1002) in
  let h2 := api.handleExecuteCode jm (body "go" "package main" (Some 5) None)
              2000 2000 in
  let jm := api.step (api.manager h2) (api.WorkerBegin 1 2001) in
  let jm := api.step jm (api.WorkerEnd 1 (Err "unsupported language: unknown") 2002) in
  let h3 := api.handleExecuteCode jm (body "python" "print(2)" None (Some 64))
              3000 3000 in
  api.manager h3.

(** One measurement: three warm-up calls, then ten timed calls of which
    three returned an error. *)
Definition run (ms : Z) (failed : bool) : performance.Run :=
  {| performance.execDuration := ms * Millisecond; performance.failed := failed |}.

Definition simple_print : performance.PerformanceTest :=
  {| performance.Name := "Simple Print";
     performance.Code := "print('Hello, World!')";
     performance.Language := "python" |}.

Definition three_warmups : list performance.Run :=
  [run 35 false; run 22 true; run 21 false].

Definition ten_runs : list performance.Run :=
  [run 21 false; run 19 false; run 25 true; run 18 false; run 30 false;
   run 22 true; run 20 false; run 17 false; run 24 true; run 23 false].

End examples.

(** * The notions in which the properties are stated *)

(** ** Byte strings *)
Module gostrings_spec.
Import gostrings.

(** [sub] occurs in [s]. *)
Definition occurs_in (sub s : string) : Prop :=
  exists pre post, s = pre +:+ sub +:+ post.

(** What [clean_elements] keeps: elements without separator that are
    neither empty nor a dot. *)
Definition kept_element (e : string) : Prop :=
  elements e = [e] /\ e <> "" /\ e <> ".".

(** The stack that [Clean] keeps of a path, first element first. *)
Definition cleaned (path : string) : list string :=
  rev (clean_elements (HasPrefix path "/") [] (elements path)).

(** The path of an entry [name] of the directory [dir]. *)
Definition child (dir name : string) : string :=
  if String.eqb dir "/" then "/" +:+ name else dir +:+ "/" +:+ name.

(** A single path element that names a file or a directory: it has no
    separator, is not empty, and is neither a dot nor a double dot. *)
Definition plain (name : string) : Prop :=
  elements name = [name] /\ name <> "" /\ name <> "." /\ name <> "..".

End gostrings_spec.

(** ** The adjudication of the security harness *)
Module security_spec.
Import os sandbox security gostrings gostrings_spec.

(** The containment branch of the adjudication, as a proposition. *)
Definition contained (expected : TestResult) (result : ExecutionResult) : Prop :=
  ExitCode result = -1 \/
  ExitCode result <> 0 \/
  (ExpectedOutput expected <> "" /\
   occurs_in (ExpectedOutput expected) (trimLastNewline (Stdout result))) \/
  Stderr result <> "".

(** The branch for a case that expects no containment. *)
Definition succeeded (expected : TestResult) (result : ExecutionResult) : Prop :=
  ExitCode result = ExpectedExitCode expected /\
  (ExpectedOutput expected <> "" ->
   occurs_in (ExpectedOutput expected) (Stdout result)).

End security_spec.

(** ** Deadlines and child processes *)
Module exec_spec.
Import os context exec sandbox.

(** The time left, at instant [t], under the context with which an executor
    of timeout [timeout] runs its child when it is itself called under
    [ctx]: the timeout is only imposed when it is positive. *)
Definition time_left (ctx : Context) (timeout t : Z) : option Z :=
  if 0 <? timeout
  then Some (match deadline ctx with
             | None => t + timeout
             | Some d => Z.min d (t + timeout)
             end - t)
  else remaining ctx t.

(** The deadline passes before the child exits by itself. *)
Definition expires_first (left : option Z) (p : Process) : Prop :=
  match left with
  | None => False
  | Some d =>
      start_err p = None /\
      match exit_at p with
      | None => True
      | Some (t, _) => d < t
      end
  end.

(** The child exits by itself, with [status] at [t], before any deadline. *)
Definition exits_first (left : option Z) (p : Process) (t status : Z) : Prop :=
  start_err p = None /\ exit_at p = Some (t, status) /\
  match left with
  | None => True
  | Some d => 0 < d /\ t < d
  end.

Definition timed_out (o : option (result ExecutionResult) * St) : Prop :=
  exists r, fst o = Some (Ok r) /\
            Stderr r = "Execution timed out" /\ ExitCode r = -1.

(** A child is started and, once the deadline has killed it, a process it
    had started holds its stdout and stderr for ever. *)
Definition held_after_kill (left : option Z) (p : Process) : bool :=
  match left with
  | Some d =>
      (0 <? d) && match lingering p (Some d) with
                  | HeldForEver => true
                  | _ => false
                  end
  | None => false
  end.

(** How a call that collects the output of [p] with [left] to go ends when
    the deadline passes first: with the timed-out result, unless the pipe is
    held for ever, and then it does not end. *)
Definition deadline_outcome (left : option Z) (p : Process)
    (o : option (result ExecutionResult) * St) : Prop :=
  if held_after_kill left p then fst o = None else timed_out o.

(** The deadline has passed at the instant [t] after the start. *)
Definition after_deadline (left : option Z) (t : Z) : bool :=
  match left with
  | Some d => d <=? t
  | None => false
  end.

(** No process that the child has started holds its stdout and stderr for
    ever, whether the child is killed or not. *)
Definition lets_go (p : Process) : Prop :=
  forall kill, lingering p kill <> HeldForEver.

(** Imposing the timeout and running the child, as every executor does. *)
Definition run_with_timeout (w : World) (ctx : Context) (timeout : Z)
    (cmdArgs : list string) (dir : string) : IO (result ExecutionResult) :=
  let* ctx := (if 0 <? timeout then WithTimeout ctx timeout else ret ctx) in
  let* f := CombinedOutput w ctx cmdArgs dir in
  ret (Ok (resultOf f)).

End exec_spec.

(** ** Built-in languages *)
Module executor_spec.
Import os context exec sandbox gostrings gostrings_spec exec_spec.

Definition builtin : list string := ["python"; "go"; "javascript"].

(** The file name under which the source of a built-in language is written,
    and the command that runs it. *)
Definition sourceName (language : string) : string :=
  if String.eqb language "python" then "main.py"
  else if String.eqb language "go" then "main.go"
  else "main.js".

Definition commandFor (language filePath : string) : list string :=
  match executor.getCommandForLanguage language filePath with
  | Ok cmdArgs => cmdArgs
  | Err _ => []
  end.

End executor_spec.

(** ** Rejections *)
Module language_spec.
Import os context exec sandbox gostrings exec_spec executor_spec.
Import container.


End language_spec.

(** ** Plugin processes *)
Module plugin_spec.
Import os context exec sandbox gostrings exec_spec.
Import plugin.

(** The child cannot be started, or exits with a status other than 0. *)
Definition fails (p : Process) : Prop :=
  start_err p <> None \/
  exists t status, exit_at p = Some (t, status) /\ status <> 0.

(** The shape that [Execute] and [ExecuteFile] share. *)
Definition call (w : World) (j : Json) (ctx : Context) (argv : list string)
    (label : string) : IO (result ExecutionResult) :=
  let* f := CombinedOutput w ctx argv "" in
  match err f with
  | Some er => ret (Err (label +:+ Error er))
  | None =>
      match UnmarshalExecutionResult j (output f) with
      | Err msg => ret (Err ("failed to parse result: " +:+ msg))
      | Ok r => ret (Ok r)
      end
  end.

End plugin_spec.

(** ** Plugin managers *)
Module cli_spec.
Import os context exec sandbox gostrings.
Import plugin cli.

(** Every registered executor declares the language it is registered for. *)
Definition sound (m : Manager) : Prop :=
  forall l p, plugins m !! l = Some p -> l ∈ languages p.

(** The directory [d] holds a plugin that declares [language]: its manifest
    can be read and decoded and lists the language, and the binary that the
    manifest names is there, under that name or with [.exe] added. *)
Definition claims (w : World) (j : Json) (d language : string) : Prop :=
  exists data manifest,
    ReadFile w (Join d "manifest.json") = Ok data /\
    UnmarshalManifest j data = Ok manifest /\
    language ∈ Languages manifest /\
    (Exists w (Join d (Name manifest)) = true \/
     Exists w (Join d (Name manifest +:+ ".exe")) = true).

End cli_spec.

(** ** Job managers and request bodies *)
Module api_spec.
Import sandbox api.

(** Every pointer in the job table is allocated, and no two ids share one. *)
Definition wf (jm : JobManager) : Prop :=
  (forall id ptr, jobs jm !! id = Some ptr -> (ptr < length (heap jm))%nat) /\
  (forall id1 id2 ptr, jobs jm !! id1 = Some ptr -> jobs jm !! id2 = Some ptr ->
                       id1 = id2).

(** The test of the loop of [ListJobs] on the job behind a pointer. *)
Definition selected (hp : list Job) (status language : string) (ptr : nat) : bool :=
  match hp !! ptr with
  | Some job =>
      (String.eqb status "" || String.eqb (Status job) status)
      && (String.eqb language "" || String.eqb (Language job) language)
  | None => false
  end.

(** A job passes the two filters; an empty filter lets every job pass. *)
Definition matches (status language : string) (job : Job) : Prop :=
  (status = "" \/ Status job = status) /\ (language = "" \/ Language job = language).

Definition terminal (outcome : result ExecutionResult) : string :=
  match outcome with Ok _ => "completed" | Err _ => "failed" end.

(** The limit a job gets from a decoded field: the fallback when the field
    decodes to 0, and the decoded value otherwise. *)
Definition defaulted (fallback : Z) (field : option Z) : Z :=
  if default 0 field =? 0 then fallback else default 0 field.

Definition with_timeout (t : option Z) (b : ExecuteBody) : ExecuteBody :=
  {| b_language := b_language b; b_code := b_code b; b_file_path := b_file_path b;
     b_timeout := t; b_memory_limit := b_memory_limit b;
     b_network_access := b_network_access b |}.

Definition with_memory_limit (m : option Z) (b : ExecuteBody) : ExecuteBody :=
  {| b_language := b_language b; b_code := b_code b; b_file_path := b_file_path b;
     b_timeout := b_timeout b; b_memory_limit := m;
     b_network_access := b_network_access b |}.

(** The job a handler has created and dispatched carries these limits. *)
Definition dispatched_with (h : Handled) (timeout memoryLimit : Z) : Prop :=
  exists ptr job,
    dispatched h = Some ptr /\ heap (manager h) !! ptr = Some job /\
    Timeout job = timeout /\ MemoryLimit job = memoryLimit.

End api_spec.

(** ** Runs of a measurement *)
Module performance_spec.
Import performance.

Definition durations (runs : list Run) : list Z := execDuration <$> runs.

Definition total (ds : list Z) : Z := foldr Z.add 0 ds.

Definition successes (runs : list Run) : Z :=
  Z.of_nat (length (List.filter (fun r => negb (failed r)) runs)).

Definition failures (runs : list Run) : Z :=
  Z.of_nat (length (List.filter failed runs)).

(** No single run lasted longer than 2^59 ns, about eighteen years. *)
Definition plausible (runs : list Run) : Prop :=
  Forall (fun r => Z.abs (execDuration r) <= 2 ^ 59) runs.

(** What the timed goroutines have accumulated after the runs in [seen],
    starting from the counters as they are reset after the warm-up. *)
Record accumulated (m : PerformanceMetrics) (seen : list Run) : Prop := {
  acc_total : TotalTime m = total (durations seen);
  acc_min : Forall (fun d => MinTime m <= d) (durations seen);
  acc_max : Forall (fun d => d <= MaxTime m) (durations seen);
  acc_min_init : MinTime m <= Hour;
  acc_max_init : 0 <= MaxTime m;
  acc_succ : SuccessfulExecutions m = successes seen;
  acc_fail : FailedExecutions m = failures seen
}.

End performance_spec.

(** ** The job table over the life of a server *)
Module server_spec.
Import sandbox api api_spec.

(** What touches the job table: the two POST handlers, and the atomic
    actions of a DELETE request and of the workers. *)
Inductive Request :=
| PostExecute (body : ExecuteBody) (nanos now : Z)
| PostExecuteFile (body : ExecuteBody) (nanos now : Z)
| Atomic (a : Action).

Definition serve (jm : JobManager) (r : Request) : JobManager :=
  match r with
  | PostExecute body nanos now => manager (handleExecuteCode jm body nanos now)
  | PostExecuteFile body nanos now => manager (handleExecuteFile jm body nanos now)
  | Atomic a => step jm a
  end.

(** The job table of a server that has started empty and served [rs]. *)
Definition served (rs : list Request) : JobManager := foldl serve NewJobManager rs.

Definition known_statuses : list string :=
  ["pending"; "running"; "completed"; "failed"; "cancelled"].

Definition sane (job : Job) : Prop :=
  Status job ∈ known_statuses /\
  (Status job = "completed" -> is_Some (Result job)).

(** The table's pointers are allocated and distinct, every record is filed
    under its own id, and every record is [sane]. *)
Record consistent (jm : JobManager) : Prop := {
  c_wf : wf jm;
  c_id : forall id ptr job,
    jobs jm !! id = Some ptr -> heap jm !! ptr = Some job -> ID job = id;
  c_sane : Forall sane (heap jm)
}.

Definition cancellable (job : Job) : Prop :=
  Status job = "pending" \/ Status job = "running".




(** The request is a POST whose body is accepted and whose job is named
    [id]. *)
Definition names (r : Request) (id : string) : Prop :=
  match r with
  | PostExecute body nanos _ =>
      (exists req, ShouldBindJSON true false body = Ok req) /\ generateJobID nanos = id
  | PostExecuteFile body nanos _ =>
      (exists req, ShouldBindJSON false true body = Ok req) /\ generateJobID nanos = id
  | Atomic _ => False
  end.

End server_spec.

(** ** Scenarios *)
Module scenarios.
Import sandbox api server_spec.

(** Two jobs are posted; the first is run to completion, the second is
    cancelled while it is still pending; then a file job is posted. *)
Definition three_requests : list Request :=
  [ PostExecute (examples.body "python" "print(1)" None None) 1000 1000;
    PostExecute (examples.body "go" "package main" (Some 5) None) 2000 2000;
    Atomic (WorkerBegin 0 2001);
    Atomic (Cancel "job-2000" 2002);
    Atomic (WorkerEnd 0 (Ok examples.print_result) 2003);
    PostExecuteFile
      {| b_language := None; b_code := None; b_file_path := Some "/srv/main.py";
         b_timeout := None; b_memory_limit := None; b_network_access := None |}
      3000 3000 ].

(** A host on which every command prints [out] and exits with [status]
    after 5 ms. *)
Definition script_world (out : string) (status : Z) : os.World :=
  {| os.MkdirTemp := fun pattern => Ok "/tmp/forgeai-4";
     os.WriteFile := fun _ _ => None;
     os.ReadFile := fun _ => Err "no such file or directory";
     os.Exists := fun _ => false;
     os.ReadDir := fun _ => Err "no such file or directory";
     os.Command := fun _ _ => examples.quick out status (5 * Millisecond) |}.

(** A pending job that asks for [timeout] seconds. *)
Definition looping_job (timeout : Z) : Job :=
  {| ID := "job-1000"; Status := "pending"; Language := "python";
     Code := "while True: pass"; FilePath := ""; Timeout := timeout;
     MemoryLimit := 128; NetworkAccess := false; Result := None; Error := "";
     CreatedAt := 1000; StartedAt := 0; CompletedAt := 0 |}.

(** A pending job in Go that loops. *)
Definition go_job (timeout : Z) : Job :=
  {| ID := "job-2000"; Status := "pending"; Language := "go";
     Code := examples.go_loop; FilePath := ""; Timeout := timeout;
     MemoryLimit := 128; NetworkAccess := false; Result := None; Error := "";
     CreatedAt := 2000; StartedAt := 0; CompletedAt := 0 |}.

(** A host whose plugin directory holds two copies of the hello plugin,
    under [first] and [second], both declaring hello and python. *)
Definition twin_world : os.World :=
  {| os.MkdirTemp := fun pattern => Ok "/tmp/forgeai-5";
     os.WriteFile := fun _ _ => None;
     os.ReadFile := fun path =>
       if String.eqb path "/plugins/first/manifest.json"
          || String.eqb path "/plugins/second/manifest.json"
       then Ok examples.hello_manifest_json
       else Err "no such file or directory";
     os.Exists := fun path =>
       String.eqb path "/plugins"
       || String.eqb path "/plugins/first/hello-plugin"
       || String.eqb path "/plugins/second/hello-plugin";
     os.ReadDir := fun path =>
       if String.eqb path "/plugins"
       then Ok [ {| os.Name := "first"; os.IsDir := true |};
                 {| os.Name := "notes.txt"; os.IsDir := false |};
                 {| os.Name := "second"; os.IsDir := true |};
                 {| os.Name := "third"; os.IsDir := true |} ]
       else Err "no such file or directory";
     os.Command := fun _ _ => examples.spinning |}.

(** A registry that knows the hello plugin, with or without an address of
    its own for the binary, and a disk on which nothing fails. *)
Definition hello_info (download_url : string) : registry.PluginInfo :=
  {| registry.Name := "hello-plugin"; registry.Version := "1.2.0";
     registry.Description := "Greets"; registry.Author := "forge";
     registry.License := "MIT"; registry.Homepage := ""; registry.Repository := "";
     registry.Languages := ["hello"; "python"];
     registry.DownloadURL := download_url;
     registry.FileHash := ""; registry.Signature := "" |}.

Definition registry_env (download_url : string) : registry.Env :=
  {| registry.Get := fun url =>
       if String.eqb url "http://localhost:8080/v1/plugins/hello-plugin"
       then Ok {| registry.StatusCode := 200; registry.Body := "hello-info";
                  registry.ReadErr := None |}
       else if String.eqb url
                 "http://localhost:8080/v1/plugins/hello-plugin/versions/1.2.0/download"
               || String.eqb url "https://cdn.example.org/hello-plugin"
       then Ok {| registry.StatusCode := 200; registry.Body := "#!/bin/sh";
                  registry.ReadErr := None |}
       else Ok {| registry.StatusCode := 404; registry.Body := "not found";
                  registry.ReadErr := None |};
     registry.fault := fun _ => None;
     registry.residue := fun _ disk => disk;
     registry.umask := 18;
     registry.cwd := "/home/forge";
     registry.UnmarshalPluginInfo := fun body =>
       if String.eqb body "hello-info" then Ok (hello_info download_url)
       else Err "unexpected end of JSON input";
     registry.UnmarshalPluginInfos := fun _ => Err "unexpected end of JSON input";
     registry.MarshalManifest := fun m =>
       if String.eqb (plugin.Name m) "hello-plugin"
       then Ok examples.hello_manifest_json
       else Err "json: unsupported value" |}.

Definition hello_pm : registry.PluginManager :=
  registry.NewPluginManager "./plugins" "http://localhost:8080".

Definition empty_disk : registry.Disk :=
  {| registry.files := ∅; registry.dirs := ∅ |}.

(** A host with a Docker client that answers the probe but knows no image
    and cannot reach a registry of images. *)
Definition offline_docker_world : os.World :=
  {| os.MkdirTemp := fun pattern => Ok "/tmp/forgeai-6";
     os.WriteFile := fun _ _ => None;
     os.ReadFile := fun _ => Err "no such file or directory";
     os.Exists := fun _ => false;
     os.ReadDir := fun _ => Err "no such file or directory";
     os.Command := fun argv _ =>
       match argv with
       | [_; "--version"] =>
           examples.quick "Docker version 24.0.7" 0 (5 * Millisecond)
       | _ => examples.quick "Error: No such image" 1 (5 * Millisecond)
       end |}.

End scenarios.

(** ** What a run leaves in the trace *)
Module effects_spec.
Import os sandbox.

(** Every event that [m] adds to the trace satisfies [P], whether [m]
    returns or blocks. *)
Definition emits {A} (P : Event -> Prop) (m : IO A) : Prop :=
  forall s, exists evs, trace (snd (m s)) = trace s ++ evs /\ Forall P evs.

(** No directory is removed. *)
Definition keeps_files (e : Event) : Prop :=
  match e with EvRemoveAll _ => False | _ => True end.

(** No child other than the Docker client is started. *)
Definition docker_only (e : Event) : Prop :=
  match e with EvSpawn argv => head argv = Some "docker" | _ => True end.

(** Nothing but printing: no directory made or removed, no file written,
    no child started. *)
Definition prints_only (e : Event) : Prop :=
  match e with EvPrint _ => True | _ => False end.

(** The discipline of an [Execute] that works in a temporary directory
    asked for under [pattern]: the request for the directory comes first;
    if it is refused nothing else happens and the error is returned; if it
    is granted and the call returns, the last event removes that directory
    and no other removal happens; if the call blocks nothing is removed. *)
Definition tidy (w : World) (pattern : string)
    (run : IO (result ExecutionResult)) : Prop :=
  forall s, exists evs,
    trace (snd (run s)) = trace s ++ EvMkdirTemp pattern :: evs /\
    match MkdirTemp w pattern with
    | Err msg =>
        evs = [] /\
        fst (run s) = Some (Err ("failed to create temp directory: " +:+ msg))
    | Ok tempDir =>
        match fst (run s) with
        | Some _ => exists body, evs = body ++ [EvRemoveAll tempDir] /\
                                 Forall keeps_files body
        | None => Forall keeps_files evs
        end
    end.

End effects_spec.

(** ** The Docker probe *)
Module probe_spec.
Import os context exec sandbox.
Import plugin_spec.

(** The command with which both container executors ask whether Docker is
    there; it is run without any context. *)
Definition probe : list string := ["docker"; "--version"].

(** The host after the probe has been run from [s]. *)
Definition probed (w : World) (s : St) : St :=
  {| trace := trace s ++ [EvSpawn probe];
     clock := clock s + match wait None (Command w probe "") with
                        | Some f => elapsed f
                        | None => 0
                        end |}.

(** Docker is missing: the probe cannot be started or exits with an error. *)
Definition unavailable (w : World) : Prop := fails (Command w probe "").

(** The probe is started and never exits. *)
Definition stuck (w : World) : Prop :=
  start_err (Command w probe "") = None /\ exit_at (Command w probe "") = None.

(** The hardened local executor with the limits of a hardened container
    executor. *)
Definition local_twin (ce : security.ContainerizedExecutor.t)
    : security.SecureExecutor.t :=
  {| security.SecureExecutor.Timeout := security.ContainerizedExecutor.Timeout ce;
     security.SecureExecutor.MemoryLimit :=
       security.ContainerizedExecutor.MemoryLimit ce |}.

End probe_spec.

(** ** Loading a plugin directory *)
Module loading_spec.
Import os.
Import plugin cli_spec.

(** The entry is a directory whose plugin loads. *)
Definition loads (w : World) (j : Json) (dir : string) (entry : DirEntry) : bool :=
  IsDir entry &&
  match LoadPlugin w j NewManager (gostrings.Join dir (os.Name entry)) with
  | Ok _ => true
  | Err _ => false
  end.

(** The warnings printed for the directories whose plugin does not load,
    in the order of the entries. *)
Definition warnings (w : World) (j : Json) (dir : string) (entries : list DirEntry)
    : list Event :=
  omap (fun entry =>
          if IsDir entry then
            match LoadPlugin w j NewManager (gostrings.Join dir (os.Name entry)) with
            | Ok _ => None
            | Err msg => Some (EvPrint ("Warning: failed to load plugin "
                                          +:+ os.Name entry +:+ ": " +:+ msg))
            end
          else None) entries.

(** The number of times [l] is listed. *)
Definition occurrences (l : string) (langs : list string) : nat :=
  length (List.filter (String.eqb l) langs).

End loading_spec.

(** ** The harness *)
Module harness_spec.
Import os sandbox security.

(** The string ends in a line feed. *)
Fixpoint ends_with_lf (s : string) : bool :=
  match s with
  | EmptyString => false
  | String c EmptyString => Ascii.eqb c newline
  | String _ rest => ends_with_lf rest
  end.




(** The number of reports that are not passed. *)
Definition failures (reports : list TestReport) : Z :=
  Z.of_nat (length (List.filter (fun r => negb (Passed r)) reports)).


End harness_spec.

(** ** Measurements and their order *)
Module measurement_spec.
Import performance performance_spec.

(** The metrics as they stand when the timed runs begin. *)
Definition fresh (executorName : string) (test : PerformanceTest)
    : PerformanceMetrics :=
  {| ExecutorName := executorName; TestCaseName := Name test;
     TotalExecutions := 0; SuccessfulExecutions := 0; FailedExecutions := 0;
     TotalTime := 0; AverageTime := 0;
     MinTime := Hour; MaxTime := 0; SuccessRate := PrimFloat.zero |}.

(** The least and the greatest of a list of durations and a bound. *)
Definition least (bound : Z) (ds : list Z) : Z := foldr Z.min bound ds.
Definition greatest (bound : Z) (ds : list Z) : Z := foldr Z.max bound ds.

End measurement_spec.

(** ** Installing plugins *)
Module install_spec.
Import os gostrings.
Import registry.

(** The owner may read the file. *)
Definition owner_readable (f : File) : bool := Z.testbit (perm f) 8.

(** Some regular file stands where the absolute path [path] needs a
    directory on its way. *)
Definition through_file (disk : Disk) (path : string) : bool :=
  existsb (fun dir => bool_decide (is_Some (files disk !! dir))) (parents "" path).

(** The host as [plugin.LoadPlugin] sees it when its files are those of
    [disk] and it runs in the working directory of [env] as their owner, or
    as the superuser if [superuser]; the calls that loading does not make
    are answered by [base]. [os.Stat] reports that a path does not exist
    when nothing is there; a path that leads through a regular file gets
    another error. *)
Definition on_disk (base : World) (superuser : bool) (env : Env) (disk : Disk)
    : World :=
  {| MkdirTemp := MkdirTemp base;
     WriteFile := WriteFile base;
     ReadFile := fun path =>
       match files disk !! resolve env path with
       | Some f =>
           if superuser || owner_readable f then Ok (data f)
           else Err ("open " +:+ path +:+ ": permission denied")
       | None =>
           if through_file disk (resolve env path)
           then Err ("open " +:+ path +:+ ": not a directory")
           else Err ("open " +:+ path +:+ ": no such file or directory")
       end;
     Exists := fun path =>
       bool_decide (is_Some (files disk !! resolve env path))
       || bool_decide (resolve env path ∈ dirs disk)
       || through_file disk (resolve env path);
     ReadDir := ReadDir base;
     Command := Command base |}.

(** The manifest that installation writes for a registry entry. *)
Definition manifest_of (info : PluginInfo) : plugin.Manifest :=
  {| plugin.Name := Name info; plugin.Languages := Languages info |}.

(** The address from which the binary of [name] is fetched. *)
Definition binary_url (rc : RegistryClient) (info : PluginInfo)
    (name version : string) : string :=
  if String.eqb (DownloadURL info) "" then
    BaseURL rc +:+ "/v1/plugins/" +:+ name +:+ "/versions/" +:+ version +:+ "/download"
  else DownloadURL info.

(** The disk after the five file-system calls of an installation that
    fetched the entry [info] and the binary [body] have all succeeded. *)
Definition installed (env : Env) (dir : string) (info : PluginInfo)
    (body manifestData : string) (disk : Disk) : Disk :=
  store env (Join dir "manifest.json") manifestData 420
    (Chmod env (Join dir (Name info)) 493
       (store env (Join dir (Name info)) body 438
          (store env (Join dir (Name info)) "" 438
             (MkdirAll env dir disk)))).

(** Nothing on the disk is the directory at the absolute path [dir] or lies
    below it. *)
Definition vacant (dir : string) (disk : Disk) : Prop :=
  (forall path f, files disk !! path = Some f -> under dir path = false) /\
  (forall path, path ∈ dirs disk -> under dir path = false).

(** The disk [disk'] holds the plugin [name] as an installation under
    [pm] leaves it, and loading its directory registers it. *)
Definition holds_plugin (env : Env) (pm : PluginManager) (name version : string)
    (disk' : Disk) : Prop :=
  let pluginDir := Join (LocalDir pm) name in
  let manifestPath := resolve env (Join pluginDir "manifest.json") in
  exists info resp manifest,
    GetPlugin env (Registry pm) name = Ok info /\
    Get env (binary_url (Registry pm) info name version) = Ok resp /\
    files disk' !! manifestPath = Some manifest /\
    MarshalManifest env (manifest_of info) = Ok (data manifest) /\
    (exists f, files disk' !! resolve env (Join pluginDir (Name info)) = Some f /\
               perm f = 493 /\
               (resolve env (Join pluginDir (Name info)) <> manifestPath ->
                data f = Body resp)) /\
    forall (j : plugin.Json) (base : World) (superuser : bool) (m : plugin.Manager),
      plugin.UnmarshalManifest j (data manifest) = Ok (manifest_of info) ->
      superuser || owner_readable manifest = true ->
      plugin.LoadPlugin (on_disk base superuser env disk') j m pluginDir =
      Ok (plugin.register
            (plugin.NewExternalExecutor (Join pluginDir (Name info)) (Languages info))
            (Languages info) m).

End install_spec.

(** ** The commands of the CLI *)
Module command_spec.
Import os sandbox cli.

Definition with_limits (timeout memoryLimit : Z) (flags : Flags) : Flags :=
  {| jsonOutput := jsonOutput flags; containerized := containerized flags;
     pluginDir := pluginDir flags; timeout := timeout; memoryLimit := memoryLimit |}.

(** What [printResult] prints of a result when JSON output is off. *)
Definition report (rd : Render) (result : ExecutionResult) : list Event :=
  [ EvPrint ("Execution completed in " +:+ DurationString rd (Duration result));
    EvPrint ("Exit code: " +:+ itoa (ExitCode result)) ]
  ++ (if String.eqb (Stdout result) "" then []
      else [EvPrint ("Stdout:" +:+ String newline (Stdout result))])
  ++ (if String.eqb (Stderr result) "" then []
      else [EvPrint ("Stderr:" +:+ String newline (Stderr result))]).

End command_spec.

(** ** The hardened container *)
Module hardening_spec.
Import os exec sandbox gostrings.
Import executor_spec probe_spec.
Import security.



(** Docker is there: the probe is started and exits with status 0. *)
Definition available (w : World) : Prop :=
  start_err (Command w probe "") = None /\
  exists t, exit_at (Command w probe "") = Some (t, 0).


End hardening_spec.

(** * Properties *)

(** Decide the comparisons of closed strings that stand in the goal. *)
Ltac eval_eqb :=
  repeat match goal with
    | |- context [String.eqb ?a ?b] =>
        let v := eval vm_compute in (String.eqb a b) in
        match v with
        | true => change (String.eqb a b) with true
        | false => change (String.eqb a b) with false
        end
    end;
  cbn [negb andb orb].

(** ** Byte strings *)
Module gostrings_facts.
Import gostrings.
Import gostrings_spec.

Lemma eqb_true_iff (a b : string) : String.eqb a b = true <-> a = b.
Proof. apply String.eqb_eq. Qed.

Lemma eqb_false_iff (a b : string) : String.eqb a b = false <-> a <> b.
Proof. apply String.eqb_neq. Qed.

Lemma negb_eqb_true_iff (a b : string) : negb (String.eqb a b) = true <-> a <> b.
Proof. rewrite negb_true_iff. apply eqb_false_iff. Qed.

Lemma HasPrefix_spec (s p : string) :
  HasPrefix s p = true <-> exists post, s = p +:+ post.
Proof.
  revert s. induction p as [|c p IH]; intros s; simpl.
  - split; [intros _; exists s; reflexivity | reflexivity].
  - destruct s as [|d s]; simpl.
    + split; [discriminate | intros [post H]; discriminate].
    + destruct (Ascii.eqb_spec c d) as [->|Hne].
      * rewrite IH. split; intros [post H]; exists post.
        -- now rewrite H.
        -- now inversion H.
      * split; [discriminate | intros [post H]; inversion H; congruence].
Qed.

Lemma Contains_spec (s sub : string) :
  Contains s sub = true <-> occurs_in sub s.
Proof.
  unfold occurs_in. induction s as [|d s IH].
  - simpl. rewrite orb_false_r, HasPrefix_spec. split.
    + intros [post H]. exists "", post. exact H.
    + intros [pre [post H]]. destruct pre; simpl in H.
      * exists post. exact H.
      * discriminate.
  - cbn [Contains]. rewrite orb_true_iff, HasPrefix_spec, IH. split.
    + intros [[post H] | [pre [post H]]].
      * exists "", post. exact H.
      * exists (String d pre), post. simpl. now rewrite H.
    + intros [pre [post H]]. destruct pre as [|c pre]; simpl in H.
      * left. exists post. exact H.
      * right. inversion H. exists pre, post. reflexivity.
Qed.

Lemma append_nil_l (s : string) : "" +:+ s = s.
Proof. reflexivity. Qed.

Lemma append_cons (c : ascii) (s t : string) :
  String c s +:+ t = String c (s +:+ t).
Proof. reflexivity. Qed.

Lemma append_nil_r (s : string) : s +:+ "" = s.
Proof.
  induction s as [|c s IH]; [reflexivity | now rewrite append_cons, IH].
Qed.

Lemma Contains_refl (s : string) : Contains s s = true.
Proof.
  apply Contains_spec. exists "", "".
  change ("" +:+ s +:+ "") with (s +:+ ""). now rewrite append_nil_r.
Qed.

Lemma Contains_empty (sub : string) : Contains "" sub = true -> sub = "".
Proof.
  simpl. rewrite orb_false_r. destruct sub; [reflexivity | discriminate].
Qed.

Lemma append_assoc (a b c : string) : (a +:+ b) +:+ c = a +:+ (b +:+ c).
Proof.
  induction a as [|x a IH]; [reflexivity | now rewrite !append_cons, IH].
Qed.

Lemma elements_nonempty (path : string) : elements path <> [].
Proof.
  destruct path as [|c rest]; [discriminate|]. cbn [elements].
  destruct (Ascii.eqb c "/"); [discriminate|].
  destruct (elements rest); discriminate.
Qed.

Lemma elements_app_sep (a b : string) :
  elements (a +:+ String "/" b) = elements a ++ elements b.
Proof.
  induction a as [|c a IH]; [reflexivity|].
  rewrite append_cons. cbn [elements]. rewrite IH.
  destruct (Ascii.eqb c "/"); [reflexivity|].
  pose proof (elements_nonempty a) as Hne.
  destruct (elements a) as [|e es]; [contradiction | reflexivity].
Qed.

Lemma clean_elements_app (rooted : bool) (a b kept : list string) :
  clean_elements rooted kept (a ++ b)
  = clean_elements rooted (clean_elements rooted kept a) b.
Proof.
  revert kept. induction a as [|e a IH]; intros kept; [reflexivity|].
  cbn [app clean_elements].
  destruct (String.eqb e "" || String.eqb e "."); [apply IH|].
  destruct (String.eqb e ".."); [|apply IH].
  destruct kept as [|top below]; [destruct rooted; apply IH|].
  destruct (String.eqb top ".."); apply IH.
Qed.

Lemma clean_elements_plain (rooted : bool) (kept : list string) (name : string) :
  plain name -> clean_elements rooted kept [name] = name :: kept.
Proof.
  intros (_ & H1 & H2 & H3). cbn [clean_elements].
  apply String.eqb_neq in H1, H2, H3. now rewrite H1, H2, H3.
Qed.

Lemma join_sep_snoc (es : list string) (name : string) :
  join_sep (es ++ [name])
  = match es with
    | [] => name
    | _ => join_sep es +:+ "/" +:+ name
    end.
Proof.
  induction es as [|e es IH]; [reflexivity|].
  cbn [app]. destruct es as [|e' es]; [reflexivity|].
  change (join_sep (e :: (e' :: es) ++ [name]))
    with (e +:+ "/" +:+ join_sep ((e' :: es) ++ [name])).
  rewrite IH. change (join_sep (e :: e' :: es)) with (e +:+ "/" +:+ join_sep (e' :: es)).
  now rewrite !append_assoc.
Qed.

(** Cleaning a path that ends in a separator and a plain element keeps the
    element, after a separator or alone. *)
Lemma Clean_plain_last (dir name : string) :
  plain name ->
  exists pre, Clean (dir +:+ String "/" name) = pre +:+ name /\
              (pre = "" \/ exists q, pre = q +:+ "/").
Proof.
  intros Hp. unfold Clean. rewrite elements_app_sep.
  destruct Hp as (He & Hrest). rewrite He, clean_elements_app.
  rewrite clean_elements_plain by (split; assumption).
  cbn [rev]. rewrite join_sep_snoc.
  set (rooted := HasPrefix (dir +:+ String "/" name) "/").
  set (kept := rev (clean_elements rooted [] (elements dir))).
  assert (Hn : name <> "") by tauto.
  destruct rooted.
  - destruct kept as [|k ks].
    + exists "/". split; [reflexivity|]. right. now exists "".
    + exists (("/" +:+ join_sep (k :: ks)) +:+ "/"). split.
      * now rewrite !append_assoc.
      * right. eexists. reflexivity.
  - destruct kept as [|k ks].
    + apply String.eqb_neq in Hn. rewrite Hn. exists "". auto.
    + assert (Hne : String.eqb (join_sep (k :: ks) +:+ "/" +:+ name) "" = false).
      { apply String.eqb_neq. intros H.
        destruct (join_sep (k :: ks)); discriminate H. }
      rewrite Hne. exists (join_sep (k :: ks) +:+ "/"). split.
      * now rewrite !append_assoc.
      * right. eexists. reflexivity.
Qed.

Lemma Clean_plain (name : string) : plain name -> Clean name = name.
Proof.
  intros (He & Hn & H1 & H2). unfold Clean. rewrite He.
  assert (Hr : HasPrefix name "/" = false).
  { destruct name as [|c rest]; [reflexivity|]. cbn [HasPrefix].
    destruct (Ascii.eqb_spec "/" c) as [<-|]; [|reflexivity].
    cbn in He. destruct (elements rest); discriminate He. }
  rewrite Hr. rewrite clean_elements_plain by (repeat split; assumption).
  cbn. apply String.eqb_neq in Hn. now rewrite Hn.
Qed.

Lemma Join_plain_last (dir name : string) :
  plain name ->
  exists pre, Join dir name = pre +:+ name /\
              (pre = "" \/ exists q, pre = q +:+ "/").
Proof.
  intros Hp. unfold Join.
  destruct (String.eqb dir "").
  - destruct Hp as (He & Hn & H1 & H2).
    apply String.eqb_neq in Hn as Hn'. rewrite Hn'.
    exists "". split; [|now left]. apply Clean_plain. repeat split; assumption.
  - now apply Clean_plain_last.
Qed.

(** Every element is free of separators. *)
Lemma elements_sep_free (path e : string) : e ∈ elements path -> elements e = [e].
Proof.
  revert e. induction path as [|c rest IH]; intros e He.
  - apply list_elem_of_singleton in He. now subst e.
  - cbn [elements] in He. destruct (Ascii.eqb c "/") eqn:Hc.
    + apply elem_of_cons in He as [->|He]; [reflexivity | now apply IH].
    + pose proof (elements_nonempty rest) as Hne.
      destruct (elements rest) as [|e0 es] eqn:Hr; [contradiction|].
      apply elem_of_cons in He as [->|He].
      * cbn [elements]. rewrite Hc, (IH e0) by now left. reflexivity.
      * apply IH. now right.
Qed.

Lemma join_sep_cons (e : string) (es : list string) :
  es <> [] -> join_sep (e :: es) = e +:+ String "/" (join_sep es).
Proof. destruct es; [contradiction | reflexivity]. Qed.

Lemma elements_join_sep (es : list string) :
  es <> [] -> (forall e, e ∈ es -> elements e = [e]) ->
  elements (join_sep es) = es.
Proof.
  induction es as [|e es IH]; [contradiction|]. intros _ Hfree.
  destruct es as [|e' es].
  - apply Hfree. now left.
  - rewrite join_sep_cons by discriminate. rewrite elements_app_sep.
    rewrite (Hfree e) by now left. rewrite IH; [reflexivity | discriminate |].
    intros x Hx. apply Hfree. now right.
Qed.

Lemma clean_elements_kept (rooted : bool) (todo kept : list string) :
  Forall kept_element kept -> (forall e, e ∈ todo -> elements e = [e]) ->
  Forall kept_element (clean_elements rooted kept todo).
Proof.
  revert kept. induction todo as [|e todo IH]; intros kept Hk Hfree; [exact Hk|].
  assert (Hrest : forall x, x ∈ todo -> elements x = [x]) by (intros x Hx; apply Hfree; now right).
  assert (He : elements e = [e]) by (apply Hfree; now left).
  cbn [clean_elements].
  destruct (String.eqb_spec e ""); [now apply IH|].
  destruct (String.eqb_spec e "."); [now apply IH|]. cbn [orb].
  assert (Hg : kept_element e) by (repeat split; assumption).
  destruct (String.eqb_spec e "..").
  - destruct kept as [|top below]; [destruct rooted; apply IH; auto|].
    destruct (String.eqb top ".."); apply IH; auto.
    now inversion Hk.
  - apply IH; auto.
Qed.

(** Elements that are kept and are no double dot are pushed as they come. *)
Lemma clean_elements_push (rooted : bool) (es kept : list string) :
  Forall (fun e => kept_element e /\ e <> "..") es ->
  clean_elements rooted kept es = rev es ++ kept.
Proof.
  revert kept. induction es as [|e es IH]; intros kept Hes; [reflexivity|].
  inversion Hes as [|? ? [(_ & H1 & H2) H3] Hrest]; subst.
  cbn [clean_elements]. apply String.eqb_neq in H1, H2, H3.
  rewrite H1, H2, H3. cbn [orb]. rewrite IH by assumption.
  cbn [rev]. now rewrite <- app_assoc.
Qed.

Lemma clean_elements_rooted (todo kept : list string) :
  Forall (fun e => e <> "..") kept ->
  Forall (fun e => e <> "..") (clean_elements true kept todo).
Proof.
  revert kept. induction todo as [|e todo IH]; intros kept Hk; [exact Hk|].
  cbn [clean_elements].
  destruct (String.eqb e "" || String.eqb e "."); [now apply IH|].
  destruct (String.eqb_spec e "..").
  - destruct kept as [|top below]; [now apply IH|].
    destruct (String.eqb_spec top ".."); [|apply IH; now inversion Hk].
    inversion Hk; contradiction.
  - apply IH. now constructor.
Qed.

Lemma clean_elements_one (rooted : bool) (kept : list string) (e : string) :
  clean_elements rooted kept [e]
  = if String.eqb e "" || String.eqb e "." then kept
    else if String.eqb e ".." then
      match kept with
      | top :: below => if String.eqb top ".." then e :: kept else below
      | [] => if rooted then [] else [e]
      end
    else e :: kept.
Proof.
  cbn [clean_elements]. destruct (String.eqb e "" || String.eqb e "."); [reflexivity|].
  destruct (String.eqb e ".."); [|reflexivity].
  destruct kept as [|top below]; [now destruct rooted|].
  now destruct (String.eqb top "..").
Qed.

(** Cleaning the elements of a path, or the elements that cleaning them as
    a path of their own would keep, comes to the same on any stack. *)
Lemma clean_elements_normal (rooted : bool) (es kept : list string) :
  (forall e, e ∈ es -> elements e = [e]) ->
  clean_elements rooted kept es
  = clean_elements rooted kept (rev (clean_elements false [] es)).
Proof.
  induction es as [|e es IH] using rev_ind; intros Hfree; [reflexivity|].
  assert (Hes : forall x, x ∈ es -> elements x = [x]).
  { intros x Hx. apply Hfree, elem_of_app. now left. }
  rewrite !clean_elements_app, IH by assumption.
  pose proof (clean_elements_kept false es [] (List.Forall_nil _) Hes) as Hgood.
  destruct (clean_elements false [] es) as [|top below].
  - cbn [clean_elements rev app].
    destruct (String.eqb e "" || String.eqb e ".") eqn:Hskip; [reflexivity|].
    destruct (String.eqb_spec e "..") as [->|Hdd]; [reflexivity|].
    cbn [clean_elements rev app]. rewrite Hskip. apply String.eqb_neq in Hdd.
    now rewrite Hdd.
  - assert (Hpush : forall x, clean_elements rooted kept (rev (x :: top :: below))
                              = clean_elements rooted
                                  (clean_elements rooted kept (rev (top :: below))) [x]).
    { intros x. change (rev (x :: top :: below)) with (rev (top :: below) ++ [x]).
      apply clean_elements_app. }
    rewrite (clean_elements_one false).
    destruct (String.eqb e "" || String.eqb e ".") eqn:Hskip.
    { rewrite clean_elements_one. now rewrite Hskip. }
    destruct (String.eqb_spec e "..") as [->|Hdd]; [|now rewrite Hpush].
    destruct (String.eqb_spec top "..") as [->|Htop]; [now rewrite Hpush|].
    inversion Hgood as [|? ? (_ & H1 & H2) _]; subst.
    change (rev (top :: below)) with (rev below ++ [top]).
    rewrite clean_elements_app.
    apply String.eqb_neq in H1, H2, Htop.
    rewrite (clean_elements_one rooted _ top), H1, H2, Htop. cbn [orb].
    rewrite clean_elements_one. cbn [String.eqb Ascii.eqb Bool.eqb orb].
    now rewrite Htop.
Qed.

Lemma kept_element_relative (e : string) : kept_element e -> HasPrefix e "/" = false.
Proof.
  intros (He & Hn & _). destruct e as [|c rest]; [contradiction|].
  cbn [HasPrefix]. destruct (Ascii.eqb_spec "/" c) as [<-|]; [|reflexivity].
  cbn in He. pose proof (elements_nonempty rest).
  destruct (elements rest); [contradiction | discriminate He].
Qed.

Lemma HasPrefix_append (a b : string) (p : ascii) :
  a <> "" -> HasPrefix (a +:+ b) (String p "") = HasPrefix a (String p "").
Proof. destruct a; [contradiction | reflexivity]. Qed.

Lemma join_sep_head (e : string) (es : list string) :
  e <> "" -> join_sep (e :: es) <> "" /\
             HasPrefix (join_sep (e :: es)) "/" = HasPrefix e "/".
Proof.
  intros He. destruct es as [|e' es]; [auto|].
  rewrite join_sep_cons by discriminate. split.
  - destruct e; [contradiction | discriminate].
  - now apply HasPrefix_append.
Qed.

Lemma Clean_eq (path : string) :
  Clean path = if HasPrefix path "/" then "/" +:+ join_sep (cleaned path)
               else if String.eqb (join_sep (cleaned path)) "" then "."
                    else join_sep (cleaned path).
Proof. reflexivity. Qed.

Lemma cleaned_kept (path : string) : Forall kept_element (cleaned path).
Proof.
  unfold cleaned. apply Forall_rev, clean_elements_kept; [constructor|].
  apply elements_sep_free.
Qed.

Lemma cleaned_rooted (path : string) :
  HasPrefix path "/" = true -> Forall (fun e => kept_element e /\ e <> "..") (cleaned path).
Proof.
  intros Hr. pose proof (cleaned_kept path) as Hk. unfold cleaned in *. rewrite Hr in *.
  pose proof (clean_elements_rooted (elements path) [] (List.Forall_nil _)) as Hd.
  apply Forall_rev in Hd. rewrite Forall_forall in Hk, Hd. apply Forall_forall.
  intros x Hx. split; [now apply Hk | now apply Hd].
Qed.

(** The elements of a cleaned path clean to what the elements of the path
    clean to, on any stack, when the path is relative... *)
Lemma Clean_relative_elements (rooted : bool) (kept : list string) (path : string) :
  HasPrefix path "/" = false ->
  clean_elements rooted kept (elements (Clean path))
  = clean_elements rooted kept (elements path).
Proof.
  intros Hr. rewrite Clean_eq, Hr.
  rewrite (clean_elements_normal rooted (elements path)) by apply elements_sep_free.
  pose proof (cleaned_kept path) as Hk. unfold cleaned in *. rewrite Hr in *.
  destruct (rev (clean_elements false [] (elements path))) as [|e es] eqn:HS.
  - reflexivity.
  - inversion Hk as [|? ? (He & Hn & _) Hrest]; subst.
    destruct (join_sep_head e es Hn) as [Hne _].
    apply String.eqb_neq in Hne. rewrite Hne.
    rewrite elements_join_sep; [reflexivity | discriminate |].
    intros x Hx. rewrite Forall_forall in Hk. now destruct (Hk x Hx).
Qed.

Lemma Clean_rooted (path : string) : HasPrefix (Clean path) "/" = HasPrefix path "/".
Proof.
  rewrite Clean_eq. destruct (HasPrefix path "/") eqn:Hr; [reflexivity|].
  pose proof (cleaned_kept path) as Hk.
  destruct (cleaned path) as [|e es]; [reflexivity|].
  inversion Hk as [|? ? He Hrest]; subst.
  destruct (join_sep_head e es (proj1 (proj2 He))) as [Hne Hp].
  apply String.eqb_neq in Hne. rewrite Hne, Hp. now apply kept_element_relative.
Qed.

(** ... and when it is rooted. *)
Lemma Clean_rooted_elements (path : string) :
  HasPrefix path "/" = true ->
  clean_elements true [] (elements (Clean path))
  = clean_elements true [] (elements path).
Proof.
  intros Hr. rewrite Clean_eq, Hr.
  pose proof (cleaned_rooted path Hr) as Hk.
  assert (Hc : clean_elements true [] (elements path) = rev (cleaned path)).
  { unfold cleaned. now rewrite Hr, rev_involutive. }
  rewrite Hc. change ("/" +:+ join_sep (cleaned path)) with (String "/" (join_sep (cleaned path))).
  cbn [elements Ascii.eqb Bool.eqb]. cbn [clean_elements String.eqb orb].
  destruct (cleaned path) as [|e es] eqn:HS; [reflexivity|].
  rewrite elements_join_sep; [| discriminate |].
  - rewrite clean_elements_push by assumption. apply app_nil_r.
  - intros x Hx. rewrite Forall_forall in Hk. now destruct (Hk x Hx) as [(? & _) _].
Qed.

Lemma Clean_idempotent (path : string) : Clean (Clean path) = Clean path.
Proof.
  rewrite (Clean_eq (Clean path)), Clean_rooted. unfold cleaned. rewrite Clean_rooted.
  destruct (HasPrefix path "/") eqn:Hr.
  - rewrite Clean_rooted_elements by assumption. rewrite Clean_eq. unfold cleaned.
    now rewrite Hr.
  - rewrite Clean_relative_elements by assumption. rewrite Clean_eq. unfold cleaned.
    now rewrite Hr.
Qed.

Lemma HasPrefix_app_sep (a b : string) :
  HasPrefix (a +:+ String "/" b) "/" = if String.eqb a "" then true else HasPrefix a "/".
Proof. destruct a; reflexivity. Qed.

(** Cleaning the second part of a path first makes no difference. *)
Lemma Clean_inner (a b : string) :
  HasPrefix b "/" = false ->
  Clean (a +:+ String "/" (Clean b)) = Clean (a +:+ String "/" b).
Proof.
  intros Hr.
  rewrite (Clean_eq (a +:+ String "/" (Clean b))), (Clean_eq (a +:+ String "/" b)).
  unfold cleaned.
  rewrite !HasPrefix_app_sep, !elements_app_sep, !clean_elements_app.
  now rewrite Clean_relative_elements.
Qed.

Lemma Clean_child (path name : string) :
  HasPrefix path "/" = true -> plain name ->
  Clean (path +:+ String "/" name) = child (Clean path) name.
Proof.
  intros Hr Hp. rewrite !Clean_eq. unfold cleaned.
  rewrite HasPrefix_app_sep, !Hr, elements_app_sep.
  assert (Hne : String.eqb path "" = false) by (destruct path; [discriminate | reflexivity]).
  rewrite Hne. destruct Hp as (He & Hrest). rewrite He, clean_elements_app.
  rewrite clean_elements_plain by (split; assumption).
  cbn [rev]. rewrite join_sep_snoc.
  pose proof (cleaned_rooted path Hr) as Hk. unfold cleaned in Hk. rewrite Hr in Hk.
  unfold child.
  destruct (rev (clean_elements true [] (elements path))) as [|e es]; [reflexivity|].
  inversion Hk as [|? ? [(_ & Hn & _) _] _]; subst.
  destruct (join_sep_head e es Hn) as [Hj _].
  assert (Hs : String.eqb ("/" +:+ join_sep (e :: es)) "/" = false).
  { apply String.eqb_neq. intros H. apply Hj. now inversion H. }
  rewrite Hs. now rewrite !append_assoc.
Qed.

End gostrings_facts.

(** ** The security harness *)
Module security_facts.
Import os sandbox security gostrings gostrings_spec gostrings_facts.
Import security_spec.

Lemma trimLastNewline_empty : trimLastNewline "" = "".
Proof. reflexivity. Qed.

Lemma contained_iff (test : TestCase) (result : ExecutionResult) :
  ShouldBeContained (ExpectedResult test) = true ->
  validateTestResult test result = true <-> contained (ExpectedResult test) result.
Proof.
  intros Hc. unfold validateTestResult, contained. rewrite Hc.
  destruct (Z.eqb_spec (ExitCode result) (-1)) as [Hm|Hm]; [tauto|].
  destruct (Z.eqb_spec (ExitCode result) 0) as [Hz|Hz]; cbn [negb]; [|tauto].
  destruct (String.eqb_spec (ExpectedOutput (ExpectedResult test)) "") as [He|He];
    cbn [negb andb].
  - destruct (String.eqb_spec (Stderr result) "") as [Hs|Hs]; cbn [negb].
    + split; [discriminate|]. intros [?|[?|[[? _]|?]]]; congruence.
    + tauto.
  - destruct (String.eqb_spec (Stdout result) "") as [Ho|Ho]; cbn [negb andb].
    + assert (Hno : ~ occurs_in (ExpectedOutput (ExpectedResult test))
                        (trimLastNewline (Stdout result))).
      { rewrite Ho, trimLastNewline_empty. intros H%Contains_spec.
        now apply Contains_empty in H. }
      destruct (String.eqb_spec (Stderr result) "") as [Hs|Hs]; cbn [negb].
      * split; [discriminate|]. intros [?|[?|[[_ ?]|?]]]; congruence || tauto.
      * tauto.
    + destruct (Contains (trimLastNewline (Stdout result))
                  (ExpectedOutput (ExpectedResult test))) eqn:Hin; cbn [orb].
      * apply Contains_spec in Hin. tauto.
      * assert (Hno : ~ occurs_in (ExpectedOutput (ExpectedResult test))
                          (trimLastNewline (Stdout result))).
        { intros H%Contains_spec. congruence. }
        destruct (String.eqb_spec (trimLastNewline (Stdout result))
                    (ExpectedOutput (ExpectedResult test))) as [Heq|Heq].
        -- rewrite Heq, Contains_refl in Hin. discriminate.
        -- destruct (String.eqb_spec (Stderr result) "") as [Hs|Hs]; cbn [negb].
           ++ split; [discriminate|]. intros [?|[?|[[_ ?]|?]]]; congruence || tauto.
           ++ tauto.
Qed.

Lemma succeeded_iff (test : TestCase) (result : ExecutionResult) :
  ShouldBeContained (ExpectedResult test) = false ->
  validateTestResult test result = true <-> succeeded (ExpectedResult test) result.
Proof.
  intros Hc. unfold validateTestResult, succeeded. rewrite Hc.
  destruct (Z.eqb_spec (ExitCode result) (ExpectedExitCode (ExpectedResult test)))
    as [Hx|Hx]; [|split; [discriminate | tauto]].
  destruct (String.eqb_spec (ExpectedOutput (ExpectedResult test)) "") as [He|He];
    cbn [negb].
  - tauto.
  - destruct (Contains (Stdout result) (ExpectedOutput (ExpectedResult test)))
      eqn:Hin; cbn [orb].
    + apply Contains_spec in Hin. tauto.
    + destruct (String.eqb_spec (Stdout result)
                  (ExpectedOutput (ExpectedResult test))) as [Heq|Heq].
      * rewrite Heq, Contains_refl in Hin. discriminate.
      * split; [discriminate|]. intros [_ H]. apply H, Contains_spec in He.
        congruence.
Qed.

(** C2, amended. A case that expects containment passes if and only if the
    exit code is -1, or the exit code is not 0, or the case declares an
    expected output and the captured stdout, with one trailing line feed
    removed when it ends in one, contains it, or the captured stderr is not
    empty. A case that does not expect containment passes if and only if the
    exit code equals the expected one and, when an expected output is
    declared, the captured stdout contains it. *)
Theorem validateTestResult_adjudication (test : TestCase) (result : ExecutionResult) :
  validateTestResult test result = true <->
  if ShouldBeContained (ExpectedResult test)
  then contained (ExpectedResult test) result
  else succeeded (ExpectedResult test) result.
Proof.
  destruct (ShouldBeContained (ExpectedResult test)) eqn:Hc.
  - now apply contained_iff.
  - now apply succeeded_iff.
Qed.

(** C2 as stated fails: the case expects the output [Access denied] followed
    by a line feed, the run prints exactly that, exits with 0 and leaves
    stderr empty. The stdout contains the expected output, and yet the case
    is not passed, because the line feed is cut off before the comparison. *)
Lemma validateTestResult_newline_counterexample :
  ShouldBeContained (ExpectedResult examples.newline_case) = true /\
  ~ (validateTestResult examples.newline_case examples.newline_result = true <->
     ExitCode examples.newline_result = -1 \/
     ExitCode examples.newline_result <> 0 \/
     (ExpectedOutput (ExpectedResult examples.newline_case) <> "" /\
      occurs_in (ExpectedOutput (ExpectedResult examples.newline_case))
                (Stdout examples.newline_result)) \/
     Stderr examples.newline_result <> "").
Proof.
  split; [reflexivity|]. intros [_ H].
  assert (Hv : validateTestResult examples.newline_case examples.newline_result = false)
    by (vm_compute; reflexivity).
  rewrite Hv in H. enough (false = true) by discriminate. apply H.
  right. right. left. split.
  - vm_compute. discriminate.
  - apply Contains_spec. vm_compute. reflexivity.
Qed.

(** C10. When the executor call returns an error, the report carries that
    error and no result, and its passed flag is the case's should-be-contained
    expectation: a pass for a case that expects containment, a failure for
    one that does not. *)
Theorem RunTest_execution_error (tf : TestFramework) (test : TestCase)
    (s s' : St) (msg : string) :
  Execute (executor tf) context.Background (Language test) (Code test) s
    = (Some (Err msg), s') ->
  exists report,
    RunTest tf test s = (Some report, s') /\
    Passed report = ShouldBeContained (ExpectedResult test) /\
    security.Error report = Some msg /\
    ActualResult report = None.
Proof.
  intros Hx. unfold RunTest, bind, now. cbn. rewrite Hx. cbn.
  eexists. split; [reflexivity|]. cbn. auto.
Qed.

Lemma RunTest_execution_error_witness :
  Execute (executor (NewTestFramework examples.full_disk_world)) context.Background
    (Language examples.valid_case) (Code examples.valid_case) st0
    = (Some (Err "failed to create temp directory: no space left on device"),
       {| trace := [EvMkdirTemp "forgeai-container-*"]; clock := 0 |}) /\
  exists report,
    RunTest (NewTestFramework examples.full_disk_world) examples.valid_case st0
      = (Some report, {| trace := [EvMkdirTemp "forgeai-container-*"]; clock := 0 |}) /\
    Passed report = ShouldBeContained (ExpectedResult examples.valid_case) /\
    security.Error report
      = Some "failed to create temp directory: no space left on device" /\
    ActualResult report = None.
Proof.
  split; [reflexivity|].
  apply (RunTest_execution_error (NewTestFramework examples.full_disk_world)
           examples.valid_case st0).
  reflexivity.
Defined.

End security_facts.

(** ** Deadlines and child processes *)
Module exec_facts.
Import os context exec sandbox.
Import exec_spec.

Lemma wait_expires (left : option Z) (p : Process) :
  expires_first left p ->
  exists f, wait left p = Some f /\ ctx_err f = DeadlineExceeded.
Proof.
  destruct left as [d|]; [|intros []]. intros [Hs He]. unfold wait.
  destruct (d <=? 0); [eexists; split; reflexivity|].
  rewrite Hs. destruct (exit_at p) as [[t st]|].
  - destruct (Z.ltb_spec t d); [lia|]. eexists; split; reflexivity.
  - eexists; split; reflexivity.
Qed.

Lemma wait_exits (left : option Z) (p : Process) (t status : Z) :
  exits_first left p t status -> wait left p = Some (exits p t status).
Proof.
  intros (Hs & He & Hl). unfold wait. rewrite Hs, He.
  destruct left as [d|]; [|reflexivity]. destruct Hl as [Hd Ht].
  destruct (Z.leb_spec d 0); [lia|]. destruct (Z.ltb_spec t d); [reflexivity|lia].
Qed.

Lemma resultOf_deadline (f : Finished) :
  ctx_err f = DeadlineExceeded ->
  Stderr (resultOf f) = "Execution timed out" /\ ExitCode (resultOf f) = -1 /\
  Stdout (resultOf f) = output f.
Proof. intros H. unfold resultOf. rewrite H. auto. Qed.

(** With nothing left holding the pipe the call returns as the child ends. *)
Lemma collect_released (left : option Z) (p : Process) :
  (forall kill, lingering p kill = Released) -> collect left p = wait left p.
Proof.
  intros Hfree. unfold collect, pipe_closed.
  destruct (wait left p) as [f|] eqn:Hw; [|reflexivity].
  rewrite Hfree. unfold wait in Hw.
  destruct left as [d|].
  - destruct (Z.leb_spec d 0); [inversion Hw; reflexivity|].
    destruct (start_err p); [inversion Hw; reflexivity|].
    destruct (exit_at p) as [[t st]|].
    + destruct (Z.ltb_spec t d); inversion Hw; subst f.
      * unfold exits, overdue. cbn [err ctx_err elapsed output].
        destruct (Z.leb_spec d t); [lia|]. now destruct (st =? 0).
      * unfold killed, overdue. cbn [err ctx_err elapsed output]. now rewrite Z.leb_refl.
    + inversion Hw; subst f. unfold killed, overdue. cbn [err ctx_err elapsed output]. now rewrite Z.leb_refl.
  - destruct (start_err p); [inversion Hw; reflexivity|].
    destruct (exit_at p) as [[t st]|]; [|discriminate].
    inversion Hw; subst f. unfold exits, overdue. cbn [err ctx_err elapsed output].
    now destruct (st =? 0).
Qed.

(** A deadline that passes first: the call blocks if the pipe is held for
    ever after the kill, and otherwise returns with the deadline exceeded. *)
Lemma collect_expires (left : option Z) (p : Process) :
  expires_first left p ->
  if held_after_kill left p then collect left p = None
  else exists f, collect left p = Some f /\ ctx_err f = DeadlineExceeded.
Proof.
  destruct left as [d|]; [|intros []]. intros [Hs He].
  assert (Hw : d <= 0 /\ wait (Some d) p = Some {| output := ""; err := Some (OtherError "context deadline exceeded");
                elapsed := 0; ctx_err := DeadlineExceeded |} \/ 0 < d /\ wait (Some d) p = Some (killed p d)).
  { unfold wait. destruct (Z.leb_spec d 0); [left; auto|right; split; [lia|]].
    rewrite Hs. destruct (exit_at p) as [[t st]|]; [|reflexivity].
    destruct (Z.ltb_spec t d); [lia|reflexivity]. }
  unfold held_after_kill, collect, pipe_closed.
  destruct Hw as [[Hd ->]|[Hd ->]].
  - destruct (Z.ltb_spec 0 d); [lia|]. cbn [andb err].
    eexists; split; reflexivity.
  - destruct (Z.ltb_spec 0 d); [|lia]. cbn [andb err ctx_err elapsed killed].
    destruct (lingering p (Some d)) as [|u|].
    + eexists; split; [reflexivity|]. unfold overdue. cbn [ctx_err].
      now rewrite Z.leb_refl.
    + eexists; split; [reflexivity|]. unfold overdue. cbn [ctx_err].
      destruct (Z.leb_spec d (d `max` u)); [reflexivity|lia].
    + reflexivity.
Qed.

(** A child that exits by itself in time: the call returns when the pipe
    has been closed, with the child's own status. *)
Lemma collect_exits (left : option Z) (p : Process) (t status : Z) :
  exits_first left p t status ->
  collect left p =
  match pipe_closed p None t with
  | Some c => Some {| output := written p c;
                      err := if status =? 0 then None else Some (ExitError status);
                      elapsed := c; ctx_err := overdue left c |}
  | None => None
  end.
Proof.
  intros Hx. unfold collect. rewrite (wait_exits _ _ _ _ Hx).
  unfold exits. cbn [err ctx_err elapsed]. now destruct (status =? 0).
Qed.

Lemma run_with_timeout_eq (w : World) (ctx : Context) (timeout : Z)
    (cmdArgs : list string) (dir : string) (s : St) :
  run_with_timeout w ctx timeout cmdArgs dir s =
  match collect (time_left ctx timeout (clock s)) (Command w cmdArgs dir) with
  | Some f => (Some (Ok (resultOf f)),
               {| trace := trace s ++ [EvSpawn cmdArgs];
                  clock := clock s + elapsed f |})
  | None => (None, {| trace := trace s ++ [EvSpawn cmdArgs]; clock := clock s |})
  end.
Proof.
  unfold run_with_timeout, time_left.
  destruct (0 <? timeout); destruct s as [tr c];
    unfold WithTimeout, CombinedOutput, bind, now, ret, emit, sleep, hang, remaining;
    cbn -[collect Z.add Z.sub Z.min].
  - destruct (collect _ _); reflexivity.
  - destruct (collect _ _); reflexivity.
Qed.

Lemma run_with_timeout_expires (w : World) (ctx : Context) (timeout : Z)
    (cmdArgs : list string) (dir : string) (s : St) :
  expires_first (time_left ctx timeout (clock s)) (Command w cmdArgs dir) ->
  deadline_outcome (time_left ctx timeout (clock s)) (Command w cmdArgs dir)
    (run_with_timeout w ctx timeout cmdArgs dir s).
Proof.
  intros H. unfold deadline_outcome. rewrite run_with_timeout_eq.
  pose proof (collect_expires _ _ H) as Hc.
  destruct (held_after_kill _ _).
  - now rewrite Hc.
  - destruct Hc as (f & -> & Hf).
    destruct (resultOf_deadline f Hf) as (? & ? & _).
    exists (resultOf f). auto.
Qed.

Lemma Run_eq (w : World) (ctx : Context) (argv : list string) (s : St) :
  Run w ctx argv s =
  match wait (remaining ctx (clock s)) (Command w argv "") with
  | Some f => (Some (err f), {| trace := trace s ++ [EvSpawn argv];
                                clock := clock s + elapsed f |})
  | None => (None, {| trace := trace s ++ [EvSpawn argv]; clock := clock s |})
  end.
Proof.
  destruct s as [tr c]. unfold Run, bind, now, ret, emit, sleep, hang.
  cbn -[wait Z.add]. destruct (wait _ _); reflexivity.
Qed.

Lemma spawned_app (tr : list Event) (c : Z) (e : Event) :
  spawned {| trace := tr ++ [e]; clock := c |} =
  spawned {| trace := tr; clock := c |}
    ++ match e with EvSpawn argv => [argv] | _ => [] end.
Proof.
  unfold spawned. cbn. rewrite omap_app. destruct e; reflexivity.
Qed.

End exec_facts.

(** ** The executors: languages, timeouts *)
Module executor_facts.
Import os context exec sandbox gostrings gostrings_spec gostrings_facts exec_spec exec_facts.
Import executor_spec.


Lemma builtin_cases (language : string) :
  language ∈ builtin ->
  language = "python" \/ language = "go" \/ language = "javascript".
Proof.
  unfold builtin. rewrite !elem_of_cons, elem_of_nil. tauto.
Qed.

Lemma ext_scan_after_sep (pre rest : string) (found : option string) :
  ext_scan (pre +:+ String "/" rest) found = ext_scan rest None.
Proof.
  revert found. induction pre as [|c pre IH]; intros found.
  - reflexivity.
  - rewrite append_cons. cbn [ext_scan].
    destruct (Ascii.eqb c "/"); [apply IH|].
    destruct (Ascii.eqb c "."); apply IH.
Qed.

Lemma Ext_Join (dir name : string) :
  plain name -> Ext (Join dir name) = Ext name.
Proof.
  intros Hp. destruct (Join_plain_last dir name Hp) as (pre & -> & [->|[q ->]]).
  - reflexivity.
  - unfold Ext. rewrite append_assoc. apply ext_scan_after_sep.
Qed.

Lemma language_of_source (dir language : string) :
  language ∈ builtin ->
  executor.getLanguageFromFile (Join dir (sourceName language)) = language.
Proof.
  intros H. unfold executor.getLanguageFromFile, sourceName.
  destruct (builtin_cases _ H) as [-> | [-> | ->]]; eval_eqb;
    rewrite Ext_Join by (repeat split; discriminate); reflexivity.
Qed.

Lemma command_of_builtin (language filePath : string) :
  language ∈ builtin ->
  executor.getCommandForLanguage language filePath = Ok (commandFor language filePath).
Proof.
  intros H. unfold commandFor.
  destruct (builtin_cases _ H) as [-> | [-> | ->]]; reflexivity.
Qed.

Lemma writeCodeToFile_builtin (w : World) (dir language code : string) (s : St) :
  language ∈ builtin ->
  executor.writeCodeToFile w dir language code s =
  (Some match WriteFile w (Join dir (sourceName language)) code with
        | Some msg => Err msg
        | None => Ok (Join dir (sourceName language))
        end,
   {| trace := trace s ++ [EvWriteFile (Join dir (sourceName language))];
      clock := clock s |}).
Proof.
  intros H. unfold executor.writeCodeToFile, bind, emit, ret, sourceName.
  destruct (builtin_cases _ H) as [-> | [-> | ->]]; eval_eqb;
    destruct (WriteFile w _ code); reflexivity.
Qed.

Lemma local_ExecuteFile_eq (w : World) (e : executor.LocalExecutor) (ctx : Context)
    (filePath : string) (cmdArgs : list string) :
  executor.getCommandForLanguage (executor.getLanguageFromFile filePath) filePath
    = Ok cmdArgs ->
  executor.ExecuteFile w e ctx filePath =
  run_with_timeout w ctx (executor.Timeout e) cmdArgs "".
Proof. intros H. unfold executor.ExecuteFile. rewrite H. reflexivity. Qed.

Lemma local_Execute_expires (w : World) (e : executor.LocalExecutor) (ctx : Context)
    (language code tempDir : string) (s : St) :
  language ∈ builtin ->
  MkdirTemp w "forgeai-*" = Ok tempDir ->
  WriteFile w (Join tempDir (sourceName language)) code = None ->
  expires_first (time_left ctx (executor.Timeout e) (clock s))
    (Command w (commandFor language (Join tempDir (sourceName language))) "") ->
  deadline_outcome (time_left ctx (executor.Timeout e) (clock s))
    (Command w (commandFor language (Join tempDir (sourceName language))) "")
    (executor.Execute w e ctx language code s).
Proof.
  intros Hl Hmk Hwr Hexp. unfold deadline_outcome, executor.Execute.
  rewrite Hmk. unfold bind, emit, ret. cbv beta.
  rewrite writeCodeToFile_builtin by assumption. rewrite Hwr.
  rewrite (local_ExecuteFile_eq w e ctx _
             (commandFor language (Join tempDir (sourceName language)))).
  2:{ rewrite language_of_source by assumption. now apply command_of_builtin. }
  rewrite run_with_timeout_eq. cbn [clock].
  pose proof (collect_expires _ _ Hexp) as Hc.
  destruct (held_after_kill _ _).
  - now rewrite Hc.
  - destruct Hc as (f & -> & Hf).
    destruct (resultOf_deadline f Hf) as (? & ? & _).
    exists (resultOf f). cbn. auto.
Qed.

End executor_facts.

(** ** What the executors do when the deadline passes *)
Module timeout_facts.
Import os context exec sandbox gostrings exec_spec exec_facts executor_spec executor_facts.
Import security.

(** C3. What every executor does when the deadline under which it runs its
    child passes before the child exits: the child is killed, and the call
    goes on collecting its output until the pipe is closed. If some process
    that the child had started holds the pipe for ever, the call never
    returns; otherwise it returns a result, not an error, whose stderr is
    [Execution timed out] and whose exit code is -1. This holds for
    [ExecuteFile] and [Execute] of the local executor, for [ExecuteFile] of
    the secure executor, and for both paths of the containerized executor,
    the local one and the Docker one. *)
Theorem deadline_kill_waits_for_pipe (w : World) (ctx : Context) (s : St) :
  (forall (e : executor.LocalExecutor) (filePath : string) (cmdArgs : list string),
      executor.getCommandForLanguage (executor.getLanguageFromFile filePath) filePath
        = Ok cmdArgs ->
      let left := time_left ctx (executor.Timeout e) (clock s) in
      expires_first left (Command w cmdArgs "") ->
      deadline_outcome left (Command w cmdArgs "")
        (executor.ExecuteFile w e ctx filePath s)) /\
  (forall (e : executor.LocalExecutor) (language code tempDir : string),
      language ∈ builtin ->
      MkdirTemp w "forgeai-*" = Ok tempDir ->
      WriteFile w (Join tempDir (sourceName language)) code = None ->
      let left := time_left ctx (executor.Timeout e) (clock s) in
      let p := Command w (commandFor language (Join tempDir (sourceName language))) "" in
      expires_first left p ->
      deadline_outcome left p (executor.Execute w e ctx language code s)) /\
  (forall (se : SecureExecutor.t) (filePath : string) (cmdArgs : list string),
      getCommandForLanguage (getLanguageFromFile filePath) filePath = Ok cmdArgs ->
      let left := time_left ctx (SecureExecutor.Timeout se) (clock s) in
      expires_first left (Command w cmdArgs (Dir filePath)) ->
      deadline_outcome left (Command w cmdArgs (Dir filePath))
        (SecureExecutor.ExecuteFile w se ctx filePath s)) /\
  (forall (ce : ContainerizedExecutor.t) (language filePath : string)
          (cmdArgs : list string),
      getCommandForLanguage language filePath = Ok cmdArgs ->
      let left := time_left ctx (ContainerizedExecutor.Timeout ce) (clock s) in
      expires_first left (Command w cmdArgs (Dir filePath)) ->
      deadline_outcome left (Command w cmdArgs (Dir filePath))
        (ContainerizedExecutor.executeLocally w ce ctx language filePath s)) /\
  (forall (ce : ContainerizedExecutor.t) (language filePath : string)
          (cmdArgs : list string),
      ContainerizedExecutor.dockerCommand ce language filePath = Ok cmdArgs ->
      let left := time_left ctx (ContainerizedExecutor.Timeout ce) (clock s) in
      expires_first left (Command w cmdArgs "") ->
      deadline_outcome left (Command w cmdArgs "")
        (ContainerizedExecutor.executeWithDocker w ce ctx language filePath s)).
Proof.
  repeat split.
  - intros e filePath cmdArgs Hcmd left Hexp.
    rewrite (local_ExecuteFile_eq w e ctx filePath cmdArgs Hcmd).
    now apply run_with_timeout_expires.
  - intros e language code tempDir Hl Hmk Hwr left p Hexp.
    now apply (local_Execute_expires w e ctx language code tempDir s).
  - intros se filePath cmdArgs Hcmd left Hexp.
    unfold SecureExecutor.ExecuteFile. rewrite Hcmd.
    now apply (run_with_timeout_expires w ctx (SecureExecutor.Timeout se)).
  - intros ce language filePath cmdArgs Hcmd left Hexp.
    unfold ContainerizedExecutor.executeLocally. rewrite Hcmd.
    now apply (run_with_timeout_expires w ctx (ContainerizedExecutor.Timeout ce)).
  - intros ce language filePath cmdArgs Hcmd left Hexp.
    unfold ContainerizedExecutor.executeWithDocker. rewrite Hcmd.
    now apply (run_with_timeout_expires w ctx (ContainerizedExecutor.Timeout ce)).
Qed.

Lemma deadline_kill_waits_for_pipe_witness :
  fst (executor.Execute examples.go_world executor.NewLocalExecutor
         Background "go" examples.go_loop st0) = None /\
  fst (executor.ExecuteFile examples.go_world executor.NewLocalExecutor
         Background "/srv/jobs/loop.go" st0) = None /\
  fst (SecureExecutor.ExecuteFile examples.go_world
         SecureExecutor.NewSecureExecutor Background "/srv/jobs/loop.go" st0) = None /\
  fst (ContainerizedExecutor.executeLocally examples.go_world
         ContainerizedExecutor.NewContainerizedExecutor Background
         "go" "/srv/jobs/loop.go" st0) = None /\
  timed_out (executor.Execute examples.go_world executor.NewLocalExecutor
               Background "python" "while True: pass" st0) /\
  timed_out (ContainerizedExecutor.executeWithDocker examples.spin_world
               ContainerizedExecutor.NewContainerizedExecutor Background
               "python" "/srv/jobs/loop.py" st0).
Proof.
  destruct (deadline_kill_waits_for_pipe examples.go_world Background st0)
    as (H1 & H2 & H3 & H4 & _).
  destruct (deadline_kill_waits_for_pipe examples.spin_world Background st0)
    as (_ & _ & _ & _ & H5).
  split; [|split; [|split; [|split; [|split]]]].
  - apply (H2 executor.NewLocalExecutor "go" examples.go_loop "/tmp/forgeai-7");
      [ unfold builtin; rewrite !elem_of_cons; auto
      | reflexivity | reflexivity
      | vm_compute; split; [reflexivity | exact I] ].
  - apply (H1 executor.NewLocalExecutor "/srv/jobs/loop.go"
             ["go"; "run"; "/srv/jobs/loop.go"]);
      [reflexivity | vm_compute; split; [reflexivity | exact I]].
  - apply (H3 SecureExecutor.NewSecureExecutor "/srv/jobs/loop.go"
             ["go"; "run"; "/srv/jobs/loop.go"]);
      [reflexivity | vm_compute; split; [reflexivity | exact I]].
  - apply (H4 ContainerizedExecutor.NewContainerizedExecutor "go" "/srv/jobs/loop.go"
             ["go"; "run"; "/srv/jobs/loop.go"]);
      [reflexivity | vm_compute; split; [reflexivity | exact I]].
  - apply (H2 executor.NewLocalExecutor "python" "while True: pass" "/tmp/forgeai-7");
      [ unfold builtin; apply list_elem_of_here
      | reflexivity | reflexivity
      | vm_compute; split; [reflexivity | exact I] ].
  - apply (H5 ContainerizedExecutor.NewContainerizedExecutor "python"
             "/srv/jobs/loop.py"
             ["docker"; "run"; "--rm"; "-v"; "/srv/jobs:/workspace:ro";
              "-w"; "/workspace"; "--memory"; "128m"; "--cpu-shares"; "100";
              "--read-only"; "--tmpfs"; "/tmp:rw,noexec,nosuid,size=10m";
              "--network"; "none"; "--user"; "65534:65534";
              "python:3.9-alpine"; "python"; "loop.py"]);
      [reflexivity | vm_compute; split; [reflexivity | exact I]].
Defined.

End timeout_facts.

(** ** Languages outside the built-in three *)
Module language_facts.
Import os context exec sandbox gostrings exec_spec exec_facts executor_spec executor_facts.
Import container.
Import language_spec.










End language_facts.

(** ** The external-executor wrapper of the plugin manager *)
Module plugin_facts.
Import os context exec sandbox gostrings exec_spec exec_facts.
Import plugin.
Import plugin_spec.

Lemma CombinedOutput_eq (w : World) (ctx : Context) (argv : list string)
    (dir : string) (s : St) :
  CombinedOutput w ctx argv dir s =
  match collect (remaining ctx (clock s)) (Command w argv dir) with
  | Some f => (Some f, {| trace := trace s ++ [EvSpawn argv];
                          clock := clock s + elapsed f |})
  | None => (None, {| trace := trace s ++ [EvSpawn argv]; clock := clock s |})
  end.
Proof.
  destruct s as [tr c]. unfold CombinedOutput, bind, now, ret, emit, sleep, hang.
  cbn -[collect Z.add]. destruct (collect _ _); reflexivity.
Qed.

Lemma wait_fails (left : option Z) (p : Process) :
  fails p -> exists f er, wait left p = Some f /\ err f = Some er.
Proof.
  intros Hf. unfold wait.
  assert (Hno : forall d : Z,
             exists f er,
               match start_err p with
               | Some msg => Some {| output := ""; err := Some (OtherError msg);
                                     elapsed := 0; ctx_err := NoErr |}
               | None =>
                   match exit_at p with
                   | Some (t, status) =>
                       if t <? d then Some (exits p t status) else Some (killed p d)
                   | None => Some (killed p d)
                   end
               end = Some f /\ err f = Some er).
  { intros d. destruct (start_err p) as [msg|] eqn:Hs.
    - eexists _, _. split; reflexivity.
    - destruct Hf as [Hf|(t & st & He & Hst)]; [congruence|]. rewrite He.
      destruct (t <? d).
      + eexists _, _. split; [reflexivity|]. cbn.
        destruct (Z.eqb_spec st 0); [contradiction|reflexivity].
      + eexists _, _. split; reflexivity. }
  destruct left as [d|].
  - destruct (d <=? 0); [eexists _, _; split; reflexivity | apply Hno].
  - destruct (start_err p) as [msg|] eqn:Hs.
    + eexists _, _. split; reflexivity.
    + destruct Hf as [Hf|(t & st & He & Hst)]; [congruence|]. rewrite He.
      eexists _, _. split; [reflexivity|]. cbn.
      destruct (Z.eqb_spec st 0); [contradiction|reflexivity].
Qed.

Lemma wait_clean (left : option Z) (p : Process) (f : Finished) :
  wait left p = Some f /\ err f = None <->
  exists t, exits_first left p t 0 /\ f = exits p t 0.
Proof.
  split.
  - intros [Hw He]. unfold wait in Hw. unfold exits_first.
    destruct left as [d|].
    + destruct (Z.leb_spec d 0); [inversion Hw; subst f; discriminate|].
      destruct (start_err p) as [msg|]; [inversion Hw; subst f; discriminate|].
      destruct (exit_at p) as [[t st]|]; [|inversion Hw; subst f; discriminate].
      destruct (Z.ltb_spec t d); [|inversion Hw; subst f; discriminate].
      inversion Hw; subst f. cbn in He.
      destruct (Z.eqb_spec st 0); [subst st|discriminate].
      exists t. repeat split; auto; lia.
    + destruct (start_err p) as [msg|]; [inversion Hw; subst f; discriminate|].
      destruct (exit_at p) as [[t st]|]; [|discriminate].
      inversion Hw; subst f. cbn in He.
      destruct (Z.eqb_spec st 0); [subst st|discriminate].
      exists t. repeat split; auto.
  - intros (t & Hx & ->). split; [now apply wait_exits | reflexivity].
Qed.

(** A child that fails makes the collecting call return an error, once
    the pipe is let go. *)
Lemma collect_fails (left : option Z) (p : Process) :
  fails p -> lets_go p -> exists f er, collect left p = Some f /\ err f = Some er.
Proof.
  intros Hf Hgo. destruct (wait_fails left p Hf) as (f & er & Hw & He).
  unfold collect, pipe_closed. rewrite Hw, He.
  destruct er as [code|msg]; [|eexists _, _; split; [reflexivity|exact He]].
  match goal with
  | |- context [lingering p ?k] => pose proof (Hgo k) as Hk; destruct (lingering p k)
  end; [| |contradiction]; eexists _, _; split; reflexivity.
Qed.

(** The collecting call returns without an error just when the child exits
    by itself with status 0 and the pipe is closed. *)
Lemma collect_clean (left : option Z) (p : Process) (f : Finished) :
  collect left p = Some f /\ err f = None <->
  exists t c, exits_first left p t 0 /\ pipe_closed p None t = Some c /\
              f = {| output := written p c; err := None; elapsed := c;
                     ctx_err := overdue left c |}.
Proof.
  split.
  - intros [Hc He]. unfold collect in Hc.
    destruct (wait left p) as [f0|] eqn:Hw; [|discriminate].
    destruct (err f0) as [[code|msg]|] eqn:He0.
    + destruct (pipe_closed p _ _); [|discriminate].
      inversion Hc; subst f. discriminate He.
    + inversion Hc; subst f. congruence.
    + destruct (proj1 (wait_clean left p f0) (conj Hw He0)) as (t & Hx & ->).
      cbn [ctx_err exits elapsed] in Hc.
      destruct (pipe_closed p None t) as [c|] eqn:Hp; [|discriminate].
      inversion Hc; subst f. exists t, c. auto.
  - intros (t & c & Hx & Hp & ->). rewrite (collect_exits _ _ _ _ Hx), Hp. auto.
Qed.

Lemma call_fails (w : World) (j : Json) (ctx : Context) (argv : list string)
    (label : string) (s : St) :
  fails (Command w argv "") -> lets_go (Command w argv "") ->
  exists msg s', call w j ctx argv label s = (Some (Err (label +:+ msg)), s').
Proof.
  intros Hf Hgo. unfold call, bind. rewrite CombinedOutput_eq.
  destruct (collect_fails (remaining ctx (clock s)) _ Hf Hgo) as (f & er & -> & He).
  rewrite He. eexists _, _. reflexivity.
Qed.

Lemma call_accepts (w : World) (j : Json) (ctx : Context) (argv : list string)
    (label : string) (s : St) (r : ExecutionResult) :
  fst (call w j ctx argv label s) = Some (Ok r) <->
  exists t c, exits_first (remaining ctx (clock s)) (Command w argv "") t 0 /\
              pipe_closed (Command w argv "") None t = Some c /\
              UnmarshalExecutionResult j (written (Command w argv "") c) = Ok r.
Proof.
  unfold call, bind. rewrite CombinedOutput_eq. split.
  - destruct (collect _ _) as [f|] eqn:Hw; [|discriminate].
    destruct (err f) as [er|] eqn:He; [discriminate|].
    destruct (proj1 (collect_clean _ _ _) (conj Hw He)) as (t & c & Hx & Hp & ->).
    cbn [output].
    destruct (UnmarshalExecutionResult j _) as [r'|msg] eqn:Hu; [|discriminate].
    intros [= ->]. exists t, c. auto.
  - intros (t & c & Hx & Hp & Hu). rewrite (collect_exits _ _ _ _ Hx), Hp.
    cbn. rewrite Hu. reflexivity.
Qed.

(** C9. A plugin process that cannot be started, or that exits with a
    status other than 0 while no process it has started holds its output
    for ever, makes the wrapper return an error, whatever the JSON decoder
    would say of its output. The wrapper returns a result just when the
    process exits by itself with status 0 (before any deadline of the
    context), its output has been closed, and the combined output collected
    until then decodes to that result. Both hold for [Execute] and for
    [ExecuteFile]. *)
Theorem plugin_accepted_only_on_clean_exit (w : World) (j : Json)
    (e : ExternalExecutor) (ctx : Context) (s : St) :
  (forall language code : string,
      let p := Command w [binaryPath e; "execute"; language; code] "" in
      (fails p -> lets_go p ->
       exists msg s', Execute w j e ctx language code s
                      = (Some (Err ("failed to execute code: " +:+ msg)), s')) /\
      (forall r, fst (Execute w j e ctx language code s) = Some (Ok r) <->
                 exists t c, exits_first (remaining ctx (clock s)) p t 0 /\
                             pipe_closed p None t = Some c /\
                             UnmarshalExecutionResult j (written p c) = Ok r)) /\
  (forall filePath : string,
      let p := Command w [binaryPath e; "execute-file"; filePath] "" in
      (fails p -> lets_go p ->
       exists msg s', ExecuteFile w j e ctx filePath s
                      = (Some (Err ("failed to execute file: " +:+ msg)), s')) /\
      (forall r, fst (ExecuteFile w j e ctx filePath s) = Some (Ok r) <->
                 exists t c, exits_first (remaining ctx (clock s)) p t 0 /\
                             pipe_closed p None t = Some c /\
                             UnmarshalExecutionResult j (written p c) = Ok r)).
Proof.
  split.
  - intros language code p. split.
    + intros Hf Hgo. exact (call_fails w j ctx _ "failed to execute code: " s Hf Hgo).
    + intros r. exact (call_accepts w j ctx _ "failed to execute code: " s r).
  - intros filePath p. split.
    + intros Hf Hgo. exact (call_fails w j ctx _ "failed to execute file: " s Hf Hgo).
    + intros r. exact (call_accepts w j ctx _ "failed to execute file: " s r).
Qed.

Lemma plugin_accepted_only_on_clean_exit_witness :
  (exists msg s',
      Execute (examples.plugin_world 3) examples.toy_json examples.hello_executor
        Background "hello" "World" st0
      = (Some (Err ("failed to execute code: " +:+ msg)), s')) /\
  fst (ExecuteFile (examples.plugin_world 0) examples.toy_json examples.hello_executor
         Background "/srv/jobs/greeting.hello" st0)
    = Some (Ok examples.hello_result).
Proof.
  split.
  - apply (proj1 (proj1 (plugin_accepted_only_on_clean_exit
                           (examples.plugin_world 3) examples.toy_json
                           examples.hello_executor Background st0)
                    "hello" "World")).
    + right. exists (5 * Millisecond), 3. split; [reflexivity | lia].
    + intros kill. discriminate.
  - apply (proj2 (proj2 (plugin_accepted_only_on_clean_exit
                           (examples.plugin_world 0) examples.toy_json
                           examples.hello_executor Background st0)
                    "/srv/jobs/greeting.hello")).
    exists (5 * Millisecond), (5 * Millisecond). split; [|split; reflexivity].
    split; [reflexivity | split; [reflexivity | exact I]].
Defined.

(** C9 as stated fails: the plugin prints a well-formed result, starts a
    process that keeps its stdout, and exits with status 3. The wrapper
    returns no error: it waits for the pipe and never returns. *)
Lemma failed_plugin_blocks_counterexample :
  fails (Command examples.daemon_world
           [binaryPath examples.hello_executor; "execute"; "hello"; "World"] "") /\
  fst (Execute examples.daemon_world examples.toy_json examples.hello_executor
         Background "hello" "World" st0) = None.
Proof.
  split; [|reflexivity].
  right. exists (5 * Millisecond), 3. split; [reflexivity | lia].
Qed.

End plugin_facts.

(** ** Executor resolution of the CLI *)
Module cli_facts.
Import os context exec sandbox gostrings.
Import plugin cli.
Import cli_spec.

Lemma register_lookup_in (e : ExternalExecutor) (langs : list string) (m : Manager)
    (l : string) :
  l ∈ langs -> plugins (register e langs m) !! l = Some e.
Proof.
  unfold register. cbn [plugins]. generalize (plugins m) as acc.
  induction langs as [|x langs IH] using rev_ind; intros acc Hin.
  - now apply elem_of_nil in Hin.
  - rewrite foldl_app. cbn [foldl].
    destruct (decide (x = l)) as [->|Hne].
    + apply lookup_insert_eq.
    + rewrite lookup_insert_ne by assumption. apply IH.
      apply elem_of_app in Hin as [Hin|Hin]; [assumption|].
      apply list_elem_of_singleton in Hin. congruence.
Qed.

Lemma register_lookup_notin (e : ExternalExecutor) (langs : list string) (m : Manager)
    (l : string) :
  l ∉ langs -> plugins (register e langs m) !! l = plugins m !! l.
Proof.
  unfold register. cbn [plugins]. generalize (plugins m) as acc.
  induction langs as [|x langs IH]; intros acc Hin; [reflexivity|].
  cbn [foldl]. rewrite IH by (intros H; apply Hin; now right).
  apply lookup_insert_ne. intros ->. apply Hin. now left.
Qed.


Lemma sound_register (p : ExternalExecutor) (m : Manager) :
  sound m -> sound (register p (languages p) m).
Proof.
  intros Hm l q Hq. destruct (decide (l ∈ languages p)) as [Hin|Hin].
  - rewrite register_lookup_in in Hq by assumption. congruence.
  - rewrite register_lookup_notin in Hq by assumption. eauto.
Qed.

(** Whether a plugin directory loads does not depend on the manager, and a
    directory that loads registers one executor for its declared languages. *)
Lemma LoadPlugin_cases (w : World) (j : Json) (d : string) :
  (exists msg, forall m, LoadPlugin w j m d = Err msg) \/
  (exists p, forall m, LoadPlugin w j m d = Ok (register p (languages p) m)).
Proof.
  unfold LoadPlugin.
  destruct (ReadFile w _) as [data|msg]; [|left; eexists; reflexivity].
  destruct (UnmarshalManifest j data) as [mf|msg]; [|left; eexists; reflexivity].
  destruct (Exists w (Join d (Name mf))).
  - right. exists (NewExternalExecutor (Join d (Name mf)) (Languages mf)).
    reflexivity.
  - destruct (Exists w _).
    + right. exists (NewExternalExecutor (Join d (Name mf +:+ ".exe")) (Languages mf)).
      reflexivity.
    + left. eexists. reflexivity.
Qed.

(** A directory claims a language just when loading it alone registers an
    executor for the language. *)
Lemma claims_loaded (w : World) (j : Json) (d l : string) :
  claims w j d l <->
  exists m p, LoadPlugin w j NewManager d = Ok m /\ plugins m !! l = Some p.
Proof.
  unfold claims, LoadPlugin. split.
  - intros (data & mf & -> & -> & Hin & Hex).
    destruct (Exists w (Join d (Name mf))) eqn:H1.
    + eexists _, _. split; [reflexivity|]. now apply register_lookup_in.
    + destruct Hex as [Hex|Hex]; [discriminate|]. rewrite Hex.
      eexists _, _. split; [reflexivity|]. now apply register_lookup_in.
  - intros (m & p & Hload & Hp).
    destruct (ReadFile w _) as [data|msg] eqn:Hr; [|discriminate].
    destruct (UnmarshalManifest j data) as [mf|msg] eqn:Hu; [|discriminate].
    exists data, mf. split; [reflexivity|]. split; [exact Hu|].
    assert (Hin : forall e, plugins (register e (Languages mf) NewManager) !! l = Some p ->
                            l ∈ Languages mf).
    { intros e He. destruct (decide (l ∈ Languages mf)) as [|Hn]; [assumption|].
      rewrite register_lookup_notin in He by assumption. cbn in He.
      now rewrite lookup_empty in He. }
    destruct (Exists w (Join d (Name mf))) eqn:H1.
    + injection Hload as <-. split; [eapply Hin; eassumption | now left].
    + destruct (Exists w (Join d (Name mf +:+ ".exe"))) eqn:H2; [|discriminate].
      injection Hload as <-. split; [eapply Hin; eassumption | now right].
Qed.

Lemma loadEntries_spec (w : World) (j : Json) (dir : string)
    (entries : list DirEntry) :
  forall (m : Manager) (s : St),
  exists m' s',
    loadEntries w j dir entries m s = (Some m', s') /\
    spawned s' = spawned s /\
    (sound m -> sound m') /\
    (forall l, is_Some (plugins m !! l) -> is_Some (plugins m' !! l)) /\
    (forall entry l, entry ∈ entries -> IsDir entry = true ->
                     claims w j (Join dir (os.Name entry)) l ->
                     is_Some (plugins m' !! l)).
Proof.
  induction entries as [|entry rest IH]; intros m s.
  - exists m, s. repeat split; auto.
    intros entry l Hin. now apply elem_of_nil in Hin.
  - cbn [loadEntries]. destruct (IsDir entry) eqn:Hdir.
    + destruct (LoadPlugin_cases w j (Join dir (os.Name entry)))
        as [[msg Hl]|[p Hl]]; rewrite Hl.
      * unfold bind, emit. cbv beta.
        destruct (IH m {| trace := trace s ++ [EvPrint
                    ("Warning: failed to load plugin " +:+ os.Name entry
                       +:+ ": " +:+ msg)]; clock := clock s |})
          as (m' & s' & -> & Hsp & Hs & Hmono & Hcl).
        exists m', s'. repeat split; auto.
        -- rewrite Hsp. destruct s as [tr c]. cbn [trace clock].
           rewrite exec_facts.spawned_app. apply app_nil_r.
        -- intros entry0 l Hin Hd0 Hc.
           apply elem_of_cons in Hin as [->|Hin]; [|eauto].
           apply claims_loaded in Hc.
           destruct Hc as (m0 & p0 & Hc & _). rewrite Hl in Hc. discriminate.
      * destruct (IH (register p (languages p) m) s)
          as (m' & s' & -> & Hsp & Hs & Hmono & Hcl).
        exists m', s'. repeat split; auto.
        -- intros Hm. now apply Hs, sound_register.
        -- intros l Hl'. apply Hmono.
           destruct (decide (l ∈ languages p)) as [Hin|Hin].
           ++ rewrite register_lookup_in by assumption. eauto.
           ++ now rewrite register_lookup_notin by assumption.
        -- intros entry0 l Hin Hd0 Hc.
           apply elem_of_cons in Hin as [->|Hin]; [|eauto].
           apply Hmono. apply claims_loaded in Hc. destruct Hc as (m0 & p0 & Hc & Hp0).
           rewrite Hl in Hc. injection Hc as <-.
           destruct (decide (l ∈ languages p)) as [Hin|Hin].
           ++ rewrite register_lookup_in by assumption. eauto.
           ++ rewrite register_lookup_notin in Hp0 by assumption.
              cbn in Hp0. now rewrite lookup_empty in Hp0.
    + destruct (IH m s) as (m' & s' & -> & Hsp & Hs & Hmono & Hcl).
      exists m', s'. repeat split; auto.
      intros entry0 l Hin Hd0 Hc.
      apply elem_of_cons in Hin as [->|Hin]; [congruence|eauto].
Qed.





End cli_facts.

(** ** The job manager *)
Module api_facts.
Import sandbox api.
Import api_spec.

Lemma wf_new : wf NewJobManager.
Proof.
  split; cbn; intros *; rewrite lookup_empty; discriminate.
Qed.

Lemma wf_update (ptr : nat) (f : Job -> Job) (jm : JobManager) :
  wf jm -> wf (update ptr f jm).
Proof.
  intros [Hb Hi]. split; cbn [update heap jobs].
  - intros id p Hp. rewrite length_alter. eauto.
  - exact Hi.
Qed.

Lemma wf_allocate (job : Job) (jm : JobManager) :
  wf jm -> wf (fst (allocate job jm)).
Proof.
  intros [Hb Hi]. split; cbn [allocate fst heap jobs].
  - intros id p. rewrite length_app. cbn [length].
    destruct (decide (ID job = id)) as [->|Hne].
    + rewrite lookup_insert_eq. intros [= <-]. lia.
    + rewrite lookup_insert_ne by assumption. intros Hp%Hb. lia.
  - intros id1 id2 p.
    destruct (decide (ID job = id1)) as [<-|H1], (decide (ID job = id2)) as [<-|H2];
      rewrite ?lookup_insert_eq, ?lookup_insert_ne by assumption.
    + reflexivity.
    + intros [= <-] Hp%Hb. lia.
    + intros Hp%Hb [= <-]. lia.
    + apply Hi.
Qed.

Lemma wf_CancelJob (jm : JobManager) (id : string) (now : Z) :
  wf jm -> wf (fst (CancelJob jm id now)).
Proof.
  intros H. unfold CancelJob.
  destruct (jobs jm !! id) as [ptr|]; [|exact H].
  destruct (heap jm !! ptr) as [job|]; [|exact H].
  destruct (_ || _); [now apply wf_update | exact H].
Qed.

Lemma wf_step (jm : JobManager) (a : Action) : wf jm -> wf (step jm a).
Proof.
  destruct a; cbn [step]; intros H.
  - now apply wf_CancelJob.
  - now apply wf_update.
  - now apply wf_update.
Qed.

Lemma wf_handleExecuteCode (jm : JobManager) (body : ExecuteBody) (nanos now : Z) :
  wf jm -> wf (manager (handleExecuteCode jm body nanos now)).
Proof.
  intros H. unfold handleExecuteCode.
  destruct (ShouldBindJSON true false body) as [req|msg]; [|exact H].
  unfold CreateJob.
  match goal with
  | |- context [allocate ?j jm] =>
      pose proof (wf_allocate j jm H) as Ha; destruct (allocate j jm) as [jm1 ptr]
  end.
  cbn [manager]. now apply wf_update.
Qed.

Lemma wf_handleExecuteFile (jm : JobManager) (body : ExecuteBody) (nanos now : Z) :
  wf jm -> wf (manager (handleExecuteFile jm body nanos now)).
Proof.
  intros H. unfold handleExecuteFile.
  destruct (ShouldBindJSON false true body) as [req|msg]; [|exact H].
  unfold CreateFileJob.
  match goal with
  | |- context [allocate ?j jm] =>
      pose proof (wf_allocate j jm H) as Ha; destruct (allocate j jm) as [jm1 ptr]
  end.
  cbn [manager]. now apply wf_update.
Qed.

(** *** Listing *)

Lemma selected_iff (hp : list Job) (status language : string) (ptr : nat) :
  selected hp status language ptr = true <->
  exists job, hp !! ptr = Some job /\ matches status language job.
Proof.
  unfold selected, matches. destruct (hp !! ptr) as [job|].
  - rewrite andb_true_iff, !orb_true_iff, !String.eqb_eq. split.
    + intros H. exists job. auto.
    + intros (job' & [= <-] & H). exact H.
  - split; [discriminate | intros (job & H & _); discriminate].
Qed.

Lemma ListJobs_over_filter (hp : list Job) (entries : list (string * nat))
    (status language : string) :
  ListJobs_over hp entries status language
  = List.filter (selected hp status language) (entries.*2).
Proof.
  induction entries as [|[id ptr] rest IH]; [reflexivity|].
  cbn [ListJobs_over fmap list_fmap snd List.filter]. unfold selected at 1.
  destruct (hp !! ptr) as [job|]; [|exact IH].
  destruct (_ && _); [now rewrite IH | exact IH].
Qed.

Lemma filter_Permutation {A} (f : A -> bool) (l1 l2 : list A) :
  l1 ≡ₚ l2 -> List.filter f l1 ≡ₚ List.filter f l2.
Proof.
  induction 1 as [|x l1 l2 _ IH|x y l|l1 l2 l3 _ IH1 _ IH2]; cbn [List.filter].
  - constructor.
  - destruct (f x); [now constructor | exact IH].
  - destruct (f x), (f y); try reflexivity. constructor.
  - now transitivity (List.filter f l2).
Qed.

Lemma filter_all {A} (f : A -> bool) (l : list A) :
  (forall x, x ∈ l -> f x = true) -> List.filter f l = l.
Proof.
  induction l as [|x l IH]; intros H; [reflexivity|]. cbn [List.filter].
  rewrite (H x) by now left. rewrite IH; [reflexivity|].
  intros y Hy. apply H. now right.
Qed.

Lemma NoDup_filter {A} (f : A -> bool) (l : list A) :
  NoDup l -> NoDup (List.filter f l).
Proof.
  induction 1 as [|x l Hx _ IH]; cbn [List.filter]; [constructor|].
  destruct (f x); [|exact IH]. constructor; [|exact IH].
  intros Hin%list_elem_of_In%filter_In. apply Hx, list_elem_of_In, Hin.
Qed.

Lemma stored_pointers (jm : JobManager) (ptr : nat) :
  ptr ∈ (map_to_list (jobs jm)).*2 <-> exists id, jobs jm !! id = Some ptr.
Proof.
  rewrite list_elem_of_fmap. split.
  - intros ([id p] & -> & Hin%elem_of_map_to_list). exists id. exact Hin.
  - intros (id & Hid). exists (id, ptr). split; [reflexivity|].
    now apply elem_of_map_to_list.
Qed.

Lemma stored_pointers_NoDup (jm : JobManager) :
  wf jm -> NoDup (map_to_list (jobs jm)).*2.
Proof.
  intros [_ Hi]. apply NoDup_fmap_2_strong; [|apply NoDup_map_to_list].
  intros [id1 p1] [id2 p2] H1%elem_of_map_to_list H2%elem_of_map_to_list Heq.
  cbn in Heq. subst p2. f_equal. eapply Hi; eassumption.
Qed.

(** C6. Whatever order the iteration over the job table takes, the listing
    holds every stored job once at most, and holds a job exactly when it is
    stored and its status equals the status filter, or that filter is empty,
    and its language equals the language filter, or that filter is empty.
    With both filters empty the listing is the stored jobs. *)
Theorem ListJobs_exact (jm : JobManager) (order : list (string * nat))
    (status language : string) :
  wf jm ->
  order ≡ₚ map_to_list (jobs jm) ->
  NoDup (ListJobs_over (heap jm) order status language) /\
  (forall ptr,
      ptr ∈ ListJobs_over (heap jm) order status language <->
      exists id job, jobs jm !! id = Some ptr /\ heap jm !! ptr = Some job /\
                     matches status language job) /\
  (status = "" -> language = "" ->
   ListJobs_over (heap jm) order status language ≡ₚ (map_to_list (jobs jm)).*2).
Proof.
  intros Hwf Hperm. rewrite ListJobs_over_filter.
  assert (Hp2 : order.*2 ≡ₚ (map_to_list (jobs jm)).*2) by now rewrite Hperm.
  split; [|split].
  - apply NoDup_filter. rewrite Hp2. now apply stored_pointers_NoDup.
  - intros ptr. rewrite list_elem_of_In, filter_In, <- list_elem_of_In, Hp2.
    rewrite stored_pointers, selected_iff. split.
    + intros [[id Hid] (job & Hjob & Hm)]. exists id, job. auto.
    + intros (id & job & Hid & Hjob & Hm). split; [eauto|]. exists job. auto.
  - intros -> ->. rewrite <- Hp2. rewrite filter_all; [reflexivity|].
    intros ptr Hin. rewrite Hp2 in Hin. apply stored_pointers in Hin as [id Hid].
    destruct Hwf as [Hb _]. apply Hb, lookup_lt_is_Some in Hid as [job Hjob].
    apply selected_iff. exists job. split; [exact Hjob|]. split; now left.
Qed.

Lemma wf_three_jobs : wf examples.three_jobs.
Proof.
  unfold examples.three_jobs.
  repeat first [apply wf_handleExecuteCode | apply wf_step | apply wf_new].
Qed.

Lemma ListJobs_exact_witness :
  ListJobs examples.three_jobs "completed" "python" = [0%nat] /\
  NoDup (ListJobs examples.three_jobs "completed" "python") /\
  (forall ptr,
      ptr ∈ ListJobs examples.three_jobs "completed" "python" <->
      exists id job, jobs examples.three_jobs !! id = Some ptr /\
                     heap examples.three_jobs !! ptr = Some job /\
                     matches "completed" "python" job) /\
  ListJobs examples.three_jobs "" "" ≡ₚ (map_to_list (jobs examples.three_jobs)).*2 /\
  length (ListJobs examples.three_jobs "" "") = 3%nat.
Proof.
  split; [vm_compute; reflexivity|].
  destruct (ListJobs_exact examples.three_jobs
              (map_to_list (jobs examples.three_jobs)) "completed" "python"
              wf_three_jobs (reflexivity _)) as (H1 & H2 & _).
  destruct (ListJobs_exact examples.three_jobs
              (map_to_list (jobs examples.three_jobs)) "" ""
              wf_three_jobs (reflexivity _)) as (_ & _ & H3).
  split; [exact H1|]. split; [exact H2|]. split; [|vm_compute; reflexivity].
  exact (H3 eq_refl eq_refl).
Defined.

(** *** A freshly allocated job and the actions on it *)

Lemma alter_last (f : Job -> Job) (hp : list Job) (j : Job) :
  alter f (length hp) (hp ++ [j]) = hp ++ [f j].
Proof.
  rewrite alter_app_r_alt by lia. now rewrite Nat.sub_diag.
Qed.

Lemma lookup_last (hp : list Job) (j : Job) : (hp ++ [j]) !! length hp = Some j.
Proof. now apply list_lookup_middle. Qed.

Lemma update_last (f : Job -> Job) (hp : list Job) (j : Job) (js : gmap string nat) :
  update (length hp) f {| heap := hp ++ [j]; jobs := js |}
  = {| heap := hp ++ [f j]; jobs := js |}.
Proof. unfold update. cbn [heap jobs]. now rewrite alter_last. Qed.

Lemma status_last (hp : list Job) (j : Job) (js : gmap string nat) :
  status_of {| heap := hp ++ [j]; jobs := js |} (length hp) = Status j.
Proof. unfold status_of. cbn [heap]. now rewrite lookup_last. Qed.

Lemma CancelJob_last (hp : list Job) (j : Job) (js : gmap string nat)
    (id : string) (now : Z) :
  js !! id = Some (length hp) ->
  CancelJob {| heap := hp ++ [j]; jobs := js |} id now =
  if String.eqb (Status j) "pending" || String.eqb (Status j) "running"
  then ({| heap := hp ++ [set_CompletedAt now (set_Status "cancelled" j)]; jobs := js |},
        true)
  else ({| heap := hp ++ [j]; jobs := js |}, false).
Proof.
  intros Hid. unfold CancelJob. cbn [heap jobs]. rewrite Hid, lookup_last.
  destruct (_ || _); [|reflexivity]. now rewrite update_last.
Qed.

(** The two interleavings of one cancellation with the worker of a job
    that has just been allocated as [j], in status pending. *)
Lemma statuses_with_cancel (hp : list Job) (js : gmap string nat) (j : Job)
    (t1 t2 t3 : Z) (outcome : result ExecutionResult) :
  Status j = "pending" ->
  let jm := {| heap := hp ++ [j]; jobs := <[ID j := length hp]> js |} in
  statuses jm (length hp)
    [WorkerBegin (length hp) t1; Cancel (ID j) t2; WorkerEnd (length hp) outcome t3]
    = ["pending"; "running"; "cancelled"; terminal outcome] /\
  statuses jm (length hp)
    [Cancel (ID j) t1; WorkerBegin (length hp) t2; WorkerEnd (length hp) outcome t3]
    = ["pending"; "cancelled"; "running"; terminal outcome].
Proof.
  intros Hp jm. subst jm. split.
  - cbn [statuses step]. unfold ExecuteJob_begin, ExecuteJob_end.
    rewrite status_last, Hp, update_last, status_last.
    rewrite CancelJob_last by apply lookup_insert_eq.
    cbn [Status set_StartedAt set_Status String.eqb Ascii.eqb Bool.eqb orb fst].
    rewrite status_last, update_last, status_last.
    destruct outcome; reflexivity.
  - cbn [statuses step]. unfold ExecuteJob_begin, ExecuteJob_end.
    rewrite status_last, Hp.
    rewrite CancelJob_last by apply lookup_insert_eq. rewrite Hp.
    cbn [String.eqb Ascii.eqb Bool.eqb orb fst].
    rewrite status_last, update_last, status_last, update_last, status_last.
    destruct outcome; reflexivity.
Qed.

Lemma statuses_without_cancel (hp : list Job) (js : gmap string nat) (j : Job)
    (t1 t2 : Z) (outcome : result ExecutionResult) :
  Status j = "pending" ->
  statuses {| heap := hp ++ [j]; jobs := js |} (length hp)
    [WorkerBegin (length hp) t1; WorkerEnd (length hp) outcome t2]
    = ["pending"; "running"; terminal outcome].
Proof.
  intros Hp. cbn [statuses step]. unfold ExecuteJob_begin, ExecuteJob_end.
  rewrite status_last, Hp, update_last, status_last, update_last, status_last.
  destruct outcome; reflexivity.
Qed.

(** What the two execute handlers leave behind when the body binds. *)
Lemma handleExecuteCode_Ok (jm : JobManager) (body : ExecuteBody) (nanos now : Z)
    (req : ExecuteRequest) :
  ShouldBindJSON true false body = Ok req ->
  handleExecuteCode jm body nanos now =
  {| response := Created (generateJobID nanos) (length (heap jm));
     manager :=
       {| heap := heap jm ++
            [ {| ID := generateJobID nanos; Status := "pending";
                 Language := req_Language req; Code := req_Code req; FilePath := "";
                 Timeout := if req_Timeout req =? 0 then 30 else req_Timeout req;
                 MemoryLimit :=
                   if req_MemoryLimit req =? 0 then 128 else req_MemoryLimit req;
                 NetworkAccess := req_NetworkAccess req;
                 Result := None; Error := "";
                 CreatedAt := now; StartedAt := 0; CompletedAt := 0 |} ];
          jobs := <[generateJobID nanos := length (heap jm)]> (jobs jm) |};
     dispatched := Some (length (heap jm)) |}.
Proof.
  intros Hb. unfold handleExecuteCode. rewrite Hb.
  unfold CreateJob, allocate. cbn [ID]. rewrite update_last.
  cbn [heap set_limits]. reflexivity.
Qed.

Lemma handleExecuteFile_Ok (jm : JobManager) (body : ExecuteBody) (nanos now : Z)
    (req : ExecuteRequest) :
  ShouldBindJSON false true body = Ok req ->
  handleExecuteFile jm body nanos now =
  {| response := Created (generateJobID nanos) (length (heap jm));
     manager :=
       {| heap := heap jm ++
            [ {| ID := generateJobID nanos; Status := "pending";
                 Language := ""; Code := ""; FilePath := req_FilePath req;
                 Timeout := if req_Timeout req =? 0 then 30 else req_Timeout req;
                 MemoryLimit :=
                   if req_MemoryLimit req =? 0 then 128 else req_MemoryLimit req;
                 NetworkAccess := req_NetworkAccess req;
                 Result := None; Error := "";
                 CreatedAt := now; StartedAt := 0; CompletedAt := 0 |} ];
          jobs := <[generateJobID nanos := length (heap jm)]> (jobs jm) |};
     dispatched := Some (length (heap jm)) |}.
Proof.
  intros Hb. unfold handleExecuteFile. rewrite Hb.
  unfold CreateFileJob, allocate. cbn [ID]. rewrite update_last.
  cbn [heap set_limits]. reflexivity.
Qed.

Lemma ShouldBindJSON_fields (need_code need_file : bool) (body : ExecuteBody)
    (req : ExecuteRequest) :
  ShouldBindJSON need_code need_file body = Ok req ->
  req_Timeout req = default 0 (b_timeout body) /\
  req_MemoryLimit req = default 0 (b_memory_limit body).
Proof.
  unfold ShouldBindJSON.
  repeat match goal with
         | |- context [if ?c then Err _ else _] => destruct c; [discriminate|]
         end.
  intros [= <-]. split; reflexivity.
Qed.

(** C8. For a body that binds, the job created by either execute handler
    has timeout 30 when the decoded timeout is 0 and the decoded timeout
    otherwise, and memory limit 128 when the decoded memory limit is 0 and
    the decoded one otherwise. An absent field decodes to 0, so a body that
    gives 0 and one that omits the field are handled identically, and a
    negative value reaches the job unchanged. *)
Theorem execute_defaults (jm : JobManager) (body : ExecuteBody) (nanos now : Z) :
  (forall req, ShouldBindJSON true false body = Ok req ->
               dispatched_with (handleExecuteCode jm body nanos now)
                 (defaulted 30 (b_timeout body))
                 (defaulted 128 (b_memory_limit body))) /\
  (forall req, ShouldBindJSON false true body = Ok req ->
               dispatched_with (handleExecuteFile jm body nanos now)
                 (defaulted 30 (b_timeout body))
                 (defaulted 128 (b_memory_limit body))) /\
  handleExecuteCode jm (with_timeout None body) nanos now
    = handleExecuteCode jm (with_timeout (Some 0) body) nanos now /\
  handleExecuteCode jm (with_memory_limit None body) nanos now
    = handleExecuteCode jm (with_memory_limit (Some 0) body) nanos now /\
  handleExecuteFile jm (with_timeout None body) nanos now
    = handleExecuteFile jm (with_timeout (Some 0) body) nanos now /\
  handleExecuteFile jm (with_memory_limit None body) nanos now
    = handleExecuteFile jm (with_memory_limit (Some 0) body) nanos now /\
  (forall t m, t < 0 -> m < 0 ->
               defaulted 30 (Some t) = t /\ defaulted 128 (Some m) = m).
Proof.
  split; [|split; [|split; [|split; [|split; [|split]]]]]; try reflexivity.
  - intros req Hb. rewrite (handleExecuteCode_Ok jm body nanos now req Hb).
    destruct (ShouldBindJSON_fields _ _ _ _ Hb) as [Ht Hm].
    eexists _, _. cbn [dispatched manager heap].
    split; [reflexivity|]. split; [apply lookup_last|].
    cbn [Timeout MemoryLimit]. unfold defaulted. now rewrite Ht, Hm.
  - intros req Hb. rewrite (handleExecuteFile_Ok jm body nanos now req Hb).
    destruct (ShouldBindJSON_fields _ _ _ _ Hb) as [Ht Hm].
    eexists _, _. cbn [dispatched manager heap].
    split; [reflexivity|]. split; [apply lookup_last|].
    cbn [Timeout MemoryLimit]. unfold defaulted. now rewrite Ht, Hm.
  - intros t m Ht Hm. unfold defaulted. cbn -[Z.eqb].
    destruct (Z.eqb_spec t 0), (Z.eqb_spec m 0); split; lia.
Qed.

Lemma execute_defaults_witness :
  dispatched_with
    (handleExecuteCode NewJobManager
       (examples.body "python" "print(1)" (Some 0) (Some (-64))) 1000 1000)
    30 (-64) /\
  dispatched_with
    (handleExecuteFile NewJobManager
       {| b_language := None; b_code := None; b_file_path := Some "/srv/jobs/a.py";
          b_timeout := Some (-5); b_memory_limit := None;
          b_network_access := Some true |} 1000 1000)
    (-5) 128.
Proof.
  split.
  - eapply (proj1 (execute_defaults NewJobManager
                     (examples.body "python" "print(1)" (Some 0) (Some (-64)))
                     1000 1000)).
    reflexivity.
  - eapply (proj1 (proj2 (execute_defaults NewJobManager
                     {| b_language := None; b_code := None;
                        b_file_path := Some "/srv/jobs/a.py";
                        b_timeout := Some (-5); b_memory_limit := None;
                        b_network_access := Some true |} 1000 1000))).
    reflexivity.
Defined.

(** C1 fails on the code. A job created by an execute handler and cancelled
    while its worker runs goes from pending to running to cancelled, and
    then, when the worker finishes, on to completed or failed: the worker
    writes its outcome without looking at the status. Cancelled before the
    worker has started, the job goes from pending to cancelled to running
    and then to completed or failed. *)
Theorem cancelled_status_overwritten (jm : JobManager) (body : ExecuteBody)
    (nanos now t1 t2 t3 : Z) (outcome : result ExecutionResult) (job : nat) :
  (dispatched (handleExecuteCode jm body nanos now) = Some job ->
   statuses (manager (handleExecuteCode jm body nanos now)) job
     [WorkerBegin job t1; Cancel (generateJobID nanos) t2; WorkerEnd job outcome t3]
     = ["pending"; "running"; "cancelled"; terminal outcome] /\
   statuses (manager (handleExecuteCode jm body nanos now)) job
     [Cancel (generateJobID nanos) t1; WorkerBegin job t2; WorkerEnd job outcome t3]
     = ["pending"; "cancelled"; "running"; terminal outcome]) /\
  (dispatched (handleExecuteFile jm body nanos now) = Some job ->
   statuses (manager (handleExecuteFile jm body nanos now)) job
     [WorkerBegin job t1; Cancel (generateJobID nanos) t2; WorkerEnd job outcome t3]
     = ["pending"; "running"; "cancelled"; terminal outcome] /\
   statuses (manager (handleExecuteFile jm body nanos now)) job
     [Cancel (generateJobID nanos) t1; WorkerBegin job t2; WorkerEnd job outcome t3]
     = ["pending"; "cancelled"; "running"; terminal outcome]).
Proof.
  split.
  - destruct (ShouldBindJSON true false body) as [req|msg] eqn:Hb.
    + rewrite (handleExecuteCode_Ok jm body nanos now req Hb).
      cbn [dispatched manager]. intros [= <-].
      match goal with
      | |- context [heap jm ++ [?j]] =>
          exact (statuses_with_cancel (heap jm) (jobs jm) j t1 t2 t3 outcome eq_refl)
      end.
    + unfold handleExecuteCode. rewrite Hb. discriminate.
  - destruct (ShouldBindJSON false true body) as [req|msg] eqn:Hb.
    + rewrite (handleExecuteFile_Ok jm body nanos now req Hb).
      cbn [dispatched manager]. intros [= <-].
      match goal with
      | |- context [heap jm ++ [?j]] =>
          exact (statuses_with_cancel (heap jm) (jobs jm) j t1 t2 t3 outcome eq_refl)
      end.
    + unfold handleExecuteFile. rewrite Hb. discriminate.
Qed.

Lemma cancelled_status_overwritten_witness :
  statuses
    (manager (handleExecuteCode NewJobManager
                (examples.body "python" "print(1)" None None) 1000 1000)) 0
    [WorkerBegin 0 1001; Cancel "job-1000" 1002;
     WorkerEnd 0 (Ok examples.print_result) 1003]
  = ["pending"; "running"; "cancelled"; "completed"].
Proof.
  apply (proj1 (cancelled_status_overwritten NewJobManager
                  (examples.body "python" "print(1)" None None)
                  1000 1000 1001 1002 1003 (Ok examples.print_result) 0)).
  reflexivity.
Defined.

End api_facts.

(** ** The metrics of a performance measurement *)
Module performance_facts.
Import performance.
Import performance_spec.

Lemma wrap64_small (z : Z) : - 2 ^ 63 <= z < 2 ^ 63 -> wrap64 z = z.
Proof. intros H. unfold wrap64. rewrite Z.mod_small; lia. Qed.

Lemma successes_failures (runs : list Run) :
  successes runs + failures runs = Z.of_nat (length runs).
Proof.
  unfold successes, failures. induction runs as [|r runs IH]; [reflexivity|].
  cbn [List.filter length]. destruct (failed r); cbn [negb length]; lia.
Qed.

Lemma successes_bounds (runs : list Run) :
  0 <= successes runs <= Z.of_nat (length runs) /\
  0 <= failures runs <= Z.of_nat (length runs).
Proof.
  pose proof (successes_failures runs). unfold successes, failures in *. lia.
Qed.

Lemma total_bounds (ds : list Z) (lo hi : Z) :
  Forall (fun d => lo <= d <= hi) ds ->
  Z.of_nat (length ds) * lo <= total ds <= Z.of_nat (length ds) * hi.
Proof.
  induction 1 as [|d ds Hd _ IH]; cbn [total foldr length]; [lia|].
  fold (total ds). lia.
Qed.

Lemma total_snoc (ds : list Z) (d : Z) : total (ds ++ [d]) = total ds + d.
Proof.
  unfold total. induction ds as [|x ds IH]; cbn [foldr app]; [lia|].
  rewrite IH. lia.
Qed.

Lemma filter_snoc {A} (f : A -> bool) (l : list A) (x : A) :
  List.filter f (l ++ [x]) = List.filter f l ++ (if f x then [x] else []).
Proof.
  induction l as [|y l IH]; cbn [List.filter app]; [destruct (f x); reflexivity|].
  rewrite IH. destruct (f y); reflexivity.
Qed.

Lemma accumulated_record (m : PerformanceMetrics) (seen : list Run) (r : Run) :
  (length seen < 10)%nat ->
  plausible (seen ++ [r]) ->
  accumulated m seen -> accumulated (record m r) (seen ++ [r]).
Proof.
  intros Hlen Hpl [Ht Hmin Hmax Hmi Hma Hs Hf].
  apply Forall_app in Hpl as [Hseen Hr]. apply Forall_inv in Hr.
  assert (Hsum : - (Z.of_nat (length seen) * 2 ^ 59) <= total (durations seen)
                 <= Z.of_nat (length seen) * 2 ^ 59).
  { pose proof (total_bounds (durations seen) (- 2 ^ 59) (2 ^ 59)) as Hb.
    unfold durations in *. rewrite length_fmap in Hb.
    assert (Forall (fun d => - 2 ^ 59 <= d <= 2 ^ 59) (execDuration <$> seen)).
    { apply Forall_fmap. eapply Forall_impl; [exact Hseen|].
      intros x Hx. unfold compose. cbv beta in Hx |- *. lia. }
    specialize (Hb H). lia. }
  pose proof (successes_bounds seen) as [Hsb Hfb].
  unfold durations in *.
  split; unfold record, count, durations;
    cbn [TotalTime MinTime MaxTime SuccessfulExecutions FailedExecutions].
  - rewrite fmap_app. change (execDuration <$> [r]) with [execDuration r].
    rewrite total_snoc, Ht. apply wrap64_small. lia.
  - rewrite fmap_app. change (execDuration <$> [r]) with [execDuration r].
    apply Forall_app. split.
    + eapply Forall_impl; [exact Hmin|]. intros d Hd. cbv beta in Hd |- *.
      destruct (Z.ltb_spec (execDuration r) (MinTime m)); lia.
    + apply Forall_singleton.
      destruct (Z.ltb_spec (execDuration r) (MinTime m)); lia.
  - rewrite fmap_app. change (execDuration <$> [r]) with [execDuration r].
    apply Forall_app. split.
    + eapply Forall_impl; [exact Hmax|]. intros d Hd. cbv beta in Hd |- *.
      destruct (Z.ltb_spec (MaxTime m) (execDuration r)); lia.
    + apply Forall_singleton.
      destruct (Z.ltb_spec (MaxTime m) (execDuration r)); lia.
  - destruct (Z.ltb_spec (execDuration r) (MinTime m)); lia.
  - destruct (Z.ltb_spec (MaxTime m) (execDuration r)); lia.
  - unfold successes in *. rewrite filter_snoc, length_app.
    destruct (failed r); cbn [negb length].
    + rewrite Hs. lia.
    + rewrite Hs, wrap64_small; lia.
  - unfold failures in *. rewrite filter_snoc, length_app.
    destruct (failed r); cbn [length].
    + rewrite Hf, wrap64_small; lia.
    + rewrite Hf. lia.
Qed.

Lemma accumulated_foldl (timed : list Run) (m : PerformanceMetrics) :
  (length timed <= 10)%nat ->
  plausible timed ->
  accumulated m [] -> accumulated (foldl record m timed) timed.
Proof.
  induction timed as [|r timed IH] using rev_ind; intros Hlen Hpl Hm; [exact Hm|].
  rewrite foldl_app. cbn [foldl]. rewrite length_app in Hlen. cbn [length] in Hlen.
  apply accumulated_record; [lia | exact Hpl |].
  apply IH; [lia | | exact Hm]. now apply Forall_app in Hpl as [? _].
Qed.

(** The warm-up leaves no mark on the minimum and the maximum. *)
Lemma warmup_keeps_extremes (warmup : list Run) (m : PerformanceMetrics) :
  MinTime (foldl (fun m r => count r m) m warmup) = MinTime m /\
  MaxTime (foldl (fun m r => count r m) m warmup) = MaxTime m.
Proof.
  revert m. induction warmup as [|r warmup IH]; intros m; [split; reflexivity|].
  cbn [foldl]. destruct (IH (count r m)) as [-> ->]. split; reflexivity.
Qed.

Lemma quot_between (t lo hi : Z) :
  10 * lo <= t <= 10 * hi -> 0 <= hi -> lo <= Z.quot t 10 <= hi.
Proof.
  intros Ht Hhi. Z.to_euclidean_division_equations. lia.
Qed.

(** Out of ten runs the success rate comes out without rounding error. *)
Lemma success_rate_exact (n : Z) :
  0 <= n <= 10 ->
  PrimFloat.mul (PrimFloat.div (float64 n) (float64 10)) (float64 100)
  = float64 (10 * n).
Proof.
  intros H. rewrite <- (Z2Nat.id n) by lia.
  assert (Hk : (Z.to_nat n <= 10)%nat) by lia.
  revert Hk. generalize (Z.to_nat n) as k. clear n H. intros k Hk.
  do 11 (destruct k as [|k]; [vm_compute; reflexivity|]).
  lia.
Qed.

(** C7. For a measurement of ten timed runs, none longer than 2^59 ns, in
    whatever order the goroutines took the mutex and whatever the warm-up
    did: the total time is the sum of the ten durations, the average is the
    total divided by ten in integer division, the minimum is at most the
    average and the average at most the maximum, the number of executions
    is ten, the two counters count the runs without and with an error, and
    the success rate is the successful count divided by ten and multiplied
    by one hundred in binary64 arithmetic, which is ten times the successful
    count exactly. *)
Theorem measurement_metrics (executorName : string) (test : PerformanceTest)
    (warmup timed : list Run) :
  Z.of_nat (length timed) = numTests ->
  plausible timed ->
  let m := runPerformanceTest executorName test warmup timed in
  TotalTime m = total (durations timed) /\
  AverageTime m = Z.quot (TotalTime m) 10 /\
  MinTime m <= AverageTime m <= MaxTime m /\
  TotalExecutions m = 10 /\
  SuccessfulExecutions m = successes timed /\
  FailedExecutions m = failures timed /\
  SuccessfulExecutions m + FailedExecutions m = 10 /\
  SuccessRate m
    = PrimFloat.mul (PrimFloat.div (float64 (successes timed)) (float64 10))
                    (float64 100) /\
  SuccessRate m = float64 (10 * successes timed).
Proof.
  intros Hlen Hpl m. unfold numTests in Hlen.
  unfold runPerformanceTest in m.
  set (warm := foldl (fun m r => count r m) _ warmup) in m.
  set (m0 := {| ExecutorName := ExecutorName warm; TestCaseName := TestCaseName warm;
                TotalExecutions := TotalExecutions warm;
                SuccessfulExecutions := 0; FailedExecutions := 0; TotalTime := 0;
                AverageTime := AverageTime warm;
                MinTime := MinTime warm; MaxTime := MaxTime warm;
                SuccessRate := SuccessRate warm |}) in m.
  assert (Hm0 : accumulated m0 []).
  { destruct (warmup_keeps_extremes warmup
                {| ExecutorName := executorName; TestCaseName := Name test;
                   TotalExecutions := 0; SuccessfulExecutions := 0;
                   FailedExecutions := 0; TotalTime := 0; AverageTime := 0;
                   MinTime := Hour; MaxTime := 0; SuccessRate := PrimFloat.zero |})
      as [Hmin Hmax].
    split; cbn [m0 TotalTime MinTime MaxTime SuccessfulExecutions FailedExecutions
                durations fmap list_fmap total foldr];
      try reflexivity; try constructor.
    - fold warm in Hmin. rewrite Hmin. cbn. lia.
    - fold warm in Hmax. rewrite Hmax. cbn. lia. }
  destruct (accumulated_foldl timed m0 ltac:(lia) Hpl Hm0)
    as [Ht Hmin Hmax Hmi Hma Hs Hf].
  assert (Hsum : 10 * MinTime (foldl record m0 timed) <= total (durations timed)
                 <= 10 * MaxTime (foldl record m0 timed)).
  { pose proof (total_bounds (durations timed) (MinTime (foldl record m0 timed))
                  (MaxTime (foldl record m0 timed))) as Hb.
    assert (Hl : Z.of_nat (length (durations timed)) = 10)
      by (unfold durations; now rewrite length_fmap).
    rewrite Hl in Hb. apply Hb.
    apply Forall_forall. intros d Hd.
    rewrite Forall_forall in Hmin, Hmax. split; auto. }
  subst m. cbn [TotalTime AverageTime MinTime MaxTime TotalExecutions
                SuccessfulExecutions FailedExecutions SuccessRate].
  unfold numTests. rewrite Ht, Hs, Hf.
  pose proof (successes_failures timed).
  split; [reflexivity|]. split; [reflexivity|].
  split; [apply quot_between; lia|].
  split; [reflexivity|]. split; [reflexivity|]. split; [reflexivity|].
  split; [lia|]. split; [reflexivity|].
  apply success_rate_exact. pose proof (successes_bounds timed). lia.
Qed.

Lemma plausible_ten_runs : plausible examples.ten_runs.
Proof.
  unfold plausible, examples.ten_runs. repeat constructor; vm_compute; discriminate.
Qed.

Lemma measurement_metrics_witness :
  TotalTime (runPerformanceTest "Secure Executor" examples.simple_print
               examples.three_warmups examples.ten_runs)
    = total (durations examples.ten_runs) /\
  AverageTime (runPerformanceTest "Secure Executor" examples.simple_print
                 examples.three_warmups examples.ten_runs)
    = 21900000 /\
  MinTime (runPerformanceTest "Secure Executor" examples.simple_print
             examples.three_warmups examples.ten_runs) = 17000000 /\
  MaxTime (runPerformanceTest "Secure Executor" examples.simple_print
             examples.three_warmups examples.ten_runs) = 30000000 /\
  SuccessfulExecutions (runPerformanceTest "Secure Executor" examples.simple_print
                          examples.three_warmups examples.ten_runs) = 7 /\
  SuccessRate (runPerformanceTest "Secure Executor" examples.simple_print
                 examples.three_warmups examples.ten_runs)
    = float64 70.
Proof.
  destruct (measurement_metrics "Secure Executor" examples.simple_print
              examples.three_warmups examples.ten_runs eq_refl plausible_ten_runs)
    as (Ht & Ha & Hm & Hn & Hs & Hf & Hsf & _ & Hr).
  split; [exact Ht|]. split; [rewrite Ha, Ht; reflexivity|].
  split; [reflexivity|]. split; [reflexivity|].
  split; [rewrite Hs; reflexivity|]. exact Hr.
Defined.

End performance_facts.

(** ** The job table over the life of a server *)
Module server_facts.
Import sandbox api.
Import api_spec api_facts server_spec.

(** *** Job ids *)

Lemma to_int_proper (z : Z) :
  Z.to_int z <> Decimal.Pos Decimal.Nil /\ Z.to_int z <> Decimal.Neg Decimal.Nil.
Proof.
  split; intros H; pose proof (f_equal Z.of_int H) as H';
    rewrite DecimalZ.of_to in H'; cbn in H'; subst z; discriminate H.
Qed.

Lemma itoa_inj (a b : Z) : itoa a = itoa b -> a = b.
Proof.
  unfold itoa. intros H. apply DecimalZ.to_int_inj.
  destruct (to_int_proper a) as [Ha1 Ha2], (to_int_proper b) as [Hb1 Hb2].
  pose proof (NilZero.isi _ Ha1 Ha2) as Ia.
  pose proof (NilZero.isi _ Hb1 Hb2) as Ib.
  rewrite H in Ia. congruence.
Qed.

(** X1. The job id is an injective function of the clock reading it is made
    from: two jobs get the same id exactly when they were named at the same
    nanosecond. *)
Theorem generateJobID_injective (nanos1 nanos2 : Z) :
  generateJobID nanos1 = generateJobID nanos2 <-> nanos1 = nanos2.
Proof.
  split; [|now intros ->]. unfold generateJobID. intros H.
  apply itoa_inj. cbn in H. now injection H.
Qed.

(** *** Filing a job *)



(** *** Cancelling *)

Lemma cancellable_iff (job : Job) :
  String.eqb (Status job) "pending" || String.eqb (Status job) "running" = true
  <-> cancellable job.
Proof. unfold cancellable. now rewrite orb_true_iff, !String.eqb_eq. Qed.

(** X3. [CancelJob] reports success exactly when the id is in the table and
    its job is pending or running. It then marks that one record cancelled
    and stamps its completion time, leaving the id table and every other
    record alone; when it reports failure nothing has changed. A second
    cancellation that follows the first at once reports failure; but when
    the worker of the job takes the lock for the first time in between, it
    sets the cancelled job running, and the second cancellation reports
    success again. *)
Theorem CancelJob_exact (jm : JobManager) (id : string) (now : Z) :
  (snd (CancelJob jm id now) = true <->
   exists ptr job, jobs jm !! id = Some ptr /\ heap jm !! ptr = Some job /\
                   cancellable job) /\
  (snd (CancelJob jm id now) = false -> fst (CancelJob jm id now) = jm) /\
  (forall ptr job,
      jobs jm !! id = Some ptr -> heap jm !! ptr = Some job -> cancellable job ->
      let jm' := fst (CancelJob jm id now) in
      jobs jm' = jobs jm /\
      heap jm' !! ptr = Some (set_CompletedAt now (set_Status "cancelled" job)) /\
      forall other, other <> ptr -> heap jm' !! other = heap jm !! other) /\
  (forall later, snd (CancelJob (fst (CancelJob jm id now)) id later) = false) /\
  (forall ptr started later,
      jobs jm !! id = Some ptr -> is_Some (heap jm !! ptr) ->
      snd (CancelJob (ExecuteJob_begin (fst (CancelJob jm id now)) ptr started)
             id later) = true).
Proof.
  assert (Hbegin : forall jm0 ptr started later,
             jobs jm0 !! id = Some ptr -> is_Some (heap jm0 !! ptr) ->
             snd (CancelJob (ExecuteJob_begin jm0 ptr started) id later) = true).
  { intros jm0 ptr started later Hid [job Hjob].
    unfold CancelJob, ExecuteJob_begin, update. cbn [heap jobs].
    rewrite Hid, list_lookup_alter_eq, Hjob. reflexivity. }
  unfold CancelJob.
  destruct (jobs jm !! id) as [ptr|] eqn:Hid.
  2:{ cbn. rewrite Hid.
      split; [|split; [reflexivity|split; [|split; [reflexivity|]]]].
      - split; [discriminate | intros (? & ? & ? & _); discriminate].
      - intros ? ? ?. discriminate.
      - intros ? ? ? ?. discriminate. }
  destruct (heap jm !! ptr) as [job|] eqn:Hptr.
  2:{ cbn. rewrite Hid, Hptr.
      split; [|split; [reflexivity|split; [|split; [reflexivity|]]]].
      - split; [discriminate | intros (? & ? & [= <-] & ? & _); congruence].
      - intros ? ? [= <-] ?. congruence.
      - intros ? ? ? [= <-] [? ?]. congruence. }
  destruct (String.eqb (Status job) "pending" || String.eqb (Status job) "running")
    eqn:Hc.
  - apply cancellable_iff in Hc. cbn [fst snd update heap jobs].
    split; [|split; [discriminate|split; [|split]]].
    + split; [intros _; eauto | reflexivity].
    + intros ptr' job' [= <-] Hj' _. rewrite Hptr in Hj'. injection Hj' as <-.
      split; [reflexivity|]. split.
      * now rewrite list_lookup_alter_eq, Hptr.
      * intros other Hne. now apply list_lookup_alter_ne.
    + intros later. rewrite Hid, list_lookup_alter_eq, Hptr. reflexivity.
    + intros ptr' started later [= <-] _. apply Hbegin; cbn [fst update heap jobs].
      * exact Hid.
      * rewrite list_lookup_alter_eq, Hptr. now eexists.
  - cbn [fst snd]. rewrite Hid, Hptr, Hc. cbn [snd].
    split; [|split; [reflexivity|split; [|split; [reflexivity|]]]].
    + split; [discriminate|]. intros (ptr' & job' & [= <-] & Hj' & Hcan).
      rewrite Hptr in Hj'. injection Hj' as <-.
      apply cancellable_iff in Hcan. congruence.
    + intros ptr' job' [= <-] Hj' Hcan. rewrite Hptr in Hj'. injection Hj' as <-.
      apply cancellable_iff in Hcan. congruence.
    + intros ptr' started later [= <-] _. apply Hbegin; [exact Hid|].
      rewrite Hptr. now eexists.
Qed.

(** *** What every reachable job table satisfies *)

Lemma consistent_new : consistent NewJobManager.
Proof.
  split; [apply wf_new | | constructor].
  intros id ptr job H. cbn in H. now rewrite lookup_empty in H.
Qed.

Lemma consistent_update (ptr : nat) (f : Job -> Job) (jm : JobManager) :
  (forall job, ID (f job) = ID job) ->
  (forall job, sane job -> sane (f job)) ->
  consistent jm -> consistent (update ptr f jm).
Proof.
  intros Hid Hsane [Hwf Hi Hs]. split.
  - now apply wf_update.
  - cbn [update heap jobs]. intros id p job Hp Hj.
    destruct (decide (p = ptr)) as [->|Hne].
    + rewrite list_lookup_alter_eq in Hj.
      destruct (heap jm !! ptr) as [job0|] eqn:H0; [|discriminate].
      injection Hj as <-. rewrite Hid. eauto.
    + rewrite list_lookup_alter_ne in Hj by congruence. eauto.
  - cbn [update heap]. apply Forall_alter; [exact Hs|]. intros job _. apply Hsane.
Qed.

Lemma consistent_file (job : Job) (jm : JobManager) :
  sane job -> consistent jm ->
  consistent {| heap := heap jm ++ [job];
                jobs := <[ID job := length (heap jm)]> (jobs jm) |}.
Proof.
  intros Hj [Hwf Hi Hs]. split.
  - exact (wf_allocate job jm Hwf).
  - cbn [heap jobs]. intros id p j.
    destruct (decide (ID job = id)) as [<-|Hne].
    + rewrite lookup_insert_eq. intros [= <-]. rewrite lookup_last. congruence.
    + rewrite lookup_insert_ne by assumption. intros Hp Hl.
      rewrite lookup_app_l in Hl by (eapply (proj1 Hwf); eassumption). eauto.
  - cbn [heap]. apply Forall_app. split; [exact Hs|]. now constructor.
Qed.

Lemma known_pending : "pending" ∈ known_statuses.
Proof. unfold known_statuses. rewrite !elem_of_cons. tauto. Qed.

Lemma known_running : "running" ∈ known_statuses.
Proof. unfold known_statuses. rewrite !elem_of_cons. tauto. Qed.

Lemma known_completed : "completed" ∈ known_statuses.
Proof. unfold known_statuses. rewrite !elem_of_cons. tauto. Qed.

Lemma known_failed : "failed" ∈ known_statuses.
Proof. unfold known_statuses. rewrite !elem_of_cons. tauto. Qed.

Lemma known_cancelled : "cancelled" ∈ known_statuses.
Proof. unfold known_statuses. rewrite !elem_of_cons. tauto. Qed.

Lemma consistent_step (jm : JobManager) (a : Action) :
  consistent jm -> consistent (step jm a).
Proof.
  intros H. destruct a as [id now|job now|job outcome now]; cbn [step].
  - unfold CancelJob. destruct (jobs jm !! id) as [ptr|]; [|exact H].
    destruct (heap jm !! ptr) as [job|]; [|exact H].
    destruct (_ || _); [|exact H]. cbn [fst].
    apply consistent_update; [reflexivity| |exact H].
    intros j _. split; [apply known_cancelled | discriminate].
  - apply consistent_update; [reflexivity| |exact H].
    intros j _. split; [apply known_running | discriminate].
  - apply consistent_update; [now destruct outcome| |exact H].
    intros j _. destruct outcome as [r|msg]; split; cbn.
    + apply known_completed.
    + eauto.
    + apply known_failed.
    + discriminate.
Qed.

Lemma consistent_serve (jm : JobManager) (r : Request) :
  consistent jm -> consistent (serve jm r).
Proof.
  intros H. destruct r as [body nanos now|body nanos now|a]; cbn [serve].
  - destruct (ShouldBindJSON true false body) as [req|msg] eqn:Hb.
    + rewrite (handleExecuteCode_Ok jm body nanos now req Hb). cbn [manager].
      match goal with
      | |- consistent {| heap := _ ++ [?j]; jobs := _ |} =>
          apply (consistent_file j jm); [|exact H]
      end.
      split; [apply known_pending | discriminate].
    + unfold handleExecuteCode. now rewrite Hb.
  - destruct (ShouldBindJSON false true body) as [req|msg] eqn:Hb.
    + rewrite (handleExecuteFile_Ok jm body nanos now req Hb). cbn [manager].
      match goal with
      | |- consistent {| heap := _ ++ [?j]; jobs := _ |} =>
          apply (consistent_file j jm); [|exact H]
      end.
      split; [apply known_pending | discriminate].
    + unfold handleExecuteFile. now rewrite Hb.
  - now apply consistent_step.
Qed.

Lemma consistent_foldl (rs : list Request) (jm : JobManager) :
  consistent jm -> consistent (foldl serve jm rs).
Proof.
  revert jm. induction rs as [|r rs IH]; intros jm H; [exact H|].
  cbn [foldl]. now apply IH, consistent_serve.
Qed.

Lemma consistent_served (rs : list Request) : consistent (served rs).
Proof. apply consistent_foldl, consistent_new. Qed.

Lemma serve_grows (jm : JobManager) (r : Request) :
  (forall id, is_Some (GetJob jm id) -> is_Some (GetJob (serve jm r) id)) /\
  (length (heap jm) <= length (heap (serve jm r)))%nat.
Proof.
  unfold GetJob. destruct r as [body nanos now|body nanos now|a]; cbn [serve].
  - destruct (ShouldBindJSON true false body) as [req|msg] eqn:Hb.
    + rewrite (handleExecuteCode_Ok jm body nanos now req Hb). cbn [manager heap jobs].
      split; [|rewrite length_app; lia].
      intros id H. rewrite lookup_insert_is_Some.
      destruct (decide (generateJobID nanos = id)); auto.
    + unfold handleExecuteCode. rewrite Hb. auto.
  - destruct (ShouldBindJSON false true body) as [req|msg] eqn:Hb.
    + rewrite (handleExecuteFile_Ok jm body nanos now req Hb). cbn [manager heap jobs].
      split; [|rewrite length_app; lia].
      intros id H. rewrite lookup_insert_is_Some.
      destruct (decide (generateJobID nanos = id)); auto.
    + unfold handleExecuteFile. rewrite Hb. auto.
  - destruct a as [id now|job now|job outcome now]; cbn [step].
    + unfold CancelJob. destruct (jobs jm !! id) as [ptr|]; [|auto].
      destruct (heap jm !! ptr) as [job|]; [|auto].
      destruct (_ || _); [|auto]. cbn [fst update heap jobs].
      rewrite length_alter. auto.
    + unfold ExecuteJob_begin. cbn [update heap jobs]. rewrite length_alter. auto.
    + unfold ExecuteJob_end. cbn [update heap jobs]. rewrite length_alter. auto.
Qed.

Lemma foldl_serve_grows (more : list Request) (jm : JobManager) :
  (forall id, is_Some (GetJob jm id) -> is_Some (GetJob (foldl serve jm more) id)) /\
  (length (heap jm) <= length (heap (foldl serve jm more)))%nat.
Proof.
  revert jm. induction more as [|r more IH]; intros jm; [auto|].
  cbn [foldl]. destruct (serve_grows jm r) as [H1 H2].
  destruct (IH (serve jm r)) as [H3 H4]. split; [auto | lia].
Qed.

Lemma serve_keeps_id (jm : JobManager) (r : Request) (id : string) :
  ~ names r id -> GetJob (serve jm r) id = GetJob jm id.
Proof.
  unfold GetJob. destruct r as [body nanos now|body nanos now|a]; cbn [serve names].
  - intros Hn. destruct (ShouldBindJSON true false body) as [req|msg] eqn:Hb.
    + rewrite (handleExecuteCode_Ok jm body nanos now req Hb). cbn [manager jobs].
      apply lookup_insert_ne. intros He. apply Hn. eauto.
    + unfold handleExecuteCode. now rewrite Hb.
  - intros Hn. destruct (ShouldBindJSON false true body) as [req|msg] eqn:Hb.
    + rewrite (handleExecuteFile_Ok jm body nanos now req Hb). cbn [manager jobs].
      apply lookup_insert_ne. intros He. apply Hn. eauto.
    + unfold handleExecuteFile. now rewrite Hb.
  - intros _. destruct a as [id' now|job now|job outcome now]; cbn [step];
      [|reflexivity|reflexivity].
    unfold CancelJob. destruct (jobs jm !! id') as [ptr|]; [|reflexivity].
    destruct (heap jm !! ptr) as [job|]; [|reflexivity].
    now destruct (_ || _).
Qed.

Lemma update_keeps_record (ptr : nat) (f : Job -> Job) (jm : JobManager)
    (p : nat) (job : Job) :
  (forall j, ID (f j) = ID j) ->
  heap jm !! p = Some job ->
  exists job', heap (update ptr f jm) !! p = Some job' /\ ID job' = ID job.
Proof.
  intros Hid Hp. cbn [update heap]. destruct (decide (p = ptr)) as [->|Hne].
  - rewrite list_lookup_alter_eq, Hp. eexists. split; [reflexivity | apply Hid].
  - rewrite list_lookup_alter_ne by congruence. eauto.
Qed.

Lemma serve_keeps_record (jm : JobManager) (r : Request) (p : nat) (job : Job) :
  heap jm !! p = Some job ->
  exists job', heap (serve jm r) !! p = Some job' /\ ID job' = ID job.
Proof.
  intros Hp. destruct r as [body nanos now|body nanos now|a]; cbn [serve].
  - destruct (ShouldBindJSON true false body) as [req|msg] eqn:Hb.
    + rewrite (handleExecuteCode_Ok jm body nanos now req Hb). cbn [manager heap].
      exists job. split; [now apply lookup_app_l_Some | reflexivity].
    + unfold handleExecuteCode. rewrite Hb. eauto.
  - destruct (ShouldBindJSON false true body) as [req|msg] eqn:Hb.
    + rewrite (handleExecuteFile_Ok jm body nanos now req Hb). cbn [manager heap].
      exists job. split; [now apply lookup_app_l_Some | reflexivity].
    + unfold handleExecuteFile. rewrite Hb. eauto.
  - destruct a as [id now|ptr now|ptr outcome now]; cbn [step].
    + unfold CancelJob. destruct (jobs jm !! id) as [ptr|]; [|eauto].
      destruct (heap jm !! ptr) as [job0|]; [|eauto].
      destruct (_ || _); [|eauto]. cbn [fst].
      now apply update_keeps_record.
    + now apply update_keeps_record.
    + apply update_keeps_record; [|assumption]. now destruct outcome.
Qed.

Lemma foldl_serve_keeps (more : list Request) (jm : JobManager) :
  (forall p job, heap jm !! p = Some job ->
     exists job', heap (foldl serve jm more) !! p = Some job' /\ ID job' = ID job) /\
  (forall id, (forall r, r ∈ more -> ~ names r id) ->
     GetJob (foldl serve jm more) id = GetJob jm id).
Proof.
  revert jm. induction more as [|r more IH]; intros jm; [split; eauto|].
  cbn [foldl]. destruct (IH (serve jm r)) as [H1 H2]. split.
  - intros p job Hp. destruct (serve_keeps_record jm r p job Hp) as (j1 & Hj1 & Hi1).
    destruct (H1 p j1 Hj1) as (j2 & Hj2 & Hi2). exists j2. split; [assumption|congruence].
  - intros id Hno. rewrite H2 by (intros r' Hr'; apply Hno; now right).
    apply serve_keeps_id, Hno. now left.
Qed.

Lemma serve_takes_over (jm : JobManager) (r : Request) (id : string) :
  names r id -> GetJob (serve jm r) id = Some (length (heap jm)).
Proof.
  unfold GetJob. destruct r as [body nanos now|body nanos now|a]; cbn [serve names].
  - intros [[req Hb] <-]. rewrite (handleExecuteCode_Ok jm body nanos now req Hb).
    cbn [manager jobs]. apply lookup_insert_eq.
  - intros [[req Hb] <-]. rewrite (handleExecuteFile_Ok jm body nanos now req Hb).
    cbn [manager jobs]. apply lookup_insert_eq.
  - intros [].
Qed.

(** X5. The server deletes no job record and no id leaves its table, but an
    id can be taken over. Whatever requests, cancellations and worker steps
    follow: the number of records does not decrease and every record stays
    where it is with its id; an id that retrieves a record goes on
    retrieving a record that carries this id, and retrieves the very same
    record as long as no accepted POST is named at the same clock reading.
    A POST that is accepted at the clock reading of an earlier job takes its
    id over: the id then retrieves the new record, and the earlier record
    can no longer be retrieved under any id. *)
Theorem records_kept_ids_taken_over (rs more : list Request) :
  let before := served rs in
  let after := served (rs ++ more) in
  (length (heap before) <= length (heap after))%nat /\
  (forall ptr job, heap before !! ptr = Some job ->
     exists job', heap after !! ptr = Some job' /\ ID job' = ID job) /\
  (forall id ptr, GetJob before id = Some ptr ->
     (exists ptr' job, GetJob after id = Some ptr' /\
                       heap after !! ptr' = Some job /\ ID job = id) /\
     ((forall r, r ∈ more -> ~ names r id) -> GetJob after id = Some ptr)) /\
  (forall r id, names r id ->
     GetJob (serve before r) id = Some (length (heap before)) /\
     forall ptr, GetJob before id = Some ptr ->
                 forall id', GetJob (serve before r) id' <> Some ptr).
Proof.
  cbv zeta. pose proof (consistent_served rs) as [[Hlt Huniq] _ _].
  pose proof (consistent_served (rs ++ more)) as [[Hlt' _] Hid' _].
  unfold served in *. rewrite foldl_app in *.
  set (before := foldl serve NewJobManager rs) in *.
  destruct (foldl_serve_grows more before) as [Hsome Hlen].
  destruct (foldl_serve_keeps more before) as [Hrec Hkeep].
  split; [exact Hlen|]. split; [exact Hrec|]. split.
  - intros id ptr Hptr. split.
    + destruct (Hsome id) as [ptr' Hptr']; [now rewrite Hptr|].
      pose proof (Hlt' _ _ Hptr') as Hb. apply lookup_lt_is_Some in Hb as [job Hjob].
      exists ptr', job. split; [assumption|]. split; [assumption|]. eauto.
    + intros Hno. now rewrite Hkeep.
  - intros r id Hn. split; [now apply serve_takes_over|].
    intros ptr Hptr id' Hid.
    destruct (decide (id' = id)) as [->|Hne].
    + rewrite serve_takes_over in Hid by assumption. injection Hid as Hid.
      apply Hlt in Hptr. lia.
    + rewrite serve_keeps_id in Hid.
      * apply Hne. eapply Huniq; eassumption.
      * intros Hn'. apply Hne. destruct r as [? ? ?|? ? ?|?]; cbn [names] in *;
          [destruct Hn as [_ <-], Hn' as [_ <-]; reflexivity
          |destruct Hn as [_ <-], Hn' as [_ <-]; reflexivity
          |contradiction].
Qed.

Lemma records_kept_ids_taken_over_witness :
  GetJob (serve (served scenarios.three_requests)
            (PostExecute (examples.body "python" "print(3)" None None) 1000 4000))
    "job-1000" = Some 3%nat /\
  forall id',
    GetJob (serve (served scenarios.three_requests)
              (PostExecute (examples.body "python" "print(3)" None None) 1000 4000))
      id' <> Some 0%nat.
Proof.
  destruct (records_kept_ids_taken_over scenarios.three_requests []) as (_ & _ & _ & H).
  destruct (H (PostExecute (examples.body "python" "print(3)" None None) 1000 4000)
              "job-1000") as [H1 H2].
  - split; [eexists; reflexivity | reflexivity].
  - split; [exact H1|]. apply H2. reflexivity.
Defined.

End server_facts.

(** ** What a run leaves in the trace *)
Module effects_facts.
Import os context exec sandbox gostrings.
Import exec_spec exec_facts plugin_facts effects_spec.

Lemma emits_ret {A} (P : Event -> Prop) (a : A) : emits P (ret a).
Proof. intros s. exists []. split; [symmetry; apply app_nil_r | constructor]. Qed.

Lemma emits_hang {A} (P : Event -> Prop) : emits P (@hang A).
Proof. intros s. exists []. split; [symmetry; apply app_nil_r | constructor]. Qed.

Lemma emits_now (P : Event -> Prop) : emits P now.
Proof. intros s. exists []. split; [symmetry; apply app_nil_r | constructor]. Qed.

Lemma emits_sleep (P : Event -> Prop) (d : Z) : emits P (sleep d).
Proof. intros s. exists []. split; [symmetry; apply app_nil_r | constructor]. Qed.

Lemma emits_emit (P : Event -> Prop) (e : Event) : P e -> emits P (emit e).
Proof. intros H s. exists [e]. split; [reflexivity | now constructor]. Qed.

Lemma emits_bind {A B} (P : Event -> Prop) (m : IO A) (k : A -> IO B) :
  emits P m -> (forall a, emits P (k a)) -> emits P (bind m k).
Proof.
  intros Hm Hk s. unfold bind. destruct (Hm s) as (evs1 & H1 & F1).
  destruct (m s) as [[a|] s1]; cbn [snd] in H1.
  - destruct (Hk a s1) as (evs2 & H2 & F2). exists (evs1 ++ evs2).
    split; [|now apply Forall_app]. now rewrite H2, H1, app_assoc.
  - exists evs1. auto.
Qed.

Lemma emits_mono {A} (P Q : Event -> Prop) (m : IO A) :
  (forall e, P e -> Q e) -> emits P m -> emits Q m.
Proof.
  intros HPQ Hm s. destruct (Hm s) as (evs & H & F). exists evs.
  split; [exact H|]. eapply Forall_impl; eauto.
Qed.

Lemma emits_CombinedOutput (P : Event -> Prop) (w : World) (ctx : Context)
    (argv : list string) (dir : string) :
  P (EvSpawn argv) -> emits P (CombinedOutput w ctx argv dir).
Proof.
  intros H s. rewrite CombinedOutput_eq. exists [EvSpawn argv].
  split; [|now constructor]. destruct (collect _ _); reflexivity.
Qed.

Lemma emits_Run (P : Event -> Prop) (w : World) (ctx : Context) (argv : list string) :
  P (EvSpawn argv) -> emits P (Run w ctx argv).
Proof.
  intros H s. rewrite Run_eq. exists [EvSpawn argv].
  split; [|now constructor]. destruct (wait _ _); reflexivity.
Qed.

Lemma emits_WithTimeout (P : Event -> Prop) (ctx : Context) (timeout : Z) :
  emits P (WithTimeout ctx timeout).
Proof.
  unfold WithTimeout. apply emits_bind; [apply emits_now|]. intros t. apply emits_ret.
Qed.

Lemma emits_imposed (P : Event -> Prop) (ctx : Context) (timeout : Z) :
  emits P (if 0 <? timeout then WithTimeout ctx timeout else ret ctx).
Proof. destruct (0 <? timeout); [apply emits_WithTimeout | apply emits_ret]. Qed.

Lemma tidy_shape (w : World) (pattern : string)
    (body : string -> IO (result ExecutionResult)) :
  (forall tempDir, emits keeps_files (body tempDir)) ->
  tidy w pattern
    (emit (EvMkdirTemp pattern) ;;;
     match MkdirTemp w pattern with
     | Err msg => ret (Err ("failed to create temp directory: " +:+ msg))
     | Ok tempDir =>
         let* r := body tempDir in
         emit (EvRemoveAll tempDir) ;;;
         ret r
     end).
Proof.
  intros Hb s. unfold bind, emit, ret. cbv beta iota.
  destruct (MkdirTemp w pattern) as [tempDir|msg].
  - destruct (Hb tempDir {| trace := trace s ++ [EvMkdirTemp pattern];
                            clock := clock s |}) as (evs & H & F).
    destruct (body tempDir _) as [[r|] s2]; cbn [fst snd trace clock] in *.
    + exists (evs ++ [EvRemoveAll tempDir]). split; [|eauto].
      rewrite H. now rewrite <- !app_assoc.
    + exists evs. split; [|exact F]. rewrite H. now rewrite <- app_assoc.
  - exists []. cbn. auto.
Qed.

(** Take a computation apart along its binds and case distinctions. *)
Create HintDb emits.

Ltac emits_go :=
  repeat first
    [ solve [auto 1 with emits nocore]
    | apply emits_ret | apply emits_hang | apply emits_now | apply emits_sleep
    | apply emits_imposed | apply emits_WithTimeout
    | apply emits_emit; exact I
    | apply emits_CombinedOutput; exact I
    | apply emits_Run; exact I
    | apply emits_bind; [|intros ?]
    | match goal with
      | |- emits _ (match ?x with _ => _ end) => destruct x
      | |- emits _ (if ?c then _ else _) => destruct c
      end ].

Lemma local_ExecuteFile_keeps (w : World) (e : executor.LocalExecutor) (ctx : Context)
    (filePath : string) :
  emits keeps_files (executor.ExecuteFile w e ctx filePath).
Proof. unfold executor.ExecuteFile. cbv zeta. emits_go. Qed.
#[export] Hint Resolve local_ExecuteFile_keeps : emits.

Lemma secure_ExecuteFile_keeps (w : World) (se : security.SecureExecutor.t)
    (ctx : Context) (filePath : string) :
  emits keeps_files (security.SecureExecutor.ExecuteFile w se ctx filePath).
Proof. unfold security.SecureExecutor.ExecuteFile. cbv zeta. emits_go. Qed.
#[export] Hint Resolve secure_ExecuteFile_keeps : emits.

Lemma containerized_ExecuteFile_keeps (w : World)
    (ce : security.ContainerizedExecutor.t) (ctx : Context) (filePath : string) :
  emits keeps_files (security.ContainerizedExecutor.ExecuteFile w ce ctx filePath).
Proof.
  unfold security.ContainerizedExecutor.ExecuteFile,
    security.ContainerizedExecutor.isDockerAvailable,
    security.ContainerizedExecutor.executeLocally,
    security.ContainerizedExecutor.executeWithDocker.
  cbv zeta. emits_go.
Qed.
#[export] Hint Resolve containerized_ExecuteFile_keeps : emits.

Lemma docker_ExecuteFile_keeps (w : World) (d : container.DockerExecutor.t)
    (ctx : Context) (filePath : string) :
  emits keeps_files (container.DockerExecutor.ExecuteFile w d ctx filePath).
Proof.
  unfold container.DockerExecutor.ExecuteFile, container.DockerExecutor.runContainer,
    container.DockerExecutor.isDockerAvailable, container.DockerExecutor.pullImage.
  cbv zeta. emits_go.
Qed.
#[export] Hint Resolve docker_ExecuteFile_keeps : emits.

(** X7. Every executor that writes the code to a temporary directory cleans
    up after itself: the local, the Docker, the hardened local and the
    hardened container executor each ask for the directory first; when it is
    refused they return the error and do nothing else; when it is granted
    and [Execute] returns, whatever the outcome, its last action removes
    that directory, and it removes nothing else. An [Execute] that never
    returns never removes the directory. *)
Theorem temp_dir_removed (w : World) (ctx : Context) (language code : string) :
  (forall e, tidy w "forgeai-*" (executor.Execute w e ctx language code)) /\
  (forall d, tidy w "forgeai-docker-*"
               (container.DockerExecutor.Execute w d ctx language code)) /\
  (forall se, tidy w "forgeai-secure-*"
                (security.SecureExecutor.Execute w se ctx language code)) /\
  (forall ce, tidy w "forgeai-container-*"
                (security.ContainerizedExecutor.Execute w ce ctx language code)).
Proof.
  split; [|split; [|split]].
  - intros e. unfold executor.Execute. apply tidy_shape. intros tempDir.
    unfold executor.writeCodeToFile. cbv zeta. emits_go.
  - intros d. unfold container.DockerExecutor.Execute. apply tidy_shape.
    intros tempDir. unfold container.DockerExecutor.writeCodeToFile. cbv zeta.
    emits_go.
  - intros se. unfold security.SecureExecutor.Execute. apply tidy_shape.
    intros tempDir. unfold security.writeCodeToFile. cbv zeta. emits_go.
  - intros ce. unfold security.ContainerizedExecutor.Execute. apply tidy_shape.
    intros tempDir. unfold security.writeCodeToFile. cbv zeta. emits_go.
Qed.

Lemma docker_runContainer_only (w : World) (ctx : Context)
    (config : container.DockerExecutor.DockerConfig) :
  emits docker_only (container.DockerExecutor.runContainer w ctx config).
Proof.
  unfold container.DockerExecutor.runContainer,
    container.DockerExecutor.isDockerAvailable, container.DockerExecutor.pullImage.
  cbv zeta.
  apply emits_bind; [apply emits_bind; [now apply emits_Run | intros; apply emits_ret]|].
  intros available. destruct (negb available); [apply emits_ret|].
  apply emits_bind.
  { apply emits_bind; [now apply emits_Run|].
    intros [e|]; [now apply emits_Run | apply emits_ret]. }
  intros [e|]; [apply emits_ret|].
  repeat match goal with
         | |- context [if ?c then _ else _] => destruct c
         end;
    try apply emits_ret;
    (apply emits_bind; [apply emits_CombinedOutput | intros; apply emits_ret]);
    reflexivity.
Qed.

(** X8. The Docker executor never runs anything on the host but the Docker
    client: whatever the language, the code, the file and the answers of the
    system, every child that [Execute] and [ExecuteFile] start is a [docker]
    command, also when Docker turns out to be missing. *)
Theorem docker_never_runs_on_host (w : World) (d : container.DockerExecutor.t)
    (ctx : Context) :
  (forall filePath,
      emits docker_only (container.DockerExecutor.ExecuteFile w d ctx filePath)) /\
  (forall language code,
      emits docker_only (container.DockerExecutor.Execute w d ctx language code)).
Proof.
  assert (Hfile : forall filePath,
             emits docker_only (container.DockerExecutor.ExecuteFile w d ctx filePath)).
  { intros filePath. unfold container.DockerExecutor.ExecuteFile. cbv zeta.
    destruct (negb _); [apply emits_ret|].
    apply emits_bind; [apply emits_imposed|]. intros ctx'.
    apply emits_bind; [apply docker_runContainer_only|].
    intros [r|msg]; apply emits_ret. }
  split; [exact Hfile|]. intros language code.
  unfold container.DockerExecutor.Execute, container.DockerExecutor.writeCodeToFile.
  cbv zeta. apply emits_bind; [now apply emits_emit|]. intros _.
  destruct (MkdirTemp w _) as [tempDir|msg]; [|apply emits_ret].
  apply emits_bind; [|intros r; apply emits_bind;
                        [now apply emits_emit | intros; apply emits_ret]].
  apply emits_bind.
  - repeat match goal with
           | |- emits _ (if ?c then _ else _) => destruct c
           end;
      try apply emits_ret;
      (apply emits_bind; [now apply emits_emit|]); intros _;
      destruct (WriteFile w _ code); apply emits_ret.
  - intros [filePath|msg]; [apply Hfile | apply emits_ret].
Qed.

Lemma loadEntries_prints (w : World) (j : plugin.Json) (dir : string)
    (entries : list DirEntry) :
  forall m, emits prints_only (plugin.loadEntries w j dir entries m).
Proof.
  induction entries as [|entry rest IH]; intros m; cbn [plugin.loadEntries].
  - apply emits_ret.
  - destruct (IsDir entry); [|apply IH].
    destruct (plugin.LoadPlugin w j m _) as [m'|msg]; [apply IH|].
    apply emits_bind; [now apply emits_emit | intros; apply IH].
Qed.

(** X9. Resolving the executor is free of side effects on the host: loading
    a plugin directory and [getExecutor] start no child process, create or
    remove no directory and write no file, whatever the flags and whatever
    the directory holds; at most they print warnings. *)
Theorem resolution_prints_only (w : World) (j : plugin.Json) :
  (forall m dir, emits prints_only (plugin.LoadPluginsFromDir w j m dir)) /\
  (forall flags, emits prints_only (cli.getExecutor w j flags)).
Proof.
  assert (Hload : forall m dir,
             emits prints_only (plugin.LoadPluginsFromDir w j m dir)).
  { intros m dir. unfold plugin.LoadPluginsFromDir.
    destruct (negb _); [apply emits_ret|].
    destruct (ReadDir w dir) as [entries|msg]; [|apply emits_ret].
    apply emits_bind; [apply loadEntries_prints | intros; apply emits_ret]. }
  split; [exact Hload|]. intros flags. unfold cli.getExecutor.
  destruct (negb _).
  - apply emits_bind; [apply Hload|]. intros [manager|msg]; [|apply emits_ret].
    apply emits_bind; [|intros; apply emits_ret].
    destruct (cli.containerized flags); [now apply emits_emit | apply emits_ret].
  - destruct (cli.containerized flags); apply emits_ret.
Qed.

End effects_facts.

(** ** The Docker probe *)
Module probe_facts.
Import os context exec sandbox gostrings.
Import exec_spec exec_facts plugin_spec plugin_facts probe_spec.
Import container security.

Lemma imposed_eq (ctx : Context) (timeout : Z) (s : St) :
  exists ctx', (if 0 <? timeout then WithTimeout ctx timeout else ret ctx) s
               = (Some ctx', s).
Proof.
  destruct (0 <? timeout); eexists; reflexivity.
Qed.

Lemma docker_probe_unavailable (w : World) (s : St) :
  unavailable w ->
  DockerExecutor.isDockerAvailable w s = (Some false, probed w s) /\
  ContainerizedExecutor.isDockerAvailable w s = (Some false, probed w s).
Proof.
  intros Hf. unfold DockerExecutor.isDockerAvailable,
    ContainerizedExecutor.isDockerAvailable, probed, bind, ret.
  rewrite Run_eq. cbn [remaining Background deadline]. fold probe.
  destruct (wait_fails None _ Hf) as (f & er & -> & ->). auto.
Qed.

Lemma docker_probe_stuck (w : World) (s : St) :
  stuck w ->
  fst (DockerExecutor.isDockerAvailable w s) = None /\
  fst (ContainerizedExecutor.isDockerAvailable w s) = None.
Proof.
  intros [Hs He]. unfold DockerExecutor.isDockerAvailable,
    ContainerizedExecutor.isDockerAvailable, bind, ret.
  rewrite Run_eq. cbn [remaining Background deadline wait]. fold probe.
  rewrite Hs, He. auto.
Qed.

(** X10. When Docker is missing (the probe cannot be started or exits with
    an error), the Docker executor refuses a file of a supported language
    with the error "container execution failed: docker is not available",
    having started nothing but the probe; it does not fall back to running
    the file on the host. *)
Theorem docker_unavailable_fails (w : World) (d : DockerExecutor.t) (ctx : Context)
    (filePath : string) (s : St) :
  unavailable w ->
  DockerExecutor.isLanguageSupported (DockerExecutor.getLanguageFromFile filePath)
    = true ->
  DockerExecutor.ExecuteFile w d ctx filePath s =
  (Some (Err "container execution failed: docker is not available"), probed w s).
Proof.
  intros Hu Hsup. unfold DockerExecutor.ExecuteFile. cbv zeta. rewrite Hsup.
  cbn [negb]. unfold bind at 1.
  destruct (imposed_eq ctx (DockerExecutor.Timeout d) s) as [ctx' ->].
  unfold DockerExecutor.runContainer, bind.
  rewrite (proj1 (docker_probe_unavailable w s Hu)). reflexivity.
Qed.

Lemma docker_unavailable_fails_witness :
  DockerExecutor.ExecuteFile examples.busy_world DockerExecutor.NewDockerExecutor
    Background "/srv/jobs/main.py" st0 =
  (Some (Err "container execution failed: docker is not available"),
   probed examples.busy_world st0).
Proof.
  apply (docker_unavailable_fails examples.busy_world
           DockerExecutor.NewDockerExecutor Background "/srv/jobs/main.py" st0).
  - left. discriminate.
  - reflexivity.
Defined.

(** X11. When Docker is missing, the hardened container executor runs the
    file on the host instead: once the probe has failed, [ExecuteFile]
    behaves exactly as the hardened local executor with the same timeout
    does, in result, in the child it starts and in the time it takes. *)
Theorem containerized_falls_back (w : World) (ce : ContainerizedExecutor.t)
    (ctx : Context) (filePath : string) (s : St) :
  unavailable w ->
  ContainerizedExecutor.ExecuteFile w ce ctx filePath s =
  SecureExecutor.ExecuteFile w (local_twin ce) ctx filePath (probed w s).
Proof.
  intros Hu. unfold ContainerizedExecutor.ExecuteFile. cbv zeta. unfold bind at 1.
  rewrite (proj2 (docker_probe_unavailable w s Hu)). reflexivity.
Qed.

Lemma containerized_falls_back_witness :
  ContainerizedExecutor.ExecuteFile examples.busy_world
    ContainerizedExecutor.NewContainerizedExecutor Background "/srv/jobs/main.py" st0 =
  SecureExecutor.ExecuteFile examples.busy_world
    (local_twin ContainerizedExecutor.NewContainerizedExecutor) Background
    "/srv/jobs/main.py" (probed examples.busy_world st0).
Proof.
  apply (containerized_falls_back examples.busy_world
           ContainerizedExecutor.NewContainerizedExecutor Background
           "/srv/jobs/main.py" st0).
  left. discriminate.
Defined.

(** X12. The probe runs outside every timeout: if the [docker --version]
    child is started and never exits, [ExecuteFile] of the Docker executor
    (on a file of a supported language) and of the hardened container
    executor (on any file) never returns, whatever the executor's timeout
    and the deadline of the caller's context. *)
Theorem stuck_probe_blocks (w : World) (ctx : Context) (s : St) :
  stuck w ->
  (forall d filePath,
      DockerExecutor.isLanguageSupported (DockerExecutor.getLanguageFromFile filePath)
        = true ->
      fst (DockerExecutor.ExecuteFile w d ctx filePath s) = None) /\
  (forall ce filePath,
      fst (ContainerizedExecutor.ExecuteFile w ce ctx filePath s) = None).
Proof.
  intros Hst. split.
  - intros d filePath Hsup. unfold DockerExecutor.ExecuteFile. cbv zeta.
    rewrite Hsup. cbn [negb]. unfold bind at 1.
    destruct (imposed_eq ctx (DockerExecutor.Timeout d) s) as [ctx' ->].
    unfold DockerExecutor.runContainer, bind.
    pose proof (proj1 (docker_probe_stuck w s Hst)) as Hp.
    destruct (DockerExecutor.isDockerAvailable w s) as [[b|] s1]; [discriminate|].
    reflexivity.
  - intros ce filePath. unfold ContainerizedExecutor.ExecuteFile. cbv zeta.
    unfold bind at 1.
    pose proof (proj2 (docker_probe_stuck w s Hst)) as Hp.
    destruct (ContainerizedExecutor.isDockerAvailable w s) as [[b|] s1];
      [discriminate|]. reflexivity.
Qed.

Lemma stuck_probe_blocks_witness :
  fst (DockerExecutor.ExecuteFile examples.spin_world DockerExecutor.NewDockerExecutor
         {| deadline := Some Second |} "/srv/jobs/main.go" st0) = None /\
  fst (ContainerizedExecutor.ExecuteFile examples.spin_world
         ContainerizedExecutor.NewContainerizedExecutor
         {| deadline := Some Second |} "/srv/jobs/main.go" st0) = None.
Proof.
  assert (Hst : stuck examples.spin_world) by (split; reflexivity).
  split.
  - apply (proj1 (stuck_probe_blocks examples.spin_world {| deadline := Some Second |}
                    st0 Hst)).
    reflexivity.
  - apply (proj2 (stuck_probe_blocks examples.spin_world {| deadline := Some Second |}
                    st0 Hst)).
Defined.

End probe_facts.

(** ** How a run on the host ends *)
Module outcome_facts.
Import os context exec sandbox gostrings.
Import exec_spec exec_facts executor_spec executor_facts.

Lemma local_Execute_eq (w : World) (e : executor.LocalExecutor) (ctx : Context)
    (language code tempDir : string) (s : St) :
  language ∈ builtin ->
  MkdirTemp w "forgeai-*" = Ok tempDir ->
  WriteFile w (Join tempDir (sourceName language)) code = None ->
  let filePath := Join tempDir (sourceName language) in
  let cmdArgs := commandFor language filePath in
  executor.Execute w e ctx language code s =
  match collect (time_left ctx (executor.Timeout e) (clock s)) (Command w cmdArgs "") with
  | Some f =>
      (Some (Ok (resultOf f)),
       {| trace := trace s ++ [EvMkdirTemp "forgeai-*"; EvWriteFile filePath;
                               EvSpawn cmdArgs; EvRemoveAll tempDir];
          clock := clock s + elapsed f |})
  | None =>
      (None,
       {| trace := trace s ++ [EvMkdirTemp "forgeai-*"; EvWriteFile filePath;
                               EvSpawn cmdArgs];
          clock := clock s |})
  end.
Proof.
  intros Hl Hmk Hwr filePath cmdArgs. unfold executor.Execute.
  rewrite Hmk. unfold bind, emit, ret. cbv beta.
  rewrite writeCodeToFile_builtin by assumption. rewrite Hwr.
  rewrite (local_ExecuteFile_eq w e ctx _ cmdArgs).
  2:{ rewrite language_of_source by assumption. now apply command_of_builtin. }
  rewrite run_with_timeout_eq. cbn [clock trace]. fold filePath.
  destruct (collect _ _); cbn [trace clock]; rewrite <- !app_assoc; reflexivity.
Qed.

(** X13. The local executor reports how the child ended as data, never as
    an error: [ExecuteFile] on a file of a supported language makes exactly
    one attempt to start a child, the interpreter on that file, and never
    returns an error. When the child exits by itself before the deadline,
    the call returns once the output pipe has been closed, with what was
    written until then as stdout: with an empty stderr and the child's exit
    status if the deadline has not passed by then, and with
    [Execution timed out] and -1 if it has; while some process holds the
    pipe the call does not return. A child that cannot be started gives exit
    code -1 with the start error as stderr. *)
Theorem local_ExecuteFile_outcomes (w : World) (e : executor.LocalExecutor)
    (ctx : Context) (filePath : string) (cmdArgs : list string) (s : St) :
  executor.getCommandForLanguage (executor.getLanguageFromFile filePath) filePath
    = Ok cmdArgs ->
  let p := Command w cmdArgs "" in
  let left := time_left ctx (executor.Timeout e) (clock s) in
  let run := executor.ExecuteFile w e ctx filePath s in
  (forall msg, fst run <> Some (Err msg)) /\
  spawned (snd run) = spawned s ++ [cmdArgs] /\
  (forall t status, exits_first left p t status ->
     match pipe_closed p None t with
     | Some c =>
         exists r, fst run = Some (Ok r) /\ Stdout r = written p c /\
                   if after_deadline left c
                   then Stderr r = "Execution timed out" /\ ExitCode r = -1
                   else Stderr r = "" /\ ExitCode r = status
     | None => fst run = None
     end) /\
  (forall msg, start_err p = Some msg -> (forall d, left = Some d -> 0 < d) ->
     exists r, fst run = Some (Ok r) /\ Stdout r = "" /\ Stderr r = msg /\
               ExitCode r = -1).
Proof.
  intros Hcmd p left run. subst run.
  rewrite (local_ExecuteFile_eq w e ctx filePath cmdArgs Hcmd), run_with_timeout_eq.
  fold p left. split; [|split; [|split]].
  - intros msg. destruct (collect left p); cbn; congruence.
  - destruct s as [tr c]. destruct (collect left p); cbn [snd trace clock];
      now rewrite spawned_app.
  - intros t status Hx. rewrite (collect_exits _ _ _ _ Hx).
    destruct (pipe_closed p None t) as [c|]; [|reflexivity].
    eexists. split; [reflexivity|].
    unfold resultOf, overdue, after_deadline. cbn [ctx_err err output elapsed].
    destruct left as [d|].
    + destruct (d <=? c); [auto|].
      destruct (Z.eqb_spec status 0) as [->|Hne]; auto.
    + destruct (Z.eqb_spec status 0) as [->|Hne]; auto.
  - intros msg Hs Hpos. unfold collect, wait. rewrite Hs.
    destruct left as [d|]; [|eexists; split; [reflexivity|auto]].
    specialize (Hpos d eq_refl). destruct (Z.leb_spec d 0); [lia|].
    eexists; split; [reflexivity|auto].
Qed.

Lemma local_ExecuteFile_outcomes_witness :
  exists r,
    fst (executor.ExecuteFile (scenarios.script_world "Traceback" 3)
           executor.NewLocalExecutor Background "/srv/jobs/main.py" st0)
    = Some (Ok r) /\
    Stdout r = "Traceback" /\ Stderr r = "" /\ ExitCode r = 3.
Proof.
  exact (proj1 (proj2 (proj2
           (local_ExecuteFile_outcomes (scenarios.script_world "Traceback" 3)
              executor.NewLocalExecutor Background "/srv/jobs/main.py"
              ["python"; "/srv/jobs/main.py"] st0 eq_refl)))
           (5 * Millisecond) 3
           (conj eq_refl (conj eq_refl (conj eq_refl eq_refl)))).
Defined.

(** X14. The deadline of a job. A worker runs the code of a job under a
    deadline of [Timeout] seconds only when that number of seconds, counted
    in nanoseconds in an [int64], is positive. For a job whose interpreter
    never exits: if the nanosecond count is positive, the interpreter is
    killed at the deadline and the run returns the timed-out result, unless
    a process that the interpreter had started holds the output pipe for
    ever, and then the run never returns; if the count is zero or negative,
    which it also is when a large [Timeout] wraps around, no deadline is
    imposed and the run never returns. *)
Theorem ExecuteJob_run_deadline (w : World) (job : api.Job) (tempDir : string)
    (s : St) :
  api.Code job <> "" ->
  api.Language job ∈ builtin ->
  MkdirTemp w "forgeai-*" = Ok tempDir ->
  let filePath := Join tempDir (sourceName (api.Language job)) in
  let p := Command w (commandFor (api.Language job) filePath) "" in
  WriteFile w filePath (api.Code job) = None ->
  start_err p = None -> exit_at p = None ->
  let limit := wrap64 (api.Timeout job * Second) in
  if 0 <? limit
  then deadline_outcome (Some limit) p (api.ExecuteJob_run w job s)
  else fst (api.ExecuteJob_run w job s) = None.
Proof.
  intros Hcode Hlang Hmk filePath p Hwr Hs He limit.
  unfold api.ExecuteJob_run.
  destruct (String.eqb_spec (api.Code job) "") as [|_]; [contradiction|].
  cbn [negb]. rewrite (local_Execute_eq w _ Background _ _ tempDir s Hlang Hmk Hwr).
  fold filePath p. unfold time_left. cbn [executor.Timeout deadline Background].
  fold limit. destruct (0 <? limit) eqn:Hpos.
  - replace (clock s + limit - clock s) with limit by lia.
    assert (Hexp : expires_first (Some limit) p) by (split; [exact Hs|now rewrite He]).
    pose proof (collect_expires _ _ Hexp) as Hc. unfold deadline_outcome.
    destruct (held_after_kill (Some limit) p).
    + now rewrite Hc.
    + destruct Hc as (f & -> & Hf).
      destruct (resultOf_deadline f Hf) as (? & ? & _).
      exists (resultOf f). cbn. auto.
  - unfold remaining, Background. cbn [deadline]. unfold collect, wait.
    now rewrite Hs, He.
Qed.

Lemma ExecuteJob_run_deadline_witness :
  timed_out (api.ExecuteJob_run examples.spin_world (scenarios.looping_job 2) st0) /\
  fst (api.ExecuteJob_run examples.go_world (scenarios.go_job 2) st0) = None /\
  fst (api.ExecuteJob_run examples.spin_world (scenarios.looping_job 0) st0) = None /\
  fst (api.ExecuteJob_run examples.spin_world (scenarios.looping_job 9223372037) st0)
    = None.
Proof.
  assert (Hin : "python" ∈ builtin) by (left; reflexivity).
  assert (Hgo : "go" ∈ builtin) by (right; left; reflexivity).
  split; [|split; [|split]].
  - exact (ExecuteJob_run_deadline examples.spin_world (scenarios.looping_job 2)
             "/tmp/forgeai-2" st0 ltac:(discriminate) Hin eq_refl eq_refl eq_refl
             eq_refl).
  - exact (ExecuteJob_run_deadline examples.go_world (scenarios.go_job 2)
             "/tmp/forgeai-7" st0 ltac:(discriminate) Hgo eq_refl eq_refl eq_refl
             eq_refl).
  - exact (ExecuteJob_run_deadline examples.spin_world (scenarios.looping_job 0)
             "/tmp/forgeai-2" st0 ltac:(discriminate) Hin eq_refl eq_refl eq_refl
             eq_refl).
  - exact (ExecuteJob_run_deadline examples.spin_world
             (scenarios.looping_job 9223372037)
             "/tmp/forgeai-2" st0 ltac:(discriminate) Hin eq_refl eq_refl eq_refl
             eq_refl).
Defined.

End outcome_facts.

(** ** Loading a plugin directory *)
Module loading_facts.
Import os context exec sandbox gostrings.
Import plugin cli.
Import cli_spec cli_facts loading_spec.

Lemma loadEntries_app (w : World) (j : Json) (dir : string)
    (before after : list DirEntry) :
  forall m s,
  loadEntries w j dir (before ++ after) m s =
  match loadEntries w j dir before m s with
  | (Some m1, s1) => loadEntries w j dir after m1 s1
  | (None, s1) => (None, s1)
  end.
Proof.
  induction before as [|entry rest IH]; intros m s; [reflexivity|].
  cbn [app loadEntries]. destruct (IsDir entry); [|apply IH].
  destruct (LoadPlugin w j m _) as [m'|msg]; [apply IH|].
  unfold bind, emit. cbv beta. apply IH.
Qed.

(** Entries that do not declare [l] leave its executor alone. *)
Lemma loadEntries_unclaimed (w : World) (j : Json) (dir l : string)
    (entries : list DirEntry) :
  (forall e, e ∈ entries -> IsDir e = true ->
             ~ claims w j (Join dir (os.Name e)) l) ->
  forall m s, exists m' s',
    loadEntries w j dir entries m s = (Some m', s') /\
    plugins m' !! l = plugins m !! l.
Proof.
  induction entries as [|entry rest IH]; intros Hno m s.
  - exists m, s. auto.
  - assert (Hrest : forall e, e ∈ rest -> IsDir e = true ->
                              ~ claims w j (Join dir (os.Name e)) l).
    { intros e He. apply Hno. now right. }
    cbn [loadEntries]. destruct (IsDir entry) eqn:Hdir; [|now apply IH].
    destruct (LoadPlugin_cases w j (Join dir (os.Name entry)))
      as [[msg Hl]|[p Hl]]; rewrite Hl.
    + unfold bind, emit. cbv beta. now apply IH.
    + destruct (IH Hrest (register p (languages p) m) s) as (m' & s' & -> & Hm').
      exists m', s'. split; [reflexivity|]. rewrite Hm'.
      apply register_lookup_notin. intros Hin.
      apply (Hno entry); [now left | assumption|]. apply claims_loaded.
      exists (register p (languages p) NewManager), p. split; [apply Hl|].
      now apply register_lookup_in.
Qed.

(** X15. The last plugin wins: when a directory entry loads and declares a
    language, and no entry after it declares that language, the executor
    that [GetExecutor] returns for the language once the directory has been
    loaded is the one of that entry, whatever was registered before. *)
Theorem last_plugin_wins (w : World) (j : Json) (dir : string)
    (before after : list DirEntry) (entry : DirEntry) (m : Manager) (s : St)
    (l : string) (p : ExternalExecutor) (m1 : Manager) :
  IsDir entry = true ->
  LoadPlugin w j NewManager (Join dir (os.Name entry)) = Ok m1 ->
  GetExecutor m1 l = Some p ->
  (forall e, e ∈ after -> IsDir e = true ->
             ~ claims w j (Join dir (os.Name e)) l) ->
  exists m' s',
    loadEntries w j dir (before ++ entry :: after) m s = (Some m', s') /\
    GetExecutor m' l = Some p.
Proof.
  intros Hdir Hload Hp Hafter. unfold GetExecutor in *.
  rewrite loadEntries_app.
  destruct (loadEntries_spec w j dir before m s) as (m0 & s0 & -> & _).
  cbn [loadEntries]. rewrite Hdir.
  destruct (LoadPlugin_cases w j (Join dir (os.Name entry)))
    as [[msg Hl]|[q Hl]]; [rewrite Hl in Hload; discriminate|].
  rewrite Hl in Hload |- *. injection Hload as <-.
  destruct (loadEntries_unclaimed w j dir l after Hafter
              (register q (languages q) m0) s0) as (m' & s' & -> & Hm').
  exists m', s'. split; [reflexivity|]. rewrite Hm'.
  destruct (decide (l ∈ languages q)) as [Hin|Hin].
  - rewrite register_lookup_in in Hp |- * by assumption. exact Hp.
  - rewrite register_lookup_notin in Hp by assumption. cbn in Hp.
    now rewrite lookup_empty in Hp.
Qed.

Lemma last_plugin_wins_witness :
  exists m' s',
    loadEntries scenarios.twin_world examples.toy_json "/plugins"
      ([ {| os.Name := "first"; os.IsDir := true |};
         {| os.Name := "notes.txt"; os.IsDir := false |} ]
       ++ {| os.Name := "second"; os.IsDir := true |}
       :: [ {| os.Name := "third"; os.IsDir := true |} ]) NewManager st0
    = (Some m', s') /\
    GetExecutor m' "python"
    = Some (NewExternalExecutor "/plugins/second/hello-plugin" ["hello"; "python"]).
Proof.
  eapply (last_plugin_wins scenarios.twin_world examples.toy_json "/plugins").
  - reflexivity.
  - reflexivity.
  - reflexivity.
  - intros e He _ Hc. apply claims_loaded in Hc. destruct Hc as (m0 & p0 & Hl & _).
    apply list_elem_of_singleton in He. subst e. discriminate Hl.
Defined.

Lemma loadEntries_exact (w : World) (j : Json) (dir : string)
    (entries : list DirEntry) :
  forall m, exists m', forall tr c,
    loadEntries w j dir entries m {| trace := tr; clock := c |}
    = (Some m', {| trace := tr ++ warnings w j dir entries; clock := c |}) /\
    loadEntries w j dir (List.filter (loads w j dir) entries) m
      {| trace := tr; clock := c |}
    = (Some m', {| trace := tr; clock := c |}).
Proof.
  induction entries as [|entry rest IH]; intros m.
  - exists m. intros tr c. cbn. rewrite app_nil_r. auto.
  - cbn [loadEntries List.filter warnings omap list_omap]. unfold loads at 1.
    destruct (IsDir entry) eqn:Hdir; cbn [andb].
    + destruct (LoadPlugin_cases w j (Join dir (os.Name entry)))
        as [[msg Hl]|[p Hl]]; rewrite !Hl.
      * destruct (IH m) as (m' & Hm'). exists m'. intros tr c.
        unfold bind, emit. cbv beta. cbn [trace clock].
        destruct (Hm' (tr ++ [EvPrint ("Warning: failed to load plugin "
                                         +:+ os.Name entry +:+ ": " +:+ msg)]) c)
          as [-> _].
        destruct (Hm' tr c) as [_ ->]. split; [now rewrite <- app_assoc | reflexivity].
      * destruct (IH (register p (languages p) m)) as (m' & Hm'). exists m'.
        intros tr c. cbn [loadEntries]. rewrite Hdir, Hl.
        destruct (Hm' tr c) as [-> ->]. auto.
    + apply IH.
Qed.

(** X16. A plugin that does not load never makes loading fail. Whenever the
    plugin directory can be read, [LoadPluginsFromDir] succeeds; the manager
    it leaves is the one that loading only the directories whose plugin
    loads would leave, so that files and broken plugins are as good as
    absent; and all it does besides is print one warning for each directory
    whose plugin does not load, in the order of the entries. *)
Theorem broken_plugins_skipped (w : World) (j : Json) (m : Manager) (dir : string)
    (entries : list DirEntry) (s : St) :
  Exists w dir = true ->
  ReadDir w dir = Ok entries ->
  exists m',
    LoadPluginsFromDir w j m dir s
    = (Some (Ok m'),
       {| trace := trace s ++ warnings w j dir entries; clock := clock s |}) /\
    fst (loadEntries w j dir (List.filter (loads w j dir) entries) m s) = Some m'.
Proof.
  intros Hex Hrd. unfold LoadPluginsFromDir. rewrite Hex, Hrd. cbn [negb].
  destruct (loadEntries_exact w j dir entries m) as (m' & Hm').
  exists m'. destruct s as [tr c]. destruct (Hm' tr c) as [H1 H2].
  unfold bind, ret. rewrite H1, H2. auto.
Qed.

Lemma broken_plugins_skipped_witness :
  exists m',
    LoadPluginsFromDir scenarios.twin_world examples.toy_json NewManager "/plugins" st0
    = (Some (Ok m'),
       {| trace := trace st0
            ++ warnings scenarios.twin_world examples.toy_json "/plugins"
                 [ {| os.Name := "first"; os.IsDir := true |};
                   {| os.Name := "notes.txt"; os.IsDir := false |};
                   {| os.Name := "second"; os.IsDir := true |};
                   {| os.Name := "third"; os.IsDir := true |} ];
          clock := clock st0 |}) /\
    fst (loadEntries scenarios.twin_world examples.toy_json "/plugins"
           (List.filter (loads scenarios.twin_world examples.toy_json "/plugins")
              [ {| os.Name := "first"; os.IsDir := true |};
                {| os.Name := "notes.txt"; os.IsDir := false |};
                {| os.Name := "second"; os.IsDir := true |};
                {| os.Name := "third"; os.IsDir := true |} ])
           NewManager st0) = Some m'.
Proof.
  apply (broken_plugins_skipped scenarios.twin_world examples.toy_json NewManager
           "/plugins"); reflexivity.
Defined.

(** *** The languages on offer *)

Lemma occurrences_app (l : string) (xs ys : list string) :
  occurrences l (xs ++ ys) = (occurrences l xs + occurrences l ys)%nat.
Proof. unfold occurrences. now rewrite List.filter_app, length_app. Qed.

Lemma occurrences_NoDup (l : string) (xs : list string) :
  NoDup xs ->
  occurrences l xs = if bool_decide (l ∈ xs) then 1%nat else 0%nat.
Proof.
  unfold occurrences. induction 1 as [|x xs Hx _ IH]; [reflexivity|].
  cbn [List.filter]. destruct (String.eqb_spec l x) as [->|Hne].
  - cbn [length]. rewrite IH. rewrite (bool_decide_eq_false_2 _ Hx).
    rewrite bool_decide_eq_true_2 by now left. reflexivity.
  - rewrite IH. destruct (bool_decide_reflect (l ∈ xs)) as [Hin|Hin].
    + rewrite bool_decide_eq_true_2 by now right. reflexivity.
    + rewrite bool_decide_eq_false_2; [reflexivity|].
      intros [?|?]%elem_of_cons; congruence.
Qed.

Lemma Manager_SupportedLanguages_elem (m : Manager) (l : string) :
  l ∈ Manager_SupportedLanguages m <-> is_Some (GetExecutor m l).
Proof.
  unfold Manager_SupportedLanguages, GetExecutor. rewrite list_elem_of_fmap. split.
  - intros ([l' p] & -> & Hin%elem_of_map_to_list). now exists p.
  - intros [p Hp]. exists (l, p). split; [reflexivity|].
    now apply elem_of_map_to_list.
Qed.

(** X17. The languages that the composite executor offers are those for
    which a plugin is registered followed by the three built-in ones: a
    language is listed exactly when a plugin is registered for it or it is
    built in, and a built-in language that a plugin also serves is listed
    twice, since the two groups are not merged. *)
Theorem Composite_SupportedLanguages_listing (c : CompositeExecutor) (l : string) :
  (l ∈ Composite_SupportedLanguages c <->
   is_Some (GetExecutor (PluginManager c) l) \/ l ∈ executor_spec.builtin) /\
  occurrences l (Composite_SupportedLanguages c) =
  (match GetExecutor (PluginManager c) l with Some _ => 1 | None => 0 end +
   if bool_decide (l ∈ executor_spec.builtin) then 1 else 0)%nat.
Proof.
  unfold Composite_SupportedLanguages.
  assert (Hdef : (if UseContainer c then container.DockerExecutor.SupportedLanguages
                  else executor.SupportedLanguages) = executor_spec.builtin)
    by now destruct (UseContainer c).
  rewrite Hdef. split.
  - now rewrite elem_of_app, Manager_SupportedLanguages_elem.
  - rewrite occurrences_app. f_equal.
    + rewrite occurrences_NoDup by apply NoDup_fst_map_to_list.
      destruct (bool_decide_reflect (l ∈ Manager_SupportedLanguages (PluginManager c)))
        as [Hin|Hin]; rewrite Manager_SupportedLanguages_elem in Hin.
      * destruct Hin as [p ->]. reflexivity.
      * destruct (GetExecutor _ l); [exfalso; eauto | reflexivity].
    + apply occurrences_NoDup. unfold executor_spec.builtin.
      repeat constructor; rewrite ?elem_of_cons, ?elem_of_nil; intuition discriminate.
Qed.

End loading_facts.

(** ** The security harness *)
Module harness_facts.
Import os context sandbox security gostrings gostrings_spec gostrings_facts.
Import security_spec security_facts harness_spec.

(** *** The line feed that is cut off *)

Lemma trimLastNewline_prefix (s : string) :
  exists x, s = trimLastNewline s +:+ x.
Proof.
  induction s as [|c s [x IH]]; [now exists ""|].
  cbn [trimLastNewline]. destruct s as [|d s].
  - destruct (Ascii.eqb c newline).
    + exists (String c ""). now rewrite append_nil_l.
    + exists "". now rewrite append_nil_r.
  - exists x. rewrite append_cons. now rewrite <- IH.
Qed.

Lemma trimLastNewline_keep (s : string) :
  ends_with_lf s = false -> trimLastNewline s = s.
Proof.
  induction s as [|c s IH]; [reflexivity|]. cbn [ends_with_lf trimLastNewline].
  destruct s as [|d s]; [now intros ->|]. intros H. now rewrite IH.
Qed.

Lemma trimLastNewline_app (pre x : string) :
  x <> "" -> trimLastNewline (pre +:+ x) = pre +:+ trimLastNewline x.
Proof.
  intros Hx. induction pre as [|c pre IH]; [now rewrite !append_nil_l|].
  rewrite !append_cons. cbn [trimLastNewline].
  destruct (pre +:+ x) as [|d rest] eqn:E.
  - destruct pre; [rewrite append_nil_l in E; contradiction|].
    rewrite append_cons in E. discriminate.
  - now rewrite IH.
Qed.

Lemma trimLastNewline_app_keep (e post : string) :
  e <> "" -> ends_with_lf e = false ->
  trimLastNewline (e +:+ post) = e +:+ trimLastNewline post.
Proof.
  intros He Hk. destruct post as [|c post].
  - rewrite append_nil_r, trimLastNewline_keep by assumption.
    cbn [trimLastNewline]. now rewrite append_nil_r.
  - now apply trimLastNewline_app.
Qed.

Lemma occurs_in_trimmed (e s : string) :
  e <> "" -> ends_with_lf e = false ->
  occurs_in e (trimLastNewline s) <-> occurs_in e s.
Proof.
  intros He Hk. split.
  - intros (pre & post & H). destruct (trimLastNewline_prefix s) as [x Hx].
    exists pre, (post +:+ x). rewrite Hx, H. now rewrite !append_assoc.
  - intros (pre & post & ->). exists pre, (trimLastNewline post).
    rewrite trimLastNewline_app.
    + now rewrite trimLastNewline_app_keep.
    + destruct e; [contradiction|]. rewrite append_cons. discriminate.
Qed.

(** X18. For a case that expects containment and whose expected output does
    not end in a line feed, cutting the trailing line feed off stdout makes
    no difference: the case passes exactly when the exit code is -1, or the
    exit code is not 0, or an expected output is declared and the captured
    stdout, as it is, contains it, or the captured stderr is not empty. *)
Theorem containment_without_trailing_lf (test : TestCase) (result : ExecutionResult) :
  ShouldBeContained (ExpectedResult test) = true ->
  ends_with_lf (ExpectedOutput (ExpectedResult test)) = false ->
  validateTestResult test result = true <->
  ExitCode result = -1 \/ ExitCode result <> 0 \/
  (ExpectedOutput (ExpectedResult test) <> "" /\
   occurs_in (ExpectedOutput (ExpectedResult test)) (Stdout result)) \/
  Stderr result <> "".
Proof.
  intros Hc Hk. rewrite (contained_iff test result Hc). unfold contained.
  destruct (String.eqb_spec (ExpectedOutput (ExpectedResult test)) "") as [He|He].
  - tauto.
  - rewrite (occurs_in_trimmed _ (Stdout result) He Hk). tauto.
Qed.

Lemma containment_without_trailing_lf_witness :
  let test :=
    {| Name := "File System Access - Sensitive File";
       Code := "print('Access denied')"; Language := "python";
       Description := "Tests file system access to sensitive files";
       Category := "File System Attacks";
       ExpectedResult := {| ShouldBeContained := true; ExpectedExitCode := 0;
                            ExpectedOutput := "Access denied" |} |} in
  validateTestResult test examples.newline_result = true <->
  ExitCode examples.newline_result = -1 \/ ExitCode examples.newline_result <> 0 \/
  (ExpectedOutput (ExpectedResult test) <> "" /\
   occurs_in (ExpectedOutput (ExpectedResult test)) (Stdout examples.newline_result)) \/
  Stderr examples.newline_result <> "".
Proof.
  intros test.
  apply (containment_without_trailing_lf test examples.newline_result); reflexivity.
Defined.

(** *** Running the catalogue *)




(** *** The launcher *)





End harness_facts.

(** ** Measurements and their order *)
Module measurement_facts.
Import performance.
Import performance_spec measurement_spec.

Lemma wrap64_add_l (x y : Z) : wrap64 (wrap64 x + y) = wrap64 (x + y).
Proof.
  unfold wrap64.
  replace ((x + 2 ^ 63) mod 2 ^ 64 - 2 ^ 63 + y + 2 ^ 63)
    with ((x + 2 ^ 63) mod 2 ^ 64 + y) by lia.
  rewrite Zplus_mod_idemp_l. f_equal. f_equal. lia.
Qed.

Lemma record_comm (m : PerformanceMetrics) (a b : Run) :
  record (record m a) b = record (record m b) a.
Proof.
  unfold record, count. cbn -[wrap64 Z.ltb].
  f_equal.
  - destruct (failed a), (failed b); reflexivity.
  - destruct (failed a), (failed b); reflexivity.
  - rewrite !wrap64_add_l. f_equal. lia.
  - destruct (Z.ltb_spec (execDuration a) (MinTime m)),
      (Z.ltb_spec (execDuration b) (MinTime m));
      repeat match goal with
             | |- context [?x <? ?y] => destruct (Z.ltb_spec x y)
             end; lia.
  - destruct (Z.ltb_spec (MaxTime m) (execDuration a)),
      (Z.ltb_spec (MaxTime m) (execDuration b));
      repeat match goal with
             | |- context [?x <? ?y] => destruct (Z.ltb_spec x y)
             end; lia.
Qed.

Lemma foldl_record_Permutation (timed timed' : list Run) :
  timed ≡ₚ timed' -> forall m, foldl record m timed = foldl record m timed'.
Proof.
  induction 1 as [|x l l' _ IH|x y l|l1 l2 l3 _ IH1 _ IH2]; intros m; cbn [foldl].
  - reflexivity.
  - apply IH.
  - now rewrite record_comm.
  - now rewrite IH1.
Qed.

Lemma warmup_fields (warmup : list Run) (m : PerformanceMetrics) :
  let m' := foldl (fun m r => count r m) m warmup in
  ExecutorName m' = ExecutorName m /\ TestCaseName m' = TestCaseName m /\
  TotalExecutions m' = TotalExecutions m /\ AverageTime m' = AverageTime m /\
  MinTime m' = MinTime m /\ MaxTime m' = MaxTime m /\
  SuccessRate m' = SuccessRate m.
Proof.
  revert m. induction warmup as [|r rs IH]; intros m; [cbn; tauto|].
  cbn [foldl]. cbv zeta. destruct (IH (count r m)) as (-> & -> & -> & -> & -> & -> & ->).
  cbn. tauto.
Qed.

Lemma runPerformanceTest_fresh (executorName : string) (test : PerformanceTest)
    (warmup timed : list Run) :
  runPerformanceTest executorName test warmup timed =
  runPerformanceTest executorName test [] timed.
Proof.
  unfold runPerformanceTest. cbv zeta.
  match goal with
  | |- context [foldl (fun m r => count r m) ?m0 warmup] =>
      destruct (warmup_fields warmup m0) as (-> & -> & -> & -> & -> & -> & ->)
  end.
  reflexivity.
Qed.

Lemma least_min (d bound : Z) (ds : list Z) :
  least (Z.min d bound) ds = Z.min d (least bound ds).
Proof. unfold least. induction ds as [|x ds IH]; cbn [foldr]; lia. Qed.

Lemma greatest_max (d bound : Z) (ds : list Z) :
  greatest (Z.max d bound) ds = Z.max d (greatest bound ds).
Proof. unfold greatest. induction ds as [|x ds IH]; cbn [foldr]; lia. Qed.

Lemma foldl_record_extremes (timed : list Run) :
  forall m,
  MinTime (foldl record m timed) = least (MinTime m) (durations timed) /\
  MaxTime (foldl record m timed) = greatest (MaxTime m) (durations timed).
Proof.
  induction timed as [|r rs IH]; intros m; [split; reflexivity|].
  cbn [foldl]. destruct (IH (record m r)) as [-> ->].
  unfold durations. cbn [fmap list_fmap]. fold (durations rs).
  unfold record, count. cbn [MinTime MaxTime]. split.
  - destruct (Z.ltb_spec (execDuration r) (MinTime m)).
    + replace (execDuration r) with (Z.min (execDuration r) (MinTime m)) at 1 by lia.
      rewrite least_min. unfold least. cbn [foldr]. reflexivity.
    + replace (MinTime m) with (Z.min (execDuration r) (MinTime m)) at 1 by lia.
      rewrite least_min. unfold least. cbn [foldr]. reflexivity.
  - destruct (Z.ltb_spec (MaxTime m) (execDuration r)).
    + replace (execDuration r) with (Z.max (execDuration r) (MaxTime m)) at 1 by lia.
      rewrite greatest_max. unfold greatest. cbn [foldr]. reflexivity.
    + replace (MaxTime m) with (Z.max (execDuration r) (MaxTime m)) at 1 by lia.
      rewrite greatest_max. unfold greatest. cbn [foldr]. reflexivity.
Qed.

(** X21. The metrics of a measurement depend neither on the warm-up calls
    nor on the order in which the timed goroutines reach the critical
    section: two measurements of the same test whose timed calls are the
    same up to order give the same metrics, field for field, whatever their
    warm-up calls were; the 64-bit wrap-around of the sum included. *)
Theorem measurement_order_independent (executorName : string)
    (test : PerformanceTest) (warmup warmup' timed timed' : list Run) :
  timed ≡ₚ timed' ->
  runPerformanceTest executorName test warmup timed =
  runPerformanceTest executorName test warmup' timed'.
Proof.
  intros Hperm.
  rewrite (runPerformanceTest_fresh executorName test warmup),
    (runPerformanceTest_fresh executorName test warmup').
  unfold runPerformanceTest. cbv zeta. cbn [foldl].
  now rewrite (foldl_record_Permutation timed timed' Hperm).
Qed.

Lemma measurement_order_independent_witness :
  runPerformanceTest "local" examples.simple_print examples.three_warmups
    examples.ten_runs =
  runPerformanceTest "local" examples.simple_print [] (rev examples.ten_runs).
Proof.
  apply (measurement_order_independent "local" examples.simple_print
           examples.three_warmups [] examples.ten_runs (rev examples.ten_runs)).
  apply Permutation_rev.
Defined.

(** X22. The extremes a measurement reports are the least of one hour and
    the timed durations, and the greatest of zero and the timed durations:
    the running minimum starts at one hour and the running maximum at zero.
    So a measurement whose every run took an hour or more reports a minimum
    of exactly one hour. *)
Theorem extremes_exact (executorName : string) (test : PerformanceTest)
    (warmup timed : list Run) :
  let m := runPerformanceTest executorName test warmup timed in
  MinTime m = least Hour (durations timed) /\
  MaxTime m = greatest 0 (durations timed) /\
  (Forall (fun d => Hour <= d) (durations timed) -> MinTime m = Hour) /\
  (Forall (fun d => d <= 0) (durations timed) -> MaxTime m = 0).
Proof.
  cbv zeta. rewrite (runPerformanceTest_fresh executorName test warmup).
  unfold runPerformanceTest. cbv zeta. cbn [foldl MinTime MaxTime].
  match goal with
  | |- context [foldl record ?m0 timed] =>
      destruct (foldl_record_extremes timed m0) as [-> ->]
  end.
  cbn [MinTime MaxTime]. split; [reflexivity|]. split; [reflexivity|].
  split; intros H; induction H as [|d ds Hd _ IH];
    unfold least, greatest in *; cbn [foldr]; try reflexivity; lia.
Qed.

End measurement_facts.

(** ** Installing plugins *)
Module install_facts.
Import os gostrings gostrings_spec gostrings_facts.
Import registry install_spec.

Lemma attempt_cases (env : Env) (op : DiskOp) (effect : Disk -> Disk) (disk : Disk) :
  (exists msg, attempt env op effect disk = (Some msg, disk)) \/
  (exists msg, attempt env op effect disk = (Some msg, residue env op disk)) \/
  (refused op = None /\ fault env op = None /\
   attempt env op effect disk = (None, effect disk)).
Proof.
  unfold attempt. destruct (refused op) as [msg|]; [left; eauto|].
  destruct (fault env op) as [msg|]; [right; left; eauto | right; right; auto].
Qed.

(** What a successful installation has gone through. *)
Lemma DownloadPlugin_success (env : Env) (rc : RegistryClient)
    (name version destDir : string) (disk disk' : Disk) :
  DownloadPlugin env rc name version destDir disk = (None, disk') ->
  exists info resp manifestData,
    GetPlugin env rc name = Ok info /\
    Get env (binary_url rc info name version) = Ok resp /\
    StatusCode resp = 200 /\ ReadErr resp = None /\
    MarshalManifest env (manifest_of info) = Ok manifestData /\
    disk' = installed env (Join destDir name) info (Body resp) manifestData disk.
Proof.
  unfold DownloadPlugin.
  destruct (GetPlugin env rc name) as [info|msg]; [|discriminate]. cbv zeta.
  destruct (attempt_cases env (OpMkdirAll (Join destDir name))
              (MkdirAll env (Join destDir name)) disk)
    as [(m & ->)|[(m & ->)|(_ & _ & ->)]]; [discriminate | discriminate |].
  fold (binary_url rc info name version).
  destruct (Get env (binary_url rc info name version)) as [resp|msg] eqn:Hget;
    [|discriminate].
  destruct (Z.eqb_spec (StatusCode resp) 200) as [Hst|Hst]; [|discriminate].
  cbn [negb].
  match goal with
  | |- context [attempt env ?op ?eff ?d] =>
      destruct (attempt_cases env op eff d)
        as [(m & ->)|[(m & ->)|(_ & _ & ->)]]; [discriminate | discriminate |]
  end.
  match goal with
  | |- context [attempt env ?op ?eff ?d] =>
      destruct (attempt_cases env op eff d)
        as [(m & ->)|[(m & ->)|(_ & _ & ->)]]; [discriminate | discriminate |]
  end.
  destruct (ReadErr resp) as [msg|] eqn:Hrd; [discriminate|].
  match goal with
  | |- context [attempt env ?op ?eff ?d] =>
      destruct (attempt_cases env op eff d)
        as [(m & ->)|[(m & ->)|(_ & _ & ->)]]; [discriminate | discriminate |]
  end.
  fold (manifest_of info).
  destruct (MarshalManifest env (manifest_of info)) as [manifestData|msg] eqn:Hmf;
    [|discriminate].
  match goal with
  | |- context [attempt env ?op ?eff ?d] =>
      destruct (attempt_cases env op eff d)
        as [(m & ->)|[(m & ->)|(_ & _ & ->)]]; [discriminate | discriminate |]
  end.
  intros [= <-]. exists info, resp, manifestData. repeat split; auto.
Qed.

Lemma installed_manifest (env : Env) (dir : string) (info : PluginInfo)
    (body manifestData : string) (disk : Disk) :
  exists manifest,
    files (installed env dir info body manifestData disk)
      !! resolve env (Join dir "manifest.json") = Some manifest /\
    data manifest = manifestData.
Proof.
  unfold installed, store at 1. cbn [files]. rewrite lookup_insert_eq.
  eexists. split; reflexivity.
Qed.

Lemma installed_binary (env : Env) (dir : string) (info : PluginInfo)
    (body manifestData : string) (disk : Disk) :
  exists f,
    files (installed env dir info body manifestData disk)
      !! resolve env (Join dir (Name info)) = Some f /\
    perm f = 493 /\
    (resolve env (Join dir (Name info)) <> resolve env (Join dir "manifest.json") ->
     data f = body).
Proof.
  unfold installed, store, Chmod. cbn [files].
  destruct (decide (resolve env (Join dir "manifest.json")
                    = resolve env (Join dir (Name info)))) as [He|Hne].
  - rewrite He, lookup_insert_eq. eexists. split; [reflexivity|]. cbn [perm data].
    rewrite lookup_alter_eq, !lookup_insert_eq. cbn. split; [reflexivity|congruence].
  - rewrite lookup_insert_ne by assumption.
    rewrite lookup_alter_eq, !lookup_insert_eq. cbn.
    eexists. split; [reflexivity|]. cbn. auto.
Qed.

(** X23. Installing and loading agree. When [InstallPlugin] returns without
    error, the plugin directory holds the manifest that was rendered from
    the registry entry and, under the entry's name, a file with permission
    bits 0755, which holds the downloaded bytes unless that file is the
    manifest itself. Loading that directory then succeeds, provided the
    manifest may be read and the decoder reads the rendered manifest back,
    and registers the installed binary for exactly the languages of the
    registry entry. The paths are the ones that [filepath.Join] builds,
    looked up from the working directory. *)
Theorem install_then_load (env : Env) (pm : PluginManager) (name version : string)
    (disk disk' : Disk) :
  InstallPlugin env pm name version disk = (None, disk') ->
  holds_plugin env pm name version disk'.
Proof.
  intros Hinst. unfold holds_plugin. set (pluginDir := Join (LocalDir pm) name).
  cbv zeta. unfold InstallPlugin in Hinst.
  destruct (DownloadPlugin_success _ _ _ _ _ _ _ Hinst)
    as (info & resp & manifestData & Hget & Hbin & _ & _ & Hmf & ->).
  fold pluginDir.
  destruct (installed_manifest env pluginDir info (Body resp) manifestData disk)
    as (manifest & Hman & Hdata).
  destruct (installed_binary env pluginDir info (Body resp) manifestData disk)
    as (f & Hf & Hperm & Hbody).
  exists info, resp, manifest. rewrite Hdata.
  split; [exact Hget|]. split; [exact Hbin|]. split; [exact Hman|].
  split; [exact Hmf|]. split; [exists f; auto|].
  intros j base superuser m Hdec Hread. unfold plugin.LoadPlugin.
  cbn [ReadFile Exists on_disk]. rewrite Hman, Hread, Hdata, Hdec.
  cbn [plugin.Name plugin.Languages manifest_of]. rewrite Hf.
  rewrite bool_decide_eq_true_2 by eauto. reflexivity.
Qed.

Lemma install_then_load_witness :
  holds_plugin (scenarios.registry_env "") scenarios.hello_pm "hello-plugin" "1.2.0"
    (snd (InstallPlugin (scenarios.registry_env "") scenarios.hello_pm
            "hello-plugin" "1.2.0" scenarios.empty_disk)).
Proof.
  apply (install_then_load (scenarios.registry_env "") scenarios.hello_pm
           "hello-plugin" "1.2.0" scenarios.empty_disk).
  vm_compute. reflexivity.
Defined.

(** X24. A registry entry that carries a download address makes the
    requested version irrelevant: installing any two versions of it does
    the same, and so updating, which asks for the version latest, does
    exactly what installing any version does. *)
Theorem version_ignored_with_download_url (env : Env) (pm : PluginManager)
    (name v1 v2 : string) (info : PluginInfo) (disk : Disk) :
  GetPlugin env (Registry pm) name = Ok info ->
  DownloadURL info <> "" ->
  InstallPlugin env pm name v1 disk = InstallPlugin env pm name v2 disk /\
  UpdatePlugin env pm name disk = InstallPlugin env pm name v1 disk.
Proof.
  intros Hget Hurl. unfold UpdatePlugin, InstallPlugin, DownloadPlugin.
  rewrite Hget. cbv zeta.
  destruct (String.eqb_spec (DownloadURL info) ""); [contradiction|]. auto.
Qed.

Lemma version_ignored_with_download_url_witness :
  InstallPlugin (scenarios.registry_env "https://cdn.example.org/hello-plugin")
    scenarios.hello_pm "hello-plugin" "1.2.0" scenarios.empty_disk
  = InstallPlugin (scenarios.registry_env "https://cdn.example.org/hello-plugin")
      scenarios.hello_pm "hello-plugin" "0.0.1" scenarios.empty_disk /\
  UpdatePlugin (scenarios.registry_env "https://cdn.example.org/hello-plugin")
    scenarios.hello_pm "hello-plugin" scenarios.empty_disk
  = InstallPlugin (scenarios.registry_env "https://cdn.example.org/hello-plugin")
      scenarios.hello_pm "hello-plugin" "1.2.0" scenarios.empty_disk.
Proof.
  apply (version_ignored_with_download_url
           (scenarios.registry_env "https://cdn.example.org/hello-plugin")
           scenarios.hello_pm "hello-plugin" "1.2.0" "0.0.1"
           (scenarios.hello_info "https://cdn.example.org/hello-plugin")).
  - reflexivity.
  - discriminate.
Defined.

(** *** Removing *)

Lemma HasPrefix_app (d rest : string) : HasPrefix (d +:+ rest) d = true.
Proof.
  induction d as [|c d IH]; [reflexivity|]. rewrite append_cons.
  cbn [HasPrefix]. now rewrite Ascii.eqb_refl.
Qed.

Lemma under_child (dir name : string) : under dir (child dir name) = true.
Proof.
  unfold under, child. apply orb_true_iff. right.
  destruct (String.eqb dir "/"); [apply HasPrefix_app|].
  rewrite <- append_assoc. apply HasPrefix_app.
Qed.

Lemma Join_plain_nonempty (dir name : string) : plain name -> Join dir name <> "".
Proof.
  intros Hp. destruct (Join_plain_last dir name Hp) as (pre & -> & _).
  destruct Hp as (_ & Hn & _). destruct pre; [exact Hn | discriminate].
Qed.

Lemma Join_plain_element (dir name : string) :
  plain name -> last (elements (Join dir name)) = Some name.
Proof.
  intros Hp. destruct (Join_plain_last dir name Hp) as (pre & -> & [->|[q ->]]);
    destruct Hp as (He & _).
  - change ("" +:+ name) with name. now rewrite He.
  - rewrite append_assoc. change ("/" +:+ name) with (String "/" name).
    rewrite elements_app_sep, He. apply last_snoc.
Qed.

(** A plain entry of a directory is looked up below that directory. *)
Lemma resolve_Join_plain (env : Env) (dir name : string) :
  HasPrefix (cwd env) "/" = true -> dir <> "" -> plain name ->
  resolve env (Join dir name) = child (resolve env dir) name.
Proof.
  intros Hcwd Hdir Hp. unfold Join. apply String.eqb_neq in Hdir as Hd. rewrite Hd.
  change (dir +:+ "/" +:+ name) with (dir +:+ String "/" name).
  unfold resolve. rewrite Clean_rooted, HasPrefix_app_sep, Hd.
  destruct (HasPrefix dir "/") eqn:Hr.
  - rewrite Clean_idempotent. now apply Clean_child.
  - change (cwd env +:+ "/" +:+ Clean (dir +:+ String "/" name))
      with (cwd env +:+ String "/" (Clean (dir +:+ String "/" name))).
    rewrite Clean_inner by now rewrite HasPrefix_app_sep, Hd.
    replace (cwd env +:+ String "/" (dir +:+ String "/" name))
      with ((cwd env +:+ "/" +:+ dir) +:+ String "/" name)
      by (rewrite append_assoc; reflexivity).
    apply Clean_child; [|assumption].
    destruct (cwd env); [discriminate Hcwd | exact Hcwd].
Qed.

Lemma refused_RemoveAll_plain (dir name : string) :
  plain name -> refused (OpRemoveAll (Join dir name)) = None.
Proof.
  intros Hp. unfold refused, endsWithDot. rewrite Join_plain_element by assumption.
  destruct Hp as (_ & _ & Hdot & _).
  rewrite bool_decide_eq_false_2; [reflexivity | congruence].
Qed.

Lemma installed_elsewhere (env : Env) (dir : string) (info : PluginInfo)
    (body manifestData path : string) (disk : Disk) :
  HasPrefix (cwd env) "/" = true -> dir <> "" -> plain (Name info) ->
  under (resolve env dir) path = false ->
  files (installed env dir info body manifestData disk) !! path = files disk !! path.
Proof.
  intros Hcwd Hd Hp Hu. unfold installed, store, Chmod, MkdirAll. cbn [files].
  assert (H1 : resolve env (Join dir "manifest.json") <> path).
  { intros <-. rewrite resolve_Join_plain, under_child in Hu;
      [discriminate | assumption | assumption | repeat split; discriminate]. }
  assert (H2 : resolve env (Join dir (Name info)) <> path).
  { intros <-. rewrite resolve_Join_plain, under_child in Hu;
      [discriminate | assumption | assumption | assumption]. }
  rewrite lookup_insert_ne by assumption.
  rewrite lookup_alter_ne by assumption.
  now rewrite !lookup_insert_ne by assumption.
Qed.

Lemma RemoveAll_eq (env : Env) (path : string) (disk : Disk) :
  path <> "" ->
  RemoveAll env path disk =
  {| files := filter (fun '(p, _) => under (resolve env path) p = false) (files disk);
     dirs := filter (fun p => under (resolve env path) p = false) (dirs disk) |}.
Proof.
  intros Hp. unfold RemoveAll. apply String.eqb_neq in Hp. now rewrite Hp.
Qed.

Lemma RemoveAll_vacant (env : Env) (path : string) (disk : Disk) :
  path <> "" -> vacant (resolve env path) (RemoveAll env path disk).
Proof.
  intros Hp. rewrite RemoveAll_eq by assumption. split; cbn [files dirs].
  - intros p f [_ H]%map_lookup_filter_Some. exact H.
  - intros p [H _]%elem_of_filter. exact H.
Qed.

Lemma RemoveAll_of_vacant (env : Env) (path : string) (disk : Disk) :
  vacant (resolve env path) disk -> RemoveAll env path disk = disk.
Proof.
  intros [Hf Hd]. unfold RemoveAll. destruct (String.eqb path ""); [reflexivity|].
  destruct disk as [fs ds]. cbn [files dirs] in *. f_equal.
  - apply map_eq. intros p. apply option_eq. intros f.
    rewrite map_lookup_filter_Some. split; [tauto|]. intros H. split; [exact H|].
    eapply Hf, H.
  - apply set_eq. intros p. rewrite elem_of_filter. split; [tauto|]. auto.
Qed.

(** X25. Removing undoes installing, for a plugin whose name and whose
    binary are plain file names. If nothing lay in the plugin's directory
    before and the installation returned without error, then removing the
    plugin (when the removal itself does not fail) gives back exactly the
    files there were before and leaves nothing in the plugin's directory,
    so that loading that directory fails on the missing manifest; the only
    trace left is the parent directories that the installation has made. *)
Theorem install_then_remove (env : Env) (pm : PluginManager) (name version : string)
    (info : PluginInfo) (disk disk1 : Disk) :
  HasPrefix (cwd env) "/" = true ->
  plain name ->
  GetPlugin env (Registry pm) name = Ok info -> plain (Name info) ->
  let pluginDir := Join (LocalDir pm) name in
  vacant (resolve env pluginDir) disk ->
  InstallPlugin env pm name version disk = (None, disk1) ->
  fault env (OpRemoveAll pluginDir) = None ->
  exists disk2,
    RemovePlugin env pm name disk1 = (None, disk2) /\
    files disk2 = files disk /\
    dirs disk ⊆ dirs disk2 /\
    (forall dir, dir ∈ dirs disk2 ->
       dir ∈ dirs disk \/ dir ∈ parents "" (resolve env pluginDir)) /\
    vacant (resolve env pluginDir) disk2 /\
    forall (j : plugin.Json) (base : World) (superuser : bool)
           (m : plugin.Manager),
    exists msg,
      plugin.LoadPlugin (on_disk base superuser env disk2) j m pluginDir
      = Err ("failed to read manifest: " +:+ msg).
Proof.
  intros Hcwd Hname Hget Hbin pluginDir [Hvf Hvd] Hinst Hfault.
  unfold InstallPlugin in Hinst.
  destruct (DownloadPlugin_success _ _ _ _ _ _ _ Hinst)
    as (info' & resp & manifestData & Hget' & _ & _ & _ & _ & ->).
  rewrite Hget in Hget'. injection Hget' as <-.
  fold pluginDir.
  assert (Hdir : pluginDir <> "") by now apply Join_plain_nonempty.
  pose proof (refused_RemoveAll_plain (LocalDir pm) name Hname) as Href.
  fold pluginDir in Href.
  unfold RemovePlugin, attempt. fold pluginDir. rewrite Href, Hfault.
  eexists. split; [reflexivity|].
  pose proof (RemoveAll_vacant env pluginDir
                (installed env pluginDir info (Body resp) manifestData disk) Hdir)
    as Hvac.
  split; [|split; [|split; [|split; [exact Hvac|]]]].
  - rewrite RemoveAll_eq by assumption. cbn [files].
    apply map_eq. intros path. apply option_eq. intros f.
    rewrite map_lookup_filter_Some. split.
    + intros [Hl Hu]. now rewrite installed_elsewhere in Hl.
    + intros Hl. pose proof (Hvf _ _ Hl) as Hu.
      now rewrite installed_elsewhere.
  - intros path Hin. rewrite RemoveAll_eq by assumption. cbn [dirs].
    apply elem_of_filter.
    split; [now apply Hvd|]. unfold installed, store, Chmod, MkdirAll. cbn [dirs].
    apply elem_of_union. now left.
  - intros dir. rewrite RemoveAll_eq by assumption. cbn [dirs].
    rewrite elem_of_filter. unfold installed, store, Chmod, MkdirAll. cbn [dirs].
    rewrite elem_of_union, elem_of_list_to_set, elem_of_app, list_elem_of_singleton.
    intros [Hu [Hin|[Hin| ->]]]; [now left | now right |].
    unfold under in Hu. now rewrite String.eqb_refl in Hu.
  - intros j base superuser m. unfold plugin.LoadPlugin. cbn [ReadFile on_disk].
    destruct (files _ !! resolve env (Join pluginDir "manifest.json")) as [f|] eqn:Hl.
    + apply (proj1 Hvac) in Hl.
      rewrite resolve_Join_plain, under_child in Hl;
        [discriminate | assumption | assumption | repeat split; discriminate].
    + destruct (through_file _ _); eexists; reflexivity.
Qed.

Lemma install_then_remove_witness :
  exists disk2,
    RemovePlugin (scenarios.registry_env "") scenarios.hello_pm "hello-plugin"
      (snd (InstallPlugin (scenarios.registry_env "") scenarios.hello_pm
              "hello-plugin" "1.2.0" scenarios.empty_disk))
    = (None, disk2) /\
    files disk2 = files scenarios.empty_disk /\
    dirs scenarios.empty_disk ⊆ dirs disk2 /\
    (forall dir, dir ∈ dirs disk2 ->
       dir ∈ dirs scenarios.empty_disk
       \/ dir ∈ ["/home"; "/home/forge"; "/home/forge/plugins"]) /\
    vacant "/home/forge/plugins/hello-plugin" disk2 /\
    forall (j : plugin.Json) (base : World) (superuser : bool)
           (m : plugin.Manager),
    exists msg,
      plugin.LoadPlugin (on_disk base superuser (scenarios.registry_env "") disk2) j m
        "plugins/hello-plugin"
      = Err ("failed to read manifest: " +:+ msg).
Proof.
  apply (install_then_remove (scenarios.registry_env "") scenarios.hello_pm
           "hello-plugin" "1.2.0" (scenarios.hello_info "") scenarios.empty_disk).
  - reflexivity.
  - repeat split; discriminate.
  - reflexivity.
  - repeat split; discriminate.
  - split; [intros path f H | intros path H]; vm_compute in H; discriminate H
      || (now apply elem_of_empty in H).
  - vm_compute. reflexivity.
  - reflexivity.
Defined.

(** X26. Removing a plugin with a plain name is idempotent, and removing
    what is not installed is a successful no-op: when the removal does not
    fail, it leaves nothing in the plugin's directory and touches nothing
    outside it; removing again changes nothing more; and on a disk that
    holds nothing in the plugin's directory it returns without error and
    leaves the disk as it was. *)
Theorem RemovePlugin_idempotent (env : Env) (pm : PluginManager) (name : string)
    (disk : Disk) :
  plain name ->
  fault env (OpRemoveAll (Join (LocalDir pm) name)) = None ->
  let dir := resolve env (Join (LocalDir pm) name) in
  let removed := RemovePlugin env pm name disk in
  fst removed = None /\
  vacant dir (snd removed) /\
  (forall path, under dir path = false ->
     files (snd removed) !! path = files disk !! path /\
     (path ∈ dirs (snd removed) <-> path ∈ dirs disk)) /\
  RemovePlugin env pm name (snd removed) = removed /\
  (vacant dir disk -> removed = (None, disk)).
Proof.
  intros Hname Hfault dir removed. subst removed dir. unfold RemovePlugin, attempt.
  cbv zeta. rewrite (refused_RemoveAll_plain _ _ Hname), Hfault. cbn [fst snd].
  assert (Hdir : Join (LocalDir pm) name <> "") by now apply Join_plain_nonempty.
  split; [reflexivity|]. split; [now apply RemoveAll_vacant|]. split; [|split].
  - intros path Hu. rewrite RemoveAll_eq by assumption. cbn [files dirs]. split.
    + apply option_eq. intros f. rewrite map_lookup_filter_Some. tauto.
    + rewrite elem_of_filter. tauto.
  - f_equal. now apply RemoveAll_of_vacant, RemoveAll_vacant.
  - intros Hv. f_equal. now apply RemoveAll_of_vacant.
Qed.

Lemma RemovePlugin_idempotent_witness :
  RemovePlugin (scenarios.registry_env "") scenarios.hello_pm "never-installed"
    scenarios.empty_disk = (None, scenarios.empty_disk).
Proof.
  apply (RemovePlugin_idempotent (scenarios.registry_env "") scenarios.hello_pm
           "never-installed" scenarios.empty_disk).
  - repeat split; discriminate.
  - reflexivity.
  - split; [intros path f H | intros path H].
    + vm_compute in H. discriminate H.
    + now apply elem_of_empty in H.
Defined.

End install_facts.

(** ** The commands of the CLI *)
Module command_facts.
Import os context exec sandbox gostrings.
Import exec_spec exec_facts executor_spec executor_facts outcome_facts.
Import cli command_spec.

(** X27. With a plugin directory given, the timeout and memory-limit flags
    have no effect: [forgeai run], [forgeai exec] and [forgeai lang list]
    behave the same whatever values the two flags have, since the executor
    they resolve carries the default limits. *)
Theorem plugin_dir_disables_limits (w : World) (j : plugin.Json) (rd : Render)
    (flags : Flags) (t m : Z) :
  pluginDir flags <> "" ->
  (forall language code,
      runCmd w j rd (with_limits t m flags) language code
      = runCmd w j rd flags language code) /\
  (forall file,
      execCmd w j rd (with_limits t m flags) file = execCmd w j rd flags file) /\
  langListCmd w j rd (with_limits t m flags) = langListCmd w j rd flags.
Proof.
  intros Hdir.
  assert (Hget : getExecutor w j (with_limits t m flags) = getExecutor w j flags).
  { unfold getExecutor, with_limits. cbn [pluginDir containerized].
    destruct (String.eqb_spec (pluginDir flags) ""); [contradiction|reflexivity]. }
  unfold runCmd, execCmd, langListCmd, printResult. rewrite Hget.
  cbn [with_limits jsonOutput]. auto.
Qed.

Lemma plugin_dir_disables_limits_witness :
  runCmd (examples.plugin_world 0) examples.toy_json
    {| DurationString := itoa; EncodeResult := fun _ => Ok "{}";
       EncodeLanguages := fun _ => Ok "[]" |}
    (with_limits Second 16 examples.plugin_flags) "hello" "World"
  = runCmd (examples.plugin_world 0) examples.toy_json
      {| DurationString := itoa; EncodeResult := fun _ => Ok "{}";
         EncodeLanguages := fun _ => Ok "[]" |}
      examples.plugin_flags "hello" "World".
Proof.
  apply (plugin_dir_disables_limits (examples.plugin_world 0) examples.toy_json
           _ examples.plugin_flags Second 16).
  discriminate.
Defined.

Lemma printResult_plain (rd : Render) (flags : Flags) (result : ExecutionResult)
    (s : St) :
  jsonOutput flags = false ->
  printResult rd flags result s =
  (Some None, {| trace := trace s ++ report rd result; clock := clock s |}).
Proof.
  intros Hjson. unfold printResult, report. rewrite Hjson.
  unfold bind, emit, ret. cbn [trace clock].
  destruct (String.eqb (Stdout result) ""); destruct (String.eqb (Stderr result) "");
    cbn [negb trace clock]; rewrite <- ?app_assoc; cbn [app];
    rewrite ?app_nil_r; reflexivity.
Qed.

(** X28. [forgeai run] treats the exit status of the child as data. With
    neither plugins nor the container flag nor JSON output, when the
    temporary directory and the source file can be written and the
    interpreter exits by itself before the timeout, the command returns,
    once the output pipe has been closed, with no error whatever the exit
    status is; it has asked for the directory, written the file, run the
    interpreter, removed the directory and then printed the report of a
    result that carries what was written to the pipe and, if the timeout
    has not passed when the pipe is closed, the exit status of the
    interpreter with an empty stderr; if it has passed, the result is the
    timed-out one. While some process holds the pipe the command does not
    return. *)
Theorem runCmd_reports_exit_status (w : World) (j : plugin.Json) (rd : Render)
    (flags : Flags) (language code tempDir : string) (s : St) (t status : Z) :
  pluginDir flags = "" -> containerized flags = false -> jsonOutput flags = false ->
  language ∈ builtin ->
  MkdirTemp w "forgeai-*" = Ok tempDir ->
  let filePath := Join tempDir (sourceName language) in
  let cmdArgs := commandFor language filePath in
  let left := time_left Background (timeout flags) (clock s) in
  WriteFile w filePath code = None ->
  exits_first left (Command w cmdArgs "") t status ->
  match pipe_closed (Command w cmdArgs "") None t with
  | Some c =>
      exists r s',
        runCmd w j rd flags language code s = (Some None, s') /\
        trace s' =
          trace s ++ [EvMkdirTemp "forgeai-*"; EvWriteFile filePath;
                      EvSpawn cmdArgs; EvRemoveAll tempDir]
          ++ report rd r /\
        Stdout r = written (Command w cmdArgs "") c /\
        if after_deadline left c
        then Stderr r = "Execution timed out" /\ ExitCode r = -1
        else Stderr r = "" /\ ExitCode r = status
  | None => fst (runCmd w j rd flags language code s) = None
  end.
Proof.
  intros Hdir Hcont Hjson Hlang Hmk filePath cmdArgs left Hwr Hx.
  assert (Hrun : runCmd w j rd flags language code s =
                 match collect left (Command w cmdArgs "") with
                 | Some f =>
                     printResult rd flags (resultOf f)
                       {| trace := trace s ++ [EvMkdirTemp "forgeai-*";
                                               EvWriteFile filePath;
                                               EvSpawn cmdArgs; EvRemoveAll tempDir];
                          clock := clock s + elapsed f |}
                 | None =>
                     (None,
                      {| trace := trace s ++ [EvMkdirTemp "forgeai-*";
                                              EvWriteFile filePath; EvSpawn cmdArgs];
                         clock := clock s |})
                 end).
  { unfold runCmd, getExecutor. rewrite Hdir, Hcont. cbn [String.eqb negb].
    unfold bind at 1. unfold ret at 1. cbv beta iota.
    unfold bind at 1. cbn [Execute].
    rewrite (local_Execute_eq w _ Background language code tempDir s Hlang Hmk Hwr).
    fold filePath cmdArgs. cbn [executor.Timeout]. fold left.
    destruct (collect left _); reflexivity. }
  rewrite Hrun, (collect_exits _ _ _ _ Hx).
  destruct (pipe_closed (Command w cmdArgs "") None t) as [c|]; [|reflexivity].
  rewrite printResult_plain by assumption. cbn [trace clock].
  eexists _, _. split; [reflexivity|]. split; [now rewrite <- app_assoc|].
  unfold resultOf, overdue, after_deadline. cbn [ctx_err err output elapsed].
  destruct left as [d|].
  - destruct (d <=? c); [auto|].
    destruct (Z.eqb_spec status 0) as [->|Hne]; auto.
  - destruct (Z.eqb_spec status 0) as [->|Hne]; auto.
Qed.

Lemma runCmd_reports_exit_status_witness :
  exists r s',
    runCmd (scenarios.script_world "Traceback" 3) examples.toy_json
      {| DurationString := itoa; EncodeResult := fun _ => Ok "{}";
         EncodeLanguages := fun _ => Ok "[]" |}
      defaultFlags "python" "import sys; sys.exit(3)" st0 = (Some None, s') /\
    trace s' =
      trace st0 ++ [EvMkdirTemp "forgeai-*"; EvWriteFile "/tmp/forgeai-4/main.py";
                    EvSpawn ["python"; "/tmp/forgeai-4/main.py"];
                    EvRemoveAll "/tmp/forgeai-4"]
      ++ report {| DurationString := itoa; EncodeResult := fun _ => Ok "{}";
                   EncodeLanguages := fun _ => Ok "[]" |} r /\
    Stdout r = "Traceback" /\ Stderr r = "" /\ ExitCode r = 3.
Proof.
  assert (Hin : "python" ∈ builtin) by (left; reflexivity).
  exact (runCmd_reports_exit_status (scenarios.script_world "Traceback" 3)
           examples.toy_json _ defaultFlags "python" "import sys; sys.exit(3)"
           "/tmp/forgeai-4" st0 (5 * Millisecond) 3
           eq_refl eq_refl eq_refl Hin eq_refl eq_refl
           (conj eq_refl (conj eq_refl (conj eq_refl eq_refl)))).
Defined.

End command_facts.

(** ** The hardened container *)
Module hardening_facts.
Import os context exec sandbox gostrings gostrings_facts.
Import exec_spec exec_facts executor_spec executor_facts plugin_spec plugin_facts.
Import probe_spec probe_facts hardening_spec.
Import container security.










Lemma basic_probe_available (w : World) (s : St) :
  available w ->
  DockerExecutor.isDockerAvailable w s = (Some true, probed w s).
Proof.
  intros [Hs [t He]]. unfold DockerExecutor.isDockerAvailable, probed, bind, ret.
  rewrite Run_eq. cbn [remaining Background deadline wait]. fold probe.
  rewrite Hs, He. reflexivity.
Qed.

(** X30. An image that is neither present nor can be pulled stops the Docker
    executor before any container is run: with Docker there, when both
    [docker image inspect] and [docker pull] of the language's image fail,
    [ExecuteFile] on a file of a supported language returns the error
    "container execution failed: failed to pull image ..." and has started
    the probe, the inspection and the pull, in this order, and nothing
    else. *)
Theorem docker_image_unavailable (w : World) (d : DockerExecutor.t) (ctx : Context)
    (filePath : string) (s : St) :
  available w ->
  DockerExecutor.isLanguageSupported (DockerExecutor.getLanguageFromFile filePath)
    = true ->
  let image :=
    DockerExecutor.getImageForLanguage (DockerExecutor.getLanguageFromFile filePath) in
  fails (Command w ["docker"; "image"; "inspect"; image] "") ->
  fails (Command w ["docker"; "pull"; image] "") ->
  exists msg s',
    DockerExecutor.ExecuteFile w d ctx filePath s =
    (Some (Err ("container execution failed: failed to pull image " +:+ image
                  +:+ ": " +:+ msg)), s') /\
    spawned s' = spawned s ++ [probe; ["docker"; "image"; "inspect"; image];
                               ["docker"; "pull"; image]].
Proof.
  intros Hav Hsup image Hinspect Hpull.
  unfold DockerExecutor.ExecuteFile. cbv zeta. rewrite Hsup. cbn [negb].
  unfold bind at 1.
  destruct (imposed_eq ctx (DockerExecutor.Timeout d) s) as [ctx' ->].
  unfold DockerExecutor.runContainer, DockerExecutor.pullImage, bind.
  rewrite (basic_probe_available w s Hav). cbn [negb DockerExecutor.cfg_Image].
  fold image. rewrite Run_eq.
  destruct (wait_fails (remaining ctx' (clock (probed w s))) _ Hinspect)
    as (f1 & e1 & -> & ->).
  rewrite Run_eq. cbn [clock trace].
  match goal with
  | |- context [wait ?left (Command w ["docker"; "pull"; image] "")] =>
      destruct (wait_fails left _ Hpull) as (f2 & e2 & -> & ->)
  end.
  unfold ret. eexists _, _. split; [reflexivity|].
  unfold probed. destruct s as [tr c]. cbn [trace clock].
  rewrite !spawned_app. now rewrite <- !app_assoc.
Qed.

Lemma docker_image_unavailable_witness :
  exists msg s',
    DockerExecutor.ExecuteFile scenarios.offline_docker_world
      DockerExecutor.NewDockerExecutor Background "/srv/jobs/main.go" st0 =
    (Some (Err ("container execution failed: failed to pull image "
                  +:+ "golang:1.19-alpine" +:+ ": " +:+ msg)), s') /\
    spawned s' = spawned st0 ++ [probe; ["docker"; "image"; "inspect";
                                         "golang:1.19-alpine"];
                                 ["docker"; "pull"; "golang:1.19-alpine"]].
Proof.
  apply (docker_image_unavailable scenarios.offline_docker_world
           DockerExecutor.NewDockerExecutor Background "/srv/jobs/main.go" st0).
  - split; [reflexivity|]. exists (5 * Millisecond). reflexivity.
  - reflexivity.
  - right. exists (5 * Millisecond), 1. split; [reflexivity | lia].
  - right. exists (5 * Millisecond), 1. split; [reflexivity | lia].
Defined.

End hardening_facts.
